(** * Resource janitor: eligibility filter and deletion engine

    A shallow embedding of the Go sources of the resource janitor
    (tools/resource-janitor and tools/janitor) and the proofs that settle
    what its specification says about them.

    Layout: the Go standard-library functions the code calls (strings.Split,
    strings.Join, regexp, time.Parse) come first, then one module per Go
    package of the repository, then the theorems. *)

From Stdlib Require Import ZArith Lia.
From Stdlib Require Import Ascii String.
From stdpp Require Import gmap strings list pretty sorting.

Open Scope string_scope.

(* ===================================================================== *)
(** * Go's [strings] package, as far as the janitor uses it               *)
(* ===================================================================== *)

Module GoStrings.

(** [HasPrefix s sep] is Go's [strings.HasPrefix]. *)
Fixpoint HasPrefix (s sep : string) : bool :=
  match sep, s with
  | EmptyString, _ => true
  | String _ _, EmptyString => false
  | String a sep', String b s' => if Ascii.eqb a b then HasPrefix s' sep' else false
  end.

(** [Contains s sep] is Go's [strings.Contains]: [sep] occurs somewhere in
    [s]; the empty string occurs in every string. *)
Fixpoint Contains (s sep : string) : bool :=
  HasPrefix s sep ||
  match s with
  | EmptyString => false
  | String _ s' => Contains s' sep
  end.

(** [explode s]: [strings.Split(s, "")] cuts [s] after every character
    (resource names are ASCII, so characters are bytes); the empty string
    gives the empty slice. *)
Fixpoint explode (s : string) : list string :=
  match s with
  | EmptyString => []
  | String c s' => String c EmptyString :: explode s'
  end.

(** The loop of [strings.Split] for a non-empty separator: [skip] counts
    the characters of a separator occurrence still to be passed over, [cur]
    holds the characters of the piece being read, last one first. At
    [skip = 0] the leftmost occurrence of [sep] in what remains closes the
    current piece. *)
Fixpoint splitLoop (sep : string) (skip : nat) (cur : string) (s : string) : list string :=
  match s with
  | EmptyString => [String.rev cur]
  | String c s' =>
      match skip with
      | S k => splitLoop sep k cur s'
      | O =>
          if HasPrefix s sep
          then String.rev cur :: splitLoop sep (String.length sep - 1) EmptyString s'
          else splitLoop sep O (String c cur) s'
      end
  end.

(** [Split s sep] is Go's [strings.Split]: the pieces of [s] between the
    occurrences of [sep], taken leftmost first and without overlap; never
    empty for a non-empty [sep] (a name without [sep] is its own single
    piece, a separator at the very end leaves one more, empty, piece). *)
Definition Split (s sep : string) : list string :=
  match sep with
  | EmptyString => explode s
  | String _ _ => splitLoop sep O EmptyString s
  end.

(** [s[k:]], or the empty string when [s] is shorter than [k]. *)
Fixpoint dropChars (k : nat) (s : string) : string :=
  match k, s with
  | O, _ => s
  | S _, EmptyString => EmptyString
  | S k', String _ s' => dropChars k' s'
  end.

(** [Join elems sep] is Go's [strings.Join]. *)
Definition Join (elems : list string) (sep : string) : string :=
  String.concat sep elems.

(** The slice expression [a[:len(a)-1]]: all elements but the last. On the
    empty slice the bound is [-1] and Go panics ([None]). *)
Definition sliceInit {A} (a : list A) : option (list A) :=
  match a with
  | [] => None
  | _ :: _ => Some (removelast a)
  end.

(** The slice expression [a[len(a)-1]]: the last element; panics on the
    empty slice. *)
Definition sliceLast {A} (a : list A) : option A := last a.

End GoStrings.

Import GoStrings.

(* ===================================================================== *)
(** * Go's [regexp] package: a fragment for concrete blacklists           *)
(* ===================================================================== *)

(** The filter only calls [regexp.MustCompile] and [MatchString]. The
    functions of the janitor take the compiler as a parameter (see the
    section variables of [Utils]), so every general theorem holds for Go's
    own implementation. For evaluating the code on concrete blacklists the
    module below implements the fragment that blacklist files normally use:
    literal characters, [.], a postfix [*], a leading [^] and a trailing
    [$]. [compile] answers [None] outside the fragment; no theorem relies on
    that answer. *)
Module GoRegexp.

Inductive atom := Lit (c : ascii) | AnyChar.

Record piece := Piece { p_atom : atom; p_star : bool }.

Record regex := Regex {
  anchoredStart : bool;
  pieces : list piece;
  anchoredEnd : bool
}.

Definition newline : ascii := Ascii.ascii_of_nat 10.

(** [.] matches every character but the line feed. *)
Definition atomMatches (a : atom) (c : ascii) : bool :=
  match a with
  | Lit x => Ascii.eqb x c
  | AnyChar => negb (Ascii.eqb c newline)
  end.

(** [matchStar a k text]: some number of characters matched by [a], then
    the rest of the expression, [k]. *)
Fixpoint matchStar (a : atom) (k : string -> bool) (text : string) : bool :=
  k text ||
  match text with
  | EmptyString => false
  | String c text' => atomMatches a c && matchStar a k text'
  end.

Fixpoint matchHere (ps : list piece) (atEnd : bool) (text : string) : bool :=
  match ps with
  | [] => if atEnd then String.eqb text EmptyString else true
  | Piece a true :: ps' => matchStar a (matchHere ps' atEnd) text
  | Piece a false :: ps' =>
      match text with
      | EmptyString => false
      | String c text' => atomMatches a c && matchHere ps' atEnd text'
      end
  end.

Fixpoint matchFrom (ps : list piece) (atEnd : bool) (text : string) : bool :=
  matchHere ps atEnd text ||
  match text with
  | EmptyString => false
  | String _ text' => matchFrom ps atEnd text'
  end.

(** [MatchString re s]: the expression matches somewhere in [s]. *)
Definition MatchString (re : regex) (s : string) : bool :=
  if anchoredStart re
  then matchHere (pieces re) (anchoredEnd re) s
  else matchFrom (pieces re) (anchoredEnd re) s.

(** The characters with a meaning of their own in Go's syntax. *)
Definition isMeta (c : ascii) : bool :=
  existsb (Ascii.eqb c)
    (list_ascii_of_string "\.+*?()|[]{}^$").

Definition atomOf (c : ascii) : option atom :=
  if Ascii.eqb c "."%char then Some AnyChar
  else if isMeta c then None
  else Some (Lit c).

(** Reads the body of a pattern (after a leading [^]): a sequence of atoms,
    each with an optional [*], closed by the end of the pattern or by a
    final [$]. *)
Fixpoint parseBody (p : string) : option (list piece * bool) :=
  match p with
  | EmptyString => Some ([], false)
  | String c p' =>
      if Ascii.eqb c "$"%char && String.eqb p' EmptyString then Some ([], true)
      else
        a ← atomOf c;
        match p' with
        | String d rest =>
            if Ascii.eqb d "*"%char
            then '(ps, e) ← parseBody rest; Some (Piece a true :: ps, e)
            else '(ps, e) ← parseBody p'; Some (Piece a false :: ps, e)
        | EmptyString => Some ([Piece a false], false)
        end
  end.

Definition parse (p : string) : option regex :=
  match p with
  | String c rest =>
      if Ascii.eqb c "^"%char
      then '(ps, e) ← parseBody rest; Some (Regex true ps e)
      else '(ps, e) ← parseBody p; Some (Regex false ps e)
  | EmptyString => Some (Regex false [] false)
  end.

(** [compile p]: the matcher of pattern [p], when [p] is in the fragment. *)
Definition compile (p : string) : option (string -> bool) :=
  MatchString <$> parse p.

End GoRegexp.


(* ===================================================================== *)
(** * Go's [time] package: instants and RFC 3339 timestamps               *)
(* ===================================================================== *)

(** A [time.Time] is an instant, counted here in nanoseconds since the Unix
    epoch; [Before] compares instants. The janitor's functions take the
    parser [time.Parse(time.RFC3339, _)] as a parameter. [parseRFC3339]
    below implements it for the timestamps the Compute API produces,
    [YYYY-MM-DDTHH:MM:SS], an optional fraction of one to nine digits, and
    [Z] or a numeric offset [+hh:mm] / [-hh:mm], and rejects everything
    else. *)
Module GoTime.

Definition Time := Z.

Definition Before (t u : Time) : bool := (t <? u)%Z.

Definition digit (c : ascii) : option Z :=
  let n := Z.of_nat (Ascii.nat_of_ascii c) in
  if ((48 <=? n) && (n <=? 57))%Z then Some (n - 48)%Z else None.

(** Reads exactly [n] decimal digits. *)
Fixpoint digits (n : nat) (acc : Z) (s : string) : option (Z * string) :=
  match n with
  | O => Some (acc, s)
  | S n' =>
      match s with
      | EmptyString => None
      | String c s' => d ← digit c; digits n' (10 * acc + d)%Z s'
      end
  end.

(** Reads the literal character [c]. *)
Definition lit (c : ascii) (s : string) : option string :=
  match s with
  | String d s' => if Ascii.eqb c d then Some s' else None
  | EmptyString => None
  end.

Definition isLeap (y : Z) : bool :=
  ((y mod 4 =? 0) && (negb (y mod 100 =? 0) || (y mod 400 =? 0)))%Z.

Definition daysIn (y m : Z) : Z :=
  if (m =? 2)%Z then (if isLeap y then 29 else 28)%Z
  else if ((m =? 4) || (m =? 6) || (m =? 9) || (m =? 11))%Z then 30%Z
  else 31%Z.

(** Days from 1970-01-01 to the civil date [y]-[m]-[d]. *)
Definition daysFromCivil (y m d : Z) : Z :=
  let y' := (if m <=? 2 then y - 1 else y)%Z in
  let era := (y' / 400)%Z in
  let yoe := (y' - era * 400)%Z in
  let mp := (if m <=? 2 then m + 9 else m - 3)%Z in
  let doy := ((153 * mp + 2) / 5 + d - 1)%Z in
  let doe := (yoe * 365 + yoe / 4 - yoe / 100 + doy)%Z in
  (era * 146097 + doe - 719468)%Z.

(** The fraction of a second: the digits after the point, scaled to
    nanoseconds; [left] digits may still be read. *)
Fixpoint fraction (left : nat) (acc : Z) (s : string) : Z * string :=
  match left with
  | O => (acc, s)
  | S left' =>
      match s with
      | String c s' =>
          match digit c with
          | Some d => fraction left' (acc + d * 10 ^ Z.of_nat left')%Z s'
          | None => (acc, s)
          end
      | EmptyString => (acc, s)
      end
  end.

(** The zone: [Z], or a sign and [hh:mm]; the result is the offset from UTC
    in seconds. Nothing may follow. *)
Definition zone (s : string) : option Z :=
  match s with
  | String c rest =>
      if Ascii.eqb c "Z"%char then (if String.eqb rest EmptyString then Some 0%Z else None)
      else
        sign ← (if Ascii.eqb c "+"%char then Some 1%Z
                else if Ascii.eqb c "-"%char then Some (-1)%Z else None);
        '(hh, rest) ← digits 2 0 rest;
        rest ← lit ":"%char rest;
        '(mm, rest) ← digits 2 0 rest;
        if String.eqb rest EmptyString && (hh <? 24)%Z && (mm <? 60)%Z
        then Some (sign * (hh * 3600 + mm * 60))%Z else None
  | EmptyString => None
  end.

Definition parseRFC3339 (s : string) : option Time :=
  '(y, s) ← digits 4 0 s;
  s ← lit "-"%char s;
  '(m, s) ← digits 2 0 s;
  s ← lit "-"%char s;
  '(d, s) ← digits 2 0 s;
  s ← lit "T"%char s;
  '(hh, s) ← digits 2 0 s;
  s ← lit ":"%char s;
  '(mi, s) ← digits 2 0 s;
  s ← lit ":"%char s;
  '(ss, s) ← digits 2 0 s;
  '(ns, s) ← (match s with
              | String c s' =>
                  if Ascii.eqb c "."%char
                  then (let '(ns, s'') := fraction 9 0 s' in
                        if String.eqb s'' s' then None else Some (ns, s''))
                  else Some (0%Z, s)
              | EmptyString => Some (0%Z, s)
              end);
  off ← zone s;
  if ((1 <=? m) && (m <=? 12) && (1 <=? d) && (d <=? daysIn y m)
      && (hh <? 24) && (mi <? 60) && (ss <? 60))%Z
  then Some (((daysFromCivil y m d * 86400 + hh * 3600 + mi * 60 + ss - off)
              * 1000000000 + ns)%Z)
  else None.

End GoTime.

(* ===================================================================== *)
(** * Effects: the log, errors, and the ways a Go process stops           *)
(* ===================================================================== *)

Module Effects.

(** A Go [error] value, as the janitor builds and receives them. *)
Inductive error :=
| ParseError (value : string)
    (** what [time.Parse] returns for a [value] it cannot read *)
| ApiError (msg : string)
    (** an error returned by a call of the Compute API *)
| Errorf (format : string) (cause : error).
    (** [fmt.Errorf(format, cause)] *)

(** The pair [(value, error)] a Go function returns: the value with a nil
    error, or the error with a nil value. *)
Inductive goresult (A : Type) :=
| Ok (a : A)
| Err (e : error).
Arguments Ok {A} a.
Arguments Err {A} e.

(** An argument of a formatting call. *)
Inductive arg :=
| AStr (s : string)
| ATime (t : GoTime.Time)
| AInt (n : Z)
| AErr (e : error).

(** What a goroutine does to the world outside itself. *)
Inductive event :=
| Printf (format : string) (args : list arg)
    (** [log.Printf] *)
| Fatalf (format : string) (args : list arg)
    (** [log.Fatalf]: the line is written, then the process exits *)
| CallParallel (fn : string) (workers : Z) (names : list string)
    (** the deletion engine is entered: [delete.ParallelImages] or
        [delete.ParallelInstances], with the names of the resources handed
        over *)
| WaitGroupDone
    (** [wg.Done()] *)
| Logrus (level msg : string) (fields : list (string * arg)).
    (** a line of the logrus logger of tools/janitor, e.g.
        [log.WithFields(fields).Info(msg)]; level [Fatal] exits *)

(** How a computation ends. [Exits] is [os.Exit(1)] reached through
    [log.Fatalf]; [Panics] is a run-time panic, which nothing in the code
    recovers from: either way the whole process stops. *)
Inductive outcome (A : Type) :=
| Returns (a : A)
| Exits
| Panics.
Arguments Returns {A} a.
Arguments Exits {A}.
Arguments Panics {A}.

(** A computation: the events it produced, in order, and how it ended. *)
Definition Proc (A : Type) : Type := list event * outcome A.

Definition ret {A} (a : A) : Proc A := ([], Returns a).

Definition bind {A B} (m : Proc A) (f : A -> Proc B) : Proc B :=
  match m with
  | (ev, Returns a) => let (ev2, o) := f a in ((ev ++ ev2)%list, o)
  | (ev, Exits) => (ev, Exits)
  | (ev, Panics) => (ev, Panics)
  end.

Definition printf (format : string) (args : list arg) : Proc unit :=
  ([Printf format args], Returns tt).

Definition fatalf {A} (format : string) (args : list arg) : Proc A :=
  ([Fatalf format args], Exits).

Definition panic {A} : Proc A := ([], Panics).

Definition logInfo (msg : string) (fields : list (string * arg)) : Proc unit :=
  ([Logrus "info" msg fields], Returns tt).

Definition logDebug (msg : string) (fields : list (string * arg)) : Proc unit :=
  ([Logrus "debug" msg fields], Returns tt).

Definition logFatal {A} (msg : string) (fields : list (string * arg)) : Proc A :=
  ([Logrus "fatal" msg fields], Exits).

Definition emit (e : event) : Proc unit := ([e], Returns tt).

(** A value that panics when absent (a slice bound out of range, a
    pattern that does not compile, a nil pointer). *)
Definition orPanic {A} (o : option A) : Proc A :=
  match o with
  | Some a => ret a
  | None => panic
  end.

Definition events {A} (m : Proc A) : list event := fst m.
Definition result {A} (m : Proc A) : outcome A := snd m.

(** [for _, x := range l { s = body x s }] *)
Fixpoint forEach {A S} (body : A -> S -> Proc S) (l : list A) (s : S) : Proc S :=
  match l with
  | [] => ret s
  | x :: l' => bind (body x s) (forEach body l')
  end.

(** The double quote, for format strings that contain one. *)
Definition dq : string := String (Ascii.ascii_of_nat 34) EmptyString.

End Effects.

Import Effects.

Declare Scope proc_scope.
Delimit Scope proc_scope with proc.
Notation "'let*' x ':=' m 'in' k" := (bind m (fun x => k))
  (at level 10, x pattern, m at level 100, k at level 200,
   format "'[v' 'let*'  x  ':='  m  'in' '/' k ']'") : proc_scope.
Notation "m '>>' k" := (bind m (fun _ => k))
  (at level 100, k at level 200, right associativity) : proc_scope.

(* ===================================================================== *)
(** * The Compute API, as the janitor sees it                             *)
(* ===================================================================== *)

Module Compute.

(** The fields of [compute.Image] and [compute.Instance] the janitor reads.
    An image has no zone ([Zone] is empty). *)
Record Resource := {
  Name : string;
  CreationTimestamp : string;
  Zone : string
}.

#[global] Instance Resource_eq_dec : EqDecision Resource.
Proof. solve_decision. Defined.

(** The answers of a paginated listing call: [Do()] fails, or gives a page
    of items whose [NextPageToken] is empty ([LastPage]), or a page whose
    token leads to the answer of the next call ([MorePages]). *)
Inductive Listing :=
| ListFails (err : error)
| LastPage (Items : list Resource)
| MorePages (Items : list Resource) (next : Listing).

(** [compute.Operation], the handle of an asynchronous deletion. The
    fields [OpZone] and [OpRegion] are URLs, empty when the operation is not
    zonal or regional. *)
Record Operation := {
  OpName : string;
  OpZone : string;
  OpRegion : string;
  Status : string;
  TargetLink : string;
  StartTime : string
}.

End Compute.

Import Compute.

(* ===================================================================== *)
(** * Package [utils] of tools/resource-janitor (with blacklist)          *)
(* ===================================================================== *)

(** The version of [pkg/utils/utils.go] that takes a blacklist and the
    [deleteSingletons] switch; it is the one [cmd/janitor/main.go] calls.
    The functions for images and for instances differ only in the nouns of
    their log lines, so each pair is one definition over a [kind]. *)
Module Utils.

Inductive kind := KImage | KInstance.

Definition noun (k : kind) : string :=
  match k with KImage => "image" | KInstance => "instance" end.

Definition Noun (k : kind) : string :=
  match k with KImage => "Image" | KInstance => "Instance" end.

Definition nouns (k : kind) : string :=
  match k with KImage => "images" | KInstance => "instances" end.

(** [getResourceName]: the name without its last delimiter-separated
    piece. The slice [aSplit[:len(aSplit)-1]] panics when [aSplit] is empty,
    which [strings.Split] returns for the empty name and the empty
    delimiter. *)
Definition getResourceName (a delimiter : string) : option string :=
  aSplit ← sliceInit (Split a delimiter);
  Some (Join aSplit delimiter).

Section WithRuntime.

(** [regexp.Compile]: the matcher of a pattern, or [None] for a pattern
    that does not compile (on which [regexp.MustCompile] panics). *)
Variable Compile : string -> option (string -> bool).

(** [time.Parse(time.RFC3339, _)]. *)
Variable Parse : string -> option GoTime.Time.

Definition MustCompile (pattern : string) : Proc (string -> bool) :=
  orPanic (Compile pattern).

Definition parseCreationTimestamp (s : string) : goresult GoTime.Time :=
  match Parse s with
  | Some t => Ok t
  | None => Err (ParseError s)
  end.

Local Open Scope proc_scope.

(** The inner loop of the listing: [image] against every pattern of the
    blacklist, appending to [allImages]. *)
Definition blacklistLoop (k : kind) (image : Resource) (blacklist : list string)
    (allImages : list Resource) : Proc (list Resource) :=
  forEach (fun blacklistPattern allImages =>
             let* re := MustCompile blacklistPattern in
             if negb (re (Name image))
             then ret (allImages ++ [image])%list
             else
               printf ("utils.go: ignoring blacklisted " ++ noun k ++ ": %s")
                      [AStr (Name image)] >>
               ret allImages)
          blacklist allImages.

(** [for _, image := range imageList.Items { ... }] *)
Definition pageLoop (k : kind) (Items : list Resource) (blacklist : list string)
    (allImages : list Resource) : Proc (list Resource) :=
  forEach (fun image allImages => blacklistLoop k image blacklist allImages)
          Items allImages.

(** The listing loop of [GetOldAndNonSingletonImages]: one iteration per
    page, until a call fails or a page has no next-page token. *)
Fixpoint listLoop (k : kind) (l : Listing) (blacklist : list string)
    (allImages : list Resource) : Proc (goresult (list Resource)) :=
  match l with
  | ListFails err =>
      ret (Err (Errorf ("utils.go: Error getting " ++ nouns k ++ ": %s") err))
  | LastPage Items =>
      let* allImages := pageLoop k Items blacklist allImages in
      ret (Ok allImages)
  | MorePages Items next =>
      let* allImages := pageLoop k Items blacklist allImages in
      listLoop k next blacklist allImages
  end.

(** The body of the loop of [getNonSingletonImages]; the state is the map
    [nonSingletonsMap] and the slice [nonSingletons]. The source computes
    the key in the test and again in the assignment; it is bound once
    here. *)
Definition nonSingletonStep (k : kind) (nameDelimiter : string) (image : Resource)
    (st : gmap string string * list Resource)
    : Proc (gmap string string * list Resource) :=
  let '(nonSingletonsMap, nonSingletons) := st in
  let* key := orPanic (getResourceName (Name image) nameDelimiter) in
  match nonSingletonsMap !! key with
  | None =>
      printf ("utils.go: " ++ noun k ++ " excluded from deletion: name=%s creationTimestamp=%s reason="
              ++ dq ++ noun k ++ " is newest of its kind" ++ dq)
             [AStr (Name image); AStr (CreationTimestamp image)] >>
      ret (<[key := "yes"]> nonSingletonsMap, nonSingletons)
  | Some _ =>
      printf ("utils.go: " ++ noun k ++ " eligible for deletion: name=%s creationTimestamp=%s reason="
              ++ dq ++ noun k ++ " is not a singleton" ++ dq)
             [AStr (Name image); AStr (CreationTimestamp image)] >>
      ret (nonSingletonsMap, (nonSingletons ++ [image])%list)
  end.

(** [for k, v := range nonSingletonsMap]: Go leaves the order of this
    iteration open; the model takes the keys in the order of the map's
    list of entries. Only log lines depend on it. *)
Definition singletonReport (k : kind) (nonSingletonsMap : gmap string string) : Proc unit :=
  forEach (fun (kv : string * string) (_ : unit) =>
             if String.eqb (snd kv) "yes"
             then printf (Noun k ++ " of naming scheme %s is a singleton") [AStr (fst kv)]
             else ret tt)
          (map_to_list nonSingletonsMap) tt.

Definition getNonSingletons (k : kind) (imageList : list Resource) (nameDelimiter : string)
    : Proc (list Resource) :=
  let* st := forEach (nonSingletonStep k nameDelimiter) imageList (∅, []) in
  singletonReport k (fst st) >>
  ret (snd st).

Definition getNonSingletonImages := getNonSingletons KImage.
Definition getNonSingletonInstances := getNonSingletons KInstance.

(** The loop of [getOldImages], which returns from inside the loop at the
    first timestamp that does not parse. *)
Fixpoint getOldLoop (k : kind) (i : list Resource) (t : GoTime.Time)
    (oldImages : list Resource) : Proc (goresult (list Resource)) :=
  match i with
  | [] => ret (Ok oldImages)
  | image :: i' =>
      match parseCreationTimestamp (CreationTimestamp image) with
      | Err err => ret (Err (Errorf "utils.go: Failed to parse timestamp: %v" err))
      | Ok stamp =>
          if GoTime.Before stamp t
          then
            printf ("utils.go: selected " ++ noun k ++ " for deletion: name=%s creationTimestamp=%s reason="
                    ++ dq ++ "older than %s" ++ dq)
                   [AStr (Name image); AStr (CreationTimestamp image); ATime t] >>
            getOldLoop k i' t (oldImages ++ [image])%list
          else
            printf ("utils.go: excluded " ++ noun k ++ " from deletion: name=%s creationTimestamp=%s reason="
                    ++ dq ++ "newer than %s" ++ dq)
                   [AStr (Name image); AStr (CreationTimestamp image); ATime t] >>
            getOldLoop k i' t oldImages
      end
  end.

Definition getOld (k : kind) (i : list Resource) (t : GoTime.Time)
    : Proc (goresult (list Resource)) :=
  getOldLoop k i t [].

Definition getOldImages := getOld KImage.
Definition getOldInstances := getOld KInstance.

(** [if !deleteSingletons { ... } else { ... }]: the value given to
    [nonSingletonImages], the candidates of the age stage. *)
Definition nonSingletonStage (k : kind) (allImages : list Resource)
    (deleteSingletons : bool) (nameDelimiter : string) : Proc (list Resource) :=
  if negb deleteSingletons
  then getNonSingletons k allImages nameDelimiter
  else ret allImages.

(** What follows the listing in [GetOldAndNonSingletonImages] and in
    [GetOldAndNonSingletonInstances]: the singleton stage, unless it is
    switched off, then the age stage. *)
Definition selectFrom (k : kind) (allImages : list Resource) (t : GoTime.Time)
    (deleteSingletons : bool) (nameDelimiter : string)
    : Proc (goresult (list Resource)) :=
  let* nonSingletonImages := nonSingletonStage k allImages deleteSingletons nameDelimiter in
  let* r := getOld k nonSingletonImages t in
  match r with
  | Err err => ret (Err (Errorf ("utils.go: Unable to get old " ++ nouns k ++ ": %s") err))
  | Ok oldAndNonSingletonImages => ret (Ok oldAndNonSingletonImages)
  end.

(** [imageList] stands for the answers of
    [computeService.Images.List(project).OrderBy("creationTimestamp desc")]. *)
Definition GetOldAndNonSingletonImages (imageList : Listing) (t : GoTime.Time)
    (deleteSingletons : bool) (blacklist : list string) (nameDelimiter : string)
    : Proc (goresult (list Resource)) :=
  let* r := listLoop KImage imageList blacklist [] in
  match r with
  | Err err => ret (Err err)
  | Ok allImages => selectFrom KImage allImages t deleteSingletons nameDelimiter
  end.

(** The loop over the zones of [GetOldAndNonSingletonInstances]: the
    listing loop once per zone, on the same [allInstances]. *)
Fixpoint zonesLoop (zones : list Listing) (blacklist : list string)
    (allInstances : list Resource) : Proc (goresult (list Resource)) :=
  match zones with
  | [] => ret (Ok allInstances)
  | instanceList :: zones' =>
      let* r := listLoop KInstance instanceList blacklist allInstances in
      match r with
      | Err err => ret (Err err)
      | Ok allInstances => zonesLoop zones' blacklist allInstances
      end
  end.

(** [zones] stands for the answer of [computeService.Zones.List(project)]:
    an error, or for each zone the answers of its instance listing. *)
Definition GetOldAndNonSingletonInstances (zones : goresult (list Listing)) (t : GoTime.Time)
    (deleteSingletons : bool) (blacklist : list string) (nameDelimiter : string)
    : Proc (goresult (list Resource)) :=
  match zones with
  | Err err => fatalf "utils.go: Unable to get list of zones: %s" [AErr err]
  | Ok zones =>
      let* r := zonesLoop zones blacklist [] in
      match r with
      | Err err => ret (Err err)
      | Ok allInstances => selectFrom KInstance allInstances t deleteSingletons nameDelimiter
      end
  end.

End WithRuntime.

End Utils.

(* ===================================================================== *)
(** * Package [utils] of tools/resource-janitor, first version            *)
(* ===================================================================== *)

(** [tools/resource-janitor/pkg/utils/utils.go] as it stands under that
    name: no blacklist, and singletons found by comparing each resource
    with the one listed before it. *)
Module UtilsV1.

(** [resourceNamesMatch] cuts both names at the literal ["-"]; its
    [delimiter] parameter is not used. *)
Definition resourceNamesMatch (a b delimiter : string) : option bool :=
  aSplit ← sliceInit (Split a "-");
  let aName := Join aSplit "-" in
  bSplit ← sliceInit (Split b "-");
  let bName := Join bSplit "-" in
  Some (String.eqb aName bName).

(** [&compute.Image{}] *)
Definition emptyImage : Resource :=
  {| Name := ""; CreationTimestamp := ""; Zone := "" |}.

Local Open Scope proc_scope.

Definition excluded (r : Resource) (reason : string) : Proc unit :=
  printf ("utils.go: excluded instance from deletion: name=%s creationTimestamp=%s reason="
          ++ dq ++ reason ++ dq)
         [AStr (Name r); AStr (CreationTimestamp r)].

(** The iterations [i >= 1] of the loop of [getNonSingletonImages]:
    [prev] is [imageList[i-1]], the head of [rest] is [imageList[i]], and
    [i] is the last index when nothing follows it. *)
Fixpoint adjacentLoop (nameDelimiter : string) (prev : Resource) (rest : list Resource)
    (singleton : Resource) (nonSingletons : list Resource) : Proc (list Resource) :=
  match rest with
  | [] => ret nonSingletons
  | cur :: rest' =>
      let isLast := match rest' with [] => true | _ => false end in
      let* same := orPanic (resourceNamesMatch (Name prev) (Name cur) nameDelimiter) in
      if same then
        (if isLast then excluded cur "instance is most recent of its type" else ret tt) >>
        adjacentLoop nameDelimiter cur rest' emptyImage (nonSingletons ++ [prev])%list
      else if negb (String.eqb (Name singleton) "") then
        excluded cur "instance is singleton" >>
        adjacentLoop nameDelimiter cur rest' cur nonSingletons
      else
        excluded prev "instance is most recent of its type" >>
        (if isLast then excluded cur "instance is singleton" else ret tt) >>
        adjacentLoop nameDelimiter cur rest' cur nonSingletons
  end.

Definition getNonSingletonImages (imageList : list Resource) (nameDelimiter : string)
    : Proc (list Resource) :=
  match imageList with
  | [] => ret []
  | first :: rest => adjacentLoop nameDelimiter first rest first []
  end.

(** [getNonSingletonInstances] is the same loop over instances. *)
Definition getNonSingletonInstances := getNonSingletonImages.

End UtilsV1.

(* ===================================================================== *)
(** * tools/janitor: packages [utils], [images] and [instances]           *)
(* ===================================================================== *)

(** The packages [images] and [instances] hold the same methods on their
    own [JanitorMetadata]; apart from log fields they differ in one
    expression of [Expired]. Each method is one definition over the
    package, and a method with a pointer receiver maps the metadata to the
    metadata it leaves behind. *)
Module Janitor.

Inductive package := PImages | PInstances.

(** [utils.GetResourceBasename] *)
Definition GetResourceBasename (a delimiter : string) : option string :=
  aSplit ← sliceInit (Split a delimiter);
  Some (Join aSplit delimiter).

(** [utils.GetResourceNameFromURL] *)
Definition GetResourceNameFromURL (z : string) : option string :=
  sliceLast (Split z "/").

(** [JanitorMetadata], without the API client. *)
Record JanitorMetadata := {
  Project : string;
  Items : list Resource;
  ExpiredBefore : GoTime.Time;
  DeleteSingletons : bool;
  BlacklistPatterns : list string;
  NameDelimiter : string
}.

Definition setItems (i : JanitorMetadata) (items : list Resource) : JanitorMetadata :=
  {| Project := Project i; Items := items; ExpiredBefore := ExpiredBefore i;
     DeleteSingletons := DeleteSingletons i;
     BlacklistPatterns := BlacklistPatterns i; NameDelimiter := NameDelimiter i |}.

(** [NewJanitorMetadata(s, p, e, d, b, n)]: the literal sets neither
    [Items] nor [BlacklistPatterns], which stay nil; [b] is not used. *)
Definition NewJanitorMetadata (p : string) (e : GoTime.Time) (d : bool)
    (b : list string) (n : string) : JanitorMetadata :=
  {| Project := p; Items := []; ExpiredBefore := e; DeleteSingletons := d;
     BlacklistPatterns := []; NameDelimiter := n |}.

Section WithRuntime.

Variable Compile : string -> option (string -> bool).
Variable Parse : string -> option GoTime.Time.

Local Open Scope proc_scope.

Definition blacklistedFields (pk : package) (name p : string) : list (string * arg) :=
  match pk with
  | PImages => [("image", AStr name); ("blacklist_pattern", AStr p)]
  | PInstances => [("instance", AStr name); ("blacklist_pattern", AStr p);
                   ("status", AStr "blacklisted")]
  end.

Definition blacklistedMsg (pk : package) : string :=
  match pk with
  | PImages => "Image is blacklisted"
  | PInstances => "Instance is blacklisted"
  end.

(** [Blacklist] *)
Definition Blacklist (pk : package) (i : JanitorMetadata) : Proc JanitorMetadata :=
  if Nat.eqb (List.length (BlacklistPatterns i)) 0 then
    logDebug "No blacklist patterns" [] >>
    ret i
  else
    let* bi :=
      forEach (fun im bi =>
                 forEach (fun p bi =>
                            let* r := orPanic (Compile p) in
                            if negb (r (Name im))
                            then ret (bi ++ [im])%list
                            else
                              logInfo (blacklistedMsg pk) (blacklistedFields pk (Name im) p) >>
                              ret bi)
                         (BlacklistPatterns i) bi)
              (Items i) [] in
    ret (setItems i bi).

(** The value type of the map [nsm] of [Singletons]. *)
Record nsmEntry := { entryName : string; Singleton : bool }.

Definition singletonFields (pk : package) (im : Resource) (first : bool)
    : list (string * arg) :=
  match pk, first with
  | PImages, true =>
      [("name", AStr (Name im)); ("creation_timestamp", AStr (CreationTimestamp im));
       ("reason", AStr "latest_version"); ("delete", AStr "ineligible")]
  | PImages, false =>
      [("name", AStr (Name im)); ("creation_timestamp", AStr (CreationTimestamp im));
       ("reason", AStr "old_version"); ("delete", AStr "eligible")]
  | PInstances, true =>
      [("name", AStr (Name im)); ("creation_timestamp", AStr (CreationTimestamp im));
       ("status", AStr "latest"); ("delete", AStr "ineligible")]
  | PInstances, false =>
      [("name", AStr (Name im)); ("creation_timestamp", AStr (CreationTimestamp im));
       ("status", AStr "superseded"); ("delete", AStr "eligible")]
  end.

Definition Thing (pk : package) : string :=
  match pk with PImages => "Image" | PInstances => "Instance" end.

Definition singletonsStep (pk : package) (delimiter : string) (im : Resource)
    (st : gmap string nsmEntry * list Resource) : Proc (gmap string nsmEntry * list Resource) :=
  let '(nsm, il) := st in
  let* key := orPanic (GetResourceBasename (Name im) delimiter) in
  match nsm !! key with
  | None =>
      logInfo (Thing pk ++ " excluded from deletion") (singletonFields pk im true) >>
      ret (<[key := {| entryName := Name im; Singleton := true |}]> nsm, il)
  | Some _ =>
      logInfo (Thing pk ++ " eligible for deletion") (singletonFields pk im false) >>
      ret (<[key := {| entryName := Name im; Singleton := false |}]> nsm, (il ++ [im])%list)
  end.

(** [Singletons]. The closing loop over [nsm] only logs; as in [Utils] the
    entries are taken in the order of the map's list of entries. *)
Definition Singletons (pk : package) (i : JanitorMetadata) : Proc JanitorMetadata :=
  let* st := forEach (singletonsStep pk (NameDelimiter i)) (Items i) (∅, []) in
  forEach (fun (kv : string * nsmEntry) (_ : unit) =>
             if Singleton (snd kv)
             then logInfo (Thing pk ++ " is a singleton") [("name", AStr (entryName (snd kv)))]
             else ret tt)
          (map_to_list (fst st)) tt >>
  ret (setItems i (snd st)).

Definition expiredFields (pk : package) (i : JanitorMetadata) (im : Resource) (older : bool)
    : list (string * arg) :=
  match pk with
  | PImages =>
      [("image", AStr (Name im)); ("creation_timestamp", AStr (CreationTimestamp im));
       ("expired_by", ATime (ExpiredBefore i))]
  | PInstances =>
      [("image", AStr (Name im)); ("creation_timestamp", AStr (CreationTimestamp im));
       ("expired_by", ATime (ExpiredBefore i));
       ("status", AStr (if older then "expired" else "fresh"))]
  end.

(** The comparison of [Expired]: package [images] has
    [stamp.Before(stamp)], package [instances] has
    [stamp.Before(i.ExpiredBefore)]. *)
Definition expiredTest (pk : package) (i : JanitorMetadata) (stamp : GoTime.Time) : bool :=
  match pk with
  | PImages => GoTime.Before stamp stamp
  | PInstances => GoTime.Before stamp (ExpiredBefore i)
  end.

(** The loop of [Expired] on its local slice ([iml], [inl]). *)
Definition expiredLoop (pk : package) (i : JanitorMetadata) : Proc (list Resource) :=
  forEach (fun im iml =>
             match Parse (CreationTimestamp im) with
             | None =>
                 logFatal "Failed to parse timestamp"
                   [("reason", AErr (ParseError (CreationTimestamp im)));
                    ("creation_timestamp", AStr (CreationTimestamp im));
                    ("image", AStr (Name im))]
             | Some stamp =>
                 if expiredTest pk i stamp
                 then
                   logInfo (Thing pk ++ " is older than expired_by date")
                           (expiredFields pk i im true) >>
                   ret iml
                 else
                   logInfo (Thing pk ++ " is newer than expired_by date")
                           (expiredFields pk i im false) >>
                   ret (iml ++ [im])%list
             end)
          (Items i) [].

(** [Expired]: the method ends with the loop; the local slice is not
    stored, so the metadata is the one it started from. *)
Definition Expired (pk : package) (i : JanitorMetadata) : Proc JanitorMetadata :=
  let* _ := expiredLoop pk i in
  ret i.

End WithRuntime.

End Janitor.

(* ===================================================================== *)
(** * [cmd/janitor/main.go] of tools/resource-janitor                     *)
(* ===================================================================== *)

Module Main.

Section WithRuntime.

Variable Compile : string -> option (string -> bool).
Variable Parse : string -> option GoTime.Time.

(** What [delete.ParallelImages] and [delete.ParallelInstances] do once
    entered, seen from the calling goroutine: their events and either the
    error they return ([None] is nil) or the end of the process. The pool
    itself is the transition system of [Delete]. *)
Variable ParallelImages : Z -> list Resource -> Proc (option error).
Variable ParallelInstances : Z -> list Resource -> Proc (option error).

Local Open Scope proc_scope.

(** [if notDryRun { ... }], the same block in both functions. *)
Definition deletion (k : Utils.kind) (engine : Z -> list Resource -> Proc (option error))
    (fn : string) (workers : Z) (resources : list Resource) : Proc unit :=
  printf ("main.go: issuing parallel " ++
          match k with Utils.KImage => "image" | Utils.KInstance => "instances" end
          ++ " delete.") [] >>
  emit (CallParallel fn workers (map Name resources)) >>
  let* err := engine workers resources in
  match err with
  | Some err => fatalf "main.go: deletion exited with an error: %s" [AErr err]
  | None => printf ("main.go: successfully deleted old " ++ Utils.nouns k) []
  end.

Definition afterSelection (k : Utils.kind) (engine : Z -> list Resource -> Proc (option error))
    (fn : string) (tooOld : GoTime.Time) (workers : Z) (notDryRun : bool)
    (selected : goresult (list Resource)) : Proc unit :=
  match selected with
  | Err err =>
      fatalf ("main.go: unable to get list of " ++ Utils.nouns k ++ " older than %s: %s")
             [ATime tooOld; AErr err]
  | Ok resources =>
      (if Nat.eqb (List.length resources) 0
       then printf ("main.go: no " ++ Utils.nouns k ++ " to delete") []
       else ret tt) >>
      (if notDryRun then deletion k engine fn workers resources else ret tt) >>
      emit WaitGroupDone
  end.

Definition deleteImages (imageList : Listing) (tooOld : GoTime.Time) (nameDelimiter : string)
    (workers : Z) (notDryRun deleteSingletons : bool) (blacklist : list string) : Proc unit :=
  let* images :=
    Utils.GetOldAndNonSingletonImages Compile Parse imageList tooOld deleteSingletons
      blacklist nameDelimiter in
  afterSelection Utils.KImage ParallelImages "delete.ParallelImages" tooOld workers
    notDryRun images.

Definition deleteInstances (zones : goresult (list Listing)) (tooOld : GoTime.Time)
    (nameDelimiter : string) (workers : Z) (notDryRun deleteSingletons : bool)
    (blacklist : list string) : Proc unit :=
  let* instances :=
    Utils.GetOldAndNonSingletonInstances Compile Parse zones tooOld deleteSingletons
      blacklist nameDelimiter in
  afterSelection Utils.KInstance ParallelInstances "delete.ParallelInstances" tooOld workers
    notDryRun instances.

End WithRuntime.

End Main.

(* ===================================================================== *)
(** * Package [delete]: the worker pool                                   *)
(* ===================================================================== *)

(** [ParallelImages], [ParallelInstances] (tools/resource-janitor) and
    [Parallel] (tools/janitor) start goroutines that share a buffered
    channel and a wait group. The pool is a transition system: a state
    holds the program point of the calling goroutine and of every worker,
    the content of the channel and the log; a label names the goroutine
    that moves and, where the move is a call of the Compute API, the answer
    it receives. The answers are not constrained: every sequence of labels
    is a schedule of the goroutines against some behaviour of the API. *)
Module Delete.

(** The four pools of the sources: [ParallelImages] and
    [ParallelInstances] of tools/resource-janitor, and [Parallel] of
    tools/janitor fed by [images.JanitorMetadata.Delete] or by
    [instances.JanitorMetadata.Delete]. They differ in log lines only. *)
Inductive variant := RJImages | RJInstances | JImages | JInstances.

Definition isJanitor (v : variant) : bool :=
  match v with RJImages | RJInstances => false | JImages | JInstances => true end.

(** A prepared delete call ([computeSvc.Images.Delete(project, name)] or
    [computeSvc.Instances.Delete(project, zone, name)]), the element type
    of the channel. *)
Record call := { callProject : string; callZone : string; callName : string }.

(** The prepared status query the worker polls. *)
Inductive query :=
| ZoneOperationsGet (project zone name : string)
| RegionOperationsGet (project region name : string)
| GlobalOperationsGet (project name : string).

(** [sanitizeResourceURL] and [utils.GetResourceNameFromURL]: the last
    piece of the URL. *)
Definition sanitizeResourceURL (z : string) : option string :=
  sliceLast (Split z "/").

(** Program points of a worker goroutine ([deleteWorker]). *)
Inductive worker :=
| Receiving
    (** at [for call := range resourceDeleteCalls] *)
| Issuing (c : call)
    (** a call was received; [call.Do()] comes next *)
| Polling (c : call) (q : query)
    (** inside the inner [for]: sleep, then [queryDeleteOperation.Do()] *)
| Stopped.
    (** the range loop is over and the deferred [wg.Done()] has run *)

(** Program points of the goroutine that called the pool. *)
Inductive producer :=
| Spawning (i : nat)
    (** in [for i := 0; i < workers; i++], about to start worker [i] *)
| Sending (rest : list Resource)
    (** in the loop that sends one call per resource; on the empty list,
        about to close the channel *)
| Waiting
    (** at [wg.Wait()] *)
| Returned (err : option error).
    (** the pool has returned [err] ([None] is nil) *)

Record state := {
  main : producer;
  queue : list call;          (** the calls buffered in the channel *)
  closed : bool;              (** [close] has been called on the channel *)
  workers : list worker;      (** the goroutines started so far *)
  halted : option (outcome unit);  (** the process has stopped: [Exits] or [Panics] *)
  log : list event
}.

Inductive label :=
| Spawn
| Send
| Close
| Wait
| Receive (w : nat)
| Issue (w : nat) (answer : goresult Operation)
| Poll (w : nat) (answer : goresult Operation).

Section Pool.

Variable v : variant.
Variable project : string.
(** The argument [workers]: the capacity of the channel and the number of
    goroutines to start (with a negative value [make] panics before
    anything is started; that case is left out). *)
Variable W : nat.
(** The argument [imageList] (or [instanceList], or the [Items] of the
    metadata): the resources to delete. *)
Variable imageList : list Resource.

Definition workerId (w : nat) : string :=
  match v with
  | RJImages => "image-worker-" ++ pretty w
  | RJInstances => "delete.go: instance-worker-" ++ pretty w
  | JImages | JInstances => "instance-worker-" ++ pretty w
  end.

(** The producer's program point once worker [i - 1] is started. *)
Definition spawned (i : nat) : producer :=
  if Nat.ltb i W then Spawning i else Sending imageList.

Definition init : state :=
  {| main := spawned 0; queue := []; closed := false; workers := [];
     halted := None; log := [] |}.

Definition callFor (r : Resource) : option call :=
  match v with
  | RJImages | JImages =>
      Some {| callProject := project; callZone := ""; callName := Name r |}
  | RJInstances | JInstances =>
      z ← sanitizeResourceURL (Zone r);
      Some {| callProject := project; callZone := z; callName := Name r |}
  end.

(** The choice of the status endpoint from the operation [call.Do()]
    returned. *)
Definition queryFor (deleteOperation : Operation) : option query :=
  if negb (String.eqb (OpZone deleteOperation) "") then
    z ← sanitizeResourceURL (OpZone deleteOperation);
    Some (ZoneOperationsGet project z (OpName deleteOperation))
  else if negb (String.eqb (OpRegion deleteOperation) "") then
    r ← sanitizeResourceURL (OpRegion deleteOperation);
    Some (RegionOperationsGet project r (OpName deleteOperation))
  else Some (GlobalOperationsGet project (OpName deleteOperation)).

Definition setMain (s : state) (m : producer) (ev : list event) : state :=
  {| main := m; queue := queue s; closed := closed s; workers := workers s;
     halted := halted s; log := log s ++ ev |}.

Definition setWorker (s : state) (w : nat) (x : worker) (ev : list event) : state :=
  {| main := main s; queue := queue s; closed := closed s;
     workers := <[w := x]> (workers s); halted := halted s; log := log s ++ ev |}.

Definition halt (s : state) (how : outcome unit) (ev : list event) : state :=
  {| main := main s; queue := queue s; closed := closed s; workers := workers s;
     halted := Some how; log := log s ++ ev |}.

(** ** Log lines of the pool *)

Definition startLine (i : nat) : list event :=
  match v with
  | RJImages => [Printf "delete.go: image-worker-%d: starting" [AInt (Z.of_nat i)]]
  | RJInstances => [Printf "delete.go: instance-worker-%d: Starting" [AInt (Z.of_nat i)]]
  | JImages | JInstances =>
      [Logrus "info" "Starting delete worker" [("worker", AStr (workerId i))]]
  end.

Definition sendLine (c : call) : list event :=
  match v with
  | RJImages => []
  | RJInstances =>
      [Printf "delete.go: Deleting instance: project=%s zone=%s name=%s"
              [AStr project; AStr (callZone c); AStr (callName c)]]
  | JImages =>
      [Logrus "debug" "Generating deletion call for image"
              [("name", AStr (callName c)); ("project", AStr project)]]
  | JInstances =>
      [Logrus "debug" "Generating deletion call for instance"
              [("name", AStr (callName c)); ("project", AStr project);
               ("zone", AStr (callZone c))]]
  end.

Definition stopLine (w : nat) : list event :=
  if isJanitor v
  then [Logrus "info" "Stopping worker" [("worker", AStr (workerId w))]]
  else [Printf "delete.go: %s: Stopping" [AStr (workerId w)]].

(** [DeleteMetadata.Do] of tools/janitor logs before it issues the call. *)
Definition issueLine (c : call) : list event :=
  match v with
  | RJImages | RJInstances => []
  | JImages => [Logrus "info" "Issuing delete" [("image", AStr (callName c))]]
  | JInstances => [Logrus "info" "Issuing delete" [("instance", AStr (callName c))]]
  end.

Definition issueFailedLine (w : nat) (c : call) (err : error) : list event :=
  if isJanitor v
  then [Logrus "fatal" "Unable to issue delete call"
               [("worker", AStr (workerId w)); ("error", AErr err)]]
  else [Fatalf "%s: Unable to issue delete call %v: %s"
               [AStr (workerId w); AStr (callName c); AErr err]].

Definition pendingLine (w : nat) (op : Operation) : list event :=
  if isJanitor v
  then [Logrus "info" "Deleting resource"
               [("worker", AStr (workerId w)); ("operation_id", AStr (OpName op));
                ("start_time", AStr (StartTime op)); ("status", AStr (Status op));
                ("resource", AStr (TargetLink op))]]
  else [].

Definition deletedLine (w : nat) (op : Operation) : list event :=
  if isJanitor v
  then [Logrus "info" "Deleted resource"
               [("worker", AStr (workerId w)); ("resource", AStr (TargetLink op))]]
  else [Printf "delete.go: %s: Deleted resource %s" [AStr (workerId w); AStr (TargetLink op)]].

(** ** The moves *)

(** [wg.Wait()] returns when every started worker has run [wg.Done()]. *)
Definition allStopped (ws : list worker) : bool :=
  forallb (fun x => match x with Stopped => true | _ => false end) ws.

(** One move of one goroutine; [None] when the move is not possible in
    [s]: the goroutine is at another program point, it is blocked, or the
    process has stopped. *)
Definition step (s : state) (l : label) : option state :=
  match halted s with
  | Some _ => None
  | None =>
      match l, main s with
      | Spawn, Spawning i =>
          (* wg.Add(1); go deleteWorker(...) *)
          Some {| main := spawned (S i); queue := queue s; closed := closed s;
                  workers := workers s ++ [Receiving];
                  halted := None; log := log s ++ startLine i |}
      | Send, Sending (r :: rest) =>
          (* images <- call: blocks while the buffer is full; the line
             written just before the send enters the log with the send *)
          match callFor r with
          | None => Some (halt s Panics [])
          | Some c =>
              if Nat.ltb (length (queue s)) W
              then Some {| main := Sending rest; queue := queue s ++ [c];
                           closed := closed s; workers := workers s;
                           halted := None; log := log s ++ sendLine c |}
              else None
          end
      | Close, Sending [] =>
          Some {| main := Waiting; queue := queue s; closed := true;
                  workers := workers s; halted := None; log := log s |}
      | Wait, Waiting =>
          if allStopped (workers s) then Some (setMain s (Returned None) []) else None
      | Receive w, _ =>
          match workers s !! w, queue s with
          | Some Receiving, c :: q =>
              Some {| main := main s; queue := q; closed := closed s;
                      workers := <[w := Issuing c]> (workers s);
                      halted := None; log := log s |}
          | Some Receiving, [] =>
              if closed s then Some (setWorker s w Stopped (stopLine w)) else None
          | _, _ => None
          end
      | Issue w answer, _ =>
          match workers s !! w with
          | Some (Issuing c) =>
              match answer with
              | Err err => Some (halt s Exits (issueLine c ++ issueFailedLine w c err))
              | Ok deleteOperation =>
                  match queryFor deleteOperation with
                  | Some q => Some (setWorker s w (Polling c q) (issueLine c))
                  | None => Some (halt s Panics (issueLine c))
                  end
              end
          | _ => None
          end
      | Poll w answer, _ =>
          match workers s !! w with
          | Some (Polling c q) =>
              match answer with
              | Err err =>
                  (* deleteOperation is nil here, and the fatal line reads
                     deleteOperation.Name *)
                  Some (halt s Panics [])
              | Ok deleteOperation =>
                  if String.eqb (Status deleteOperation) "DONE"
                  then Some (setWorker s w Receiving (deletedLine w deleteOperation))
                  else Some (setWorker s w (Polling c q) (pendingLine w deleteOperation))
              end
          | _ => None
          end
      | _, _ => None
      end
  end.

(** A schedule: the moves taken one after the other. *)
Fixpoint run (s : state) (ls : list label) : option state :=
  match ls with
  | [] => Some s
  | l :: ls' =>
      match step s l with
      | Some s' => run s' ls'
      | None => None
      end
  end.

(** The number of operations being polled. *)
Definition isPolling (x : worker) : bool :=
  match x with Polling _ _ => true | _ => false end.

Definition polling (s : state) : nat :=
  length (List.filter isPolling (workers s)).

End Pool.

End Delete.

(* ===================================================================== *)
(** * Vocabulary of the statements                                        *)
(* ===================================================================== *)

Module Spec.

(** [m] ends normally with value [a]. *)
Definition returns {A} (m : Proc A) (a : A) : Prop := result m = Returns a.

(** [m] stops the whole process. *)
Definition stopsProcess {A} (m : Proc A) : Prop :=
  result m = Exits \/ result m = Panics.

(** The event is an entry into the deletion engine. *)
Definition isCall (e : event) : Prop :=
  match e with
  | CallParallel _ _ _ => True
  | _ => False
  end.

(** [m] does not enter the deletion engine. *)
Definition quiet {A} (m : Proc A) : Prop := Forall (fun e => ~ isCall e) (events m).

(** The naming-scheme key of a resource. *)
Definition key (delimiter : string) (r : Resource) : option string :=
  Utils.getResourceName (Name r) delimiter.

(** The naming-scheme group [k] of a sequence: its members, in order. *)
Definition group (delimiter k : string) (l : list Resource) : list Resource :=
  filter (fun r => key delimiter r = Some k) l.

(** The members of [l] listed after a resource of the same key, or whose
    key is in [seen]. *)
Fixpoint later (delimiter : string) (seen : gset string) (l : list Resource) : list Resource :=
  match l with
  | [] => []
  | x :: l' =>
      match key delimiter x with
      | Some k =>
          if decide (k ∈ seen) then x :: later delimiter seen l'
          else later delimiter ({[k]} ∪ seen) l'
      | None => []
      end
  end.

Section WithCompile.

Variable Compile : string -> option (string -> bool).

(** [name] does not match pattern [p]. *)
Definition misses (name p : string) : Prop :=
  match Compile p with
  | Some re => re name = false
  | None => False
  end.

#[global] Instance misses_dec name p : Decision (misses name p).
Proof. unfold misses. destruct (Compile p); apply _. Defined.

(** The patterns of the blacklist that [name] does not match. *)
Definition missed (name : string) (blacklist : list string) : list string :=
  filter (misses name) blacklist.

(** [name] matches at least one pattern of the blacklist. *)
Definition blacklisted (name : string) (blacklist : list string) : Prop :=
  Exists (fun p => match Compile p with
                   | Some re => re name = true
                   | None => False
                   end) blacklist.

#[global] Instance blacklisted_dec name blacklist : Decision (blacklisted name blacklist).
Proof.
  unfold blacklisted. apply Exists_dec. intros p. destruct (Compile p); apply _.
Defined.

(** The blacklist stage as the specification words it: the resources
    whose name matches no pattern, once each and in order. *)
Definition survivors (blacklist : list string) (l : list Resource) : list Resource :=
  filter (fun r => ~ blacklisted (Name r) blacklist) l.

End WithCompile.

Section WithParse.

Variable Parse : string -> option GoTime.Time.

(** The parsed creation time of a resource. *)
Definition stamp (r : Resource) : option GoTime.Time := Parse (CreationTimestamp r).

(** [a] was created at the same time as [b] or after it. *)
Definition notOlder (a b : Resource) : Prop :=
  match stamp a, stamp b with
  | Some ta, Some tb => (tb <= ta)%Z
  | _, _ => False
  end.

(** [r] is strictly older than the threshold [t]. *)
Definition olderThan (t : GoTime.Time) (r : Resource) : Prop :=
  match stamp r with
  | Some s => (s < t)%Z
  | None => False
  end.

#[global] Instance notOlder_dec a b : Decision (notOlder a b).
Proof. unfold notOlder. destruct (stamp a), (stamp b); apply _. Defined.

#[global] Instance olderThan_dec t r : Decision (olderThan t r).
Proof. unfold olderThan. destruct (stamp r); apply _. Defined.


(** The age stage as the specification words it for unparsable
    timestamps: the run goes on and gives the resources older than the
    threshold, leaving out only those whose timestamp does not parse. *)
Definition skipsUnparsable (t : GoTime.Time) (l : list Resource)
    (m : Proc (goresult (list Resource))) : Prop :=
  returns m (Ok (filter (olderThan t) l)).


End WithParse.

(** The shape of the pool for [W] workers: the channel holds at most [W]
    calls, and the number of goroutines is the loop counter while the
    producer starts them and [W] afterwards. *)
Definition shape (W : nat) (s : Delete.state) : Prop :=
  length (Delete.queue s) <= W /\
  match Delete.main s with
  | Delete.Spawning i => length (Delete.workers s) = i /\ i < W
  | _ => length (Delete.workers s) = W
  end.

(** The statuses the specification calls terminal. *)
Definition terminal (status : string) : bool :=
  String.eqb status "DONE" || String.eqb status "FAILED".

(** The poll loop as the specification words it: an answer with a terminal
    status takes worker [w] out of the loop. *)
Definition stopsAtTerminal (s' : Delete.state) (w : nat) (answer : Operation) : Prop :=
  terminal (Status answer) = true ->
  forall c q, Delete.workers s' !! w <> Some (Delete.Polling c q).

(** A failed delete call as the specification words it: the process goes
    on and worker [w] turns to its next job. *)
Definition failsPerJob (s' : Delete.state) (w : nat) : Prop :=
  Delete.halted s' = None /\ Delete.workers s' !! w = Some Delete.Receiving.

End Spec.

Import Spec.

(* ===================================================================== *)
(** * Sample resources                                                    *)
(* ===================================================================== *)

Module Sample.

Definition image (name creationTimestamp : string) : Resource :=
  {| Name := name; CreationTimestamp := creationTimestamp; Zone := "" |}.

Definition web1 := image "web-1" "2019-01-01T00:00:00Z".
Definition web2 := image "web-2" "2019-02-01T00:00:00Z".
Definition api1 := image "api-1" "2019-01-15T00:00:00Z".
Definition tmp9 := image "tmp-ephemeral-9" "2018-06-01T00:00:00Z".
Definition broken := image "db-7" "last tuesday".

(** 2019-01-20T00:00:00Z, a threshold between [web1] and [web2]. *)
Definition threshold : GoTime.Time := 1547942400000000000%Z.

(** An operation of the Compute API in the given status. *)
Definition operation (status : string) : Operation :=
  {| OpName := "operation-1"; OpZone := ""; OpRegion := ""; Status := status;
     TargetLink := "projects/p/global/images/web-1"; StartTime := "" |}.

(** A deletion engine that deletes everything at once and reports no
    error. *)
Definition engine (workers : Z) (resources : list Resource) : Proc (option error) :=
  ret None.

(** A [JanitorMetadata] of tools/janitor that expires at [threshold]. *)
Definition metadata (items : list Resource) (patterns : list string)
    : Janitor.JanitorMetadata :=
  {| Janitor.Project := "p"; Janitor.Items := items;
     Janitor.ExpiredBefore := threshold; Janitor.DeleteSingletons := false;
     Janitor.BlacklistPatterns := patterns; Janitor.NameDelimiter := "-" |}.

End Sample.

(* ===================================================================== *)
(** * tools/janitor: [Refresh]                                            *)
(* ===================================================================== *)

(** [Refresh] of the packages [images] and [instances]: the listing that
    fills [Items]. The field [Family] of [compute.Image], which [Resource]
    does not carry, and the text [err.Error()] of an error are
    parameters. *)
Module JanitorListing.
Import Janitor.

Section WithClient.

Variable Family : Resource -> string.
Variable errorText : error -> string.

Local Open Scope proc_scope.

Definition foundFields (pk : package) (project zone : string) (im : Resource)
    : list (string * arg) :=
  match pk with
  | PImages =>
      [("name", AStr (Name im)); ("creation_timestamp", AStr (CreationTimestamp im));
       ("image_family", AStr (Family im)); ("project", AStr project)]
  | PInstances =>
      [("name", AStr (Name im)); ("creation_timestamp", AStr (CreationTimestamp im));
       ("project", AStr project); ("zone", AStr zone)]
  end.

Definition foundMsg (pk : package) : string :=
  match pk with PImages => "Found image" | PInstances => "Found instance" end.

Definition listFailedMsg (pk : package) : string :=
  match pk with PImages => "Error getting images" | PInstances => "Error getting Instances" end.

(** [for _, im := range il.Items { ...; itl = append(itl, im) }] *)
Definition foundLoop (pk : package) (project zone : string) (Items : list Resource)
    (itl : list Resource) : Proc (list Resource) :=
  forEach (fun im itl =>
             logInfo (foundMsg pk) (foundFields pk project zone im) >>
             ret (itl ++ [im])%list)
          Items itl.

(** The inner [for] of [Refresh]: one iteration per page; a call that
    fails is logged at level fatal. *)
Fixpoint refreshLoop (pk : package) (project zone : string) (l : Listing)
    (itl : list Resource) : Proc (list Resource) :=
  match l with
  | ListFails err => logFatal (listFailedMsg pk) [("error", AErr err)]
  | LastPage Items => foundLoop pk project zone Items itl
  | MorePages Items next =>
      let* itl := foundLoop pk project zone Items itl in
      refreshLoop pk project zone next itl
  end.

(** [images.JanitorMetadata.Refresh]; [imageList] stands for the answers
    of the listing call. The method returns the metadata it leaves behind
    and its [error]. *)
Definition RefreshImages (imageList : Listing) (i : JanitorMetadata)
    : Proc (JanitorMetadata * option error) :=
  let* itl := refreshLoop PImages (Project i) "" imageList [] in
  ret (setItems i itl, None).

(** [for _, zone := range zones.Items]: a zone is its name and the answers
    of its instance listing. *)
Fixpoint refreshZones (project : string) (zones : list (string * Listing))
    (itl : list Resource) : Proc (list Resource) :=
  match zones with
  | [] => ret itl
  | (zone, instanceList) :: zones' =>
      let* itl := refreshLoop PInstances project zone instanceList itl in
      refreshZones project zones' itl
  end.

(** [instances.JanitorMetadata.Refresh]. The fatal line of a failed zone
    listing is written with [Fatal("Unable to list zones", err)], whose
    message is the two operands printed one after the other. *)
Definition RefreshInstances (zones : goresult (list (string * Listing)))
    (i : JanitorMetadata) : Proc (JanitorMetadata * option error) :=
  match zones with
  | Err err => logFatal ("Unable to list zones" ++ errorText err) [("error", AErr err)]
  | Ok zones =>
      let* itl := refreshZones (Project i) zones [] in
      ret (setItems i itl, None)
  end.

End WithClient.

End JanitorListing.

(* ===================================================================== *)
(** * [GetTooOldTime]                                                     *)
(* ===================================================================== *)

(** The three [utils] packages hold the same [GetTooOldTime]; the reading
    of the clock, [time.Now()], is its parameter [now]. *)
Module TooOld.

(** The value of an [int64] expression: two's complement wrap-around. *)
Definition wrap64 (z : Z) : Z :=
  ((z + 2 ^ 63) mod 2 ^ 64 - 2 ^ 63)%Z.

Definition second : Z := 1000000000%Z.

(** [t.Unix()]: the whole seconds since the epoch, rounded down. *)
Definition Unix (t : GoTime.Time) : Z := (t / second)%Z.

(** [time.Unix(sec, 0)] *)
Definition ofUnix (sec : Z) : GoTime.Time := (sec * second)%Z.

(** [GetTooOldTime(i)]: [time.Unix(time.Now().Unix()-i, 0)]. *)
Definition GetTooOldTime (now : GoTime.Time) (i : Z) : GoTime.Time :=
  ofUnix (wrap64 (Unix now - i)).

End TooOld.

(* ===================================================================== *)
(** * More vocabulary                                                     *)
(* ===================================================================== *)

Module Spec2.

(** The items of the pages of a listing up to its first failing call, in
    order. *)
Fixpoint pageItems (l : Listing) : list Resource :=
  match l with
  | ListFails _ => []
  | LastPage Items => Items
  | MorePages Items next => (Items ++ pageItems next)%list
  end.

(** The error of the first failing call of a listing, if a call fails. *)
Fixpoint failure (l : Listing) : option error :=
  match l with
  | ListFails err => Some err
  | LastPage _ => None
  | MorePages _ next => failure next
  end.

(** The same over the zones of a project, zone after zone. *)
Fixpoint zoneItems (zones : list Listing) : list Resource :=
  match zones with
  | [] => []
  | l :: zones' =>
      match failure l with
      | Some _ => pageItems l
      | None => (pageItems l ++ zoneItems zones')%list
      end
  end.

Fixpoint zoneFailure (zones : list Listing) : option error :=
  match zones with
  | [] => None
  | l :: zones' =>
      match failure l with
      | Some err => Some err
      | None => zoneFailure zones'
      end
  end.

(** [p] put in front of the first piece. *)
Definition prefixHead (p : string) (l : list string) : list string :=
  match l with
  | [] => []
  | x :: l' => (p ++ x) :: l'
  end.

(** The naming-scheme key used by the first version of [utils]: the name
    cut at ["-"]. *)
Definition dashKey (r : Resource) : option string :=
  Utils.getResourceName (Name r) "-".

(** The members of a sequence whose successor has the same [dashKey]. *)
Fixpoint followedByKin (l : list Resource) : list Resource :=
  match l with
  | [] => []
  | x :: l' =>
      match l' with
      | [] => []
      | y :: _ =>
          if decide (dashKey x = dashKey y)
          then x :: followedByKin l'
          else followedByKin l'
      end
  end.

(** The naming-scheme keys of a sequence. *)
Definition keysOf (delimiter : string) (l : list Resource) : gset string :=
  list_to_set (omap (key delimiter) l).

(** What the map [nsm] of [Singletons] of tools/janitor holds for a key
    after the resources [seen]: the name of the last member of the key's
    group, and whether the group has exactly one member. *)
Definition entryOf (delimiter k : string) (seen : list Resource) : option Janitor.nsmEntry :=
  r ← last (group delimiter k seen);
  Some {| Janitor.entryName := Name r;
          Janitor.Singleton := bool_decide (length (group delimiter k seen) = 1) |}.

(** The calls the producer of a pool has still to send. *)
Definition pending (imageList : list Resource) (s : Delete.state) : list Resource :=
  match Delete.main s with
  | Delete.Spawning _ => imageList
  | Delete.Sending rest => rest
  | Delete.Waiting | Delete.Returned _ => []
  end.

(** The prepared calls of a list of resources. *)
Definition callsOf (v : Delete.variant) (project : string) (l : list Resource)
    : list Delete.call :=
  omap (Delete.callFor v project) l.

(** The log line a worker writes when an operation has answered DONE. *)
Definition isDeleted (e : event) : bool :=
  match e with
  | Printf format _ => String.eqb format "delete.go: %s: Deleted resource %s"
  | Logrus _ msg _ => String.eqb msg "Deleted resource"
  | _ => false
  end.

Definition deletedIn (ev : list event) : nat := length (List.filter isDeleted ev).

(** The number of deletions the log of a pool reports as completed. *)
Definition deleted (s : Delete.state) : nat := deletedIn (Delete.log s).

(** A worker that holds a call: received, and not yet answered DONE. *)
Definition isBusy (x : Delete.worker) : bool :=
  match x with
  | Delete.Issuing _ | Delete.Polling _ _ => true
  | _ => false
  end.

Definition inflight (s : Delete.state) : nat :=
  length (List.filter isBusy (Delete.workers s)).

(** Every resource is accounted for: the calls of the list are, in order,
    those received by a worker, those in the channel and those still to be
    sent; a received call is held by a worker or reported as deleted. *)
Definition accounted (v : Delete.variant) (project : string) (imageList : list Resource)
    (s : Delete.state) : Prop :=
  exists received,
    callsOf v project imageList
    = (received ++ Delete.queue s ++ callsOf v project (pending imageList s))%list /\
    length received = deleted s + inflight s.

(** What the barrier and the channel guarantee in every state of a pool:
    the channel is closed exactly when the producer has passed [close], and
    a worker has left its loop only with the channel closed and empty. *)
Definition settled (s : Delete.state) : Prop :=
  (Delete.closed s = true <->
     Delete.main s = Delete.Waiting \/ exists e, Delete.main s = Delete.Returned e) /\
  (forall w, Delete.workers s !! w = Some Delete.Stopped ->
     Delete.closed s = true /\ Delete.queue s = []) /\
  (forall e, Delete.main s = Delete.Returned e ->
     Delete.allStopped (Delete.workers s) = true /\ Delete.halted s = None).

End Spec2.

Import Spec2.

(* ##################################################################### *)
(** * Properties                                                          *)
(* ##################################################################### *)

(* ===================================================================== *)
(** ** [strings.Split] and the naming-scheme key                          *)
(* ===================================================================== *)

Module StringFacts.

Lemma HasPrefix_spec s sep :
  HasPrefix s sep = true <-> exists post, s = sep ++ post.
Proof.
  revert s. induction sep as [|a sep IH]; intros s; cbn.
  - split; [exists s; reflexivity|]. destruct s; reflexivity.
  - destruct s as [|b s]; cbn.
    + split; [discriminate|]. intros [post H]. discriminate H.
    + destruct (Ascii.eqb_spec a b) as [->|Hne].
      * rewrite IH. split; intros [post H]; exists post; [rewrite H; reflexivity|].
        injection H as ->. reflexivity.
      * split; [discriminate|]. intros [post H]. injection H as -> _. congruence.
Qed.

(** [Contains] says that the separator occurs in the string. *)
Lemma Contains_spec s sep :
  Contains s sep = true <-> exists pre post, s = pre ++ sep ++ post.
Proof.
  induction s as [|c s IH]; cbn [Contains].
  - rewrite orb_false_r, HasPrefix_spec. split.
    + intros [post H]. exists "", post. exact H.
    + intros (pre & post & H). destruct pre; [exists post; exact H|discriminate H].
  - rewrite orb_true_iff, HasPrefix_spec, IH. split.
    + intros [[post H]|(pre & post & H)].
      * exists "", post. exact H.
      * exists (String c pre), post. cbn. rewrite H. reflexivity.
    + intros (pre & post & H). destruct pre as [|d pre].
      * left. exists post. exact H.
      * right. cbn in H. injection H as _ ->. exists pre, post. reflexivity.
Qed.

Lemma append_assoc (a b c : string) : (a ++ b) ++ c = a ++ (b ++ c).
Proof.
  induction a as [|x a IH]; [reflexivity|].
  change (String x ((a ++ b) ++ c) = String x (a ++ (b ++ c))).
  rewrite IH. reflexivity.
Qed.

Lemma append_nil_r (a : string) : a ++ "" = a.
Proof.
  induction a as [|x a IH]; [reflexivity|].
  change (String x (a ++ "") = String x a). rewrite IH. reflexivity.
Qed.

Lemma rev_app_append cur s : String.rev_app cur s = String.rev cur ++ s.
Proof.
  unfold String.rev. revert s. induction cur as [|c cur IH]; intros s; cbn.
  - reflexivity.
  - rewrite IH, (IH (String c "")). rewrite append_assoc. reflexivity.
Qed.

Lemma dropChars_prefix sep post : dropChars (String.length sep) (sep ++ post) = post.
Proof. induction sep as [|a sep IH]; [reflexivity|exact IH]. Qed.

Lemma Join_cons x l sep : l <> [] -> Join (x :: l) sep = x ++ sep ++ Join l sep.
Proof. destruct l; [congruence|reflexivity]. Qed.

Lemma splitLoop_nonempty sep s : forall skip cur, splitLoop sep skip cur s <> [].
Proof.
  induction s as [|c s IH]; intros skip cur; cbn [splitLoop].
  - discriminate.
  - destruct skip; [destruct (HasPrefix _ _)|]; auto; discriminate.
Qed.

(** Joining the pieces of the loop with the separator gives back what the
    loop has read. *)
Lemma Join_splitLoop sep s : sep <> "" -> forall skip cur,
  Join (splitLoop sep skip cur s) sep = String.rev cur ++ dropChars skip s.
Proof.
  intros Hsep. induction s as [|c s IH]; intros skip cur; cbn [splitLoop].
  - assert (dropChars skip "" = "") as -> by (destruct skip; reflexivity).
    rewrite append_nil_r. reflexivity.
  - destruct skip as [|k]; [|apply IH].
    destruct (HasPrefix (String c s) sep) eqn:E.
    + apply HasPrefix_spec in E as [post E].
      rewrite Join_cons by apply splitLoop_nonempty. rewrite IH.
      change (dropChars 0 (String c s)) with (String c s).
      change (String.rev "") with "".
      change ("" ++ dropChars (String.length sep - 1) s)
        with (dropChars (String.length sep - 1) s).
      destruct sep as [|a sep]; [congruence|].
      change (String c s = String a (sep ++ post)) in E. injection E as -> ->.
      change (String.length (String a sep) - 1) with (String.length sep - 0).
      rewrite Nat.sub_0_r, dropChars_prefix. reflexivity.
    + rewrite IH. change (dropChars 0 (String c s)) with (String c s).
      rewrite <- !rev_app_append. reflexivity.
Qed.

(** [Join] undoes [Split]. *)
Lemma Join_Split s sep : Join (Split s sep) sep = s.
Proof.
  destruct sep as [|a sep].
  - change (Split s "") with (explode s).
    induction s as [|c s IH]; [reflexivity|].
    cbn [explode]. destruct s as [|d s]; [reflexivity|].
    rewrite Join_cons by discriminate. rewrite IH. reflexivity.
  - unfold Split. rewrite Join_splitLoop by discriminate. reflexivity.
Qed.

Lemma Contains_empty s : Contains s "" = true.
Proof. destruct s; reflexivity. Qed.

Lemma Contains_false_sep s sep : Contains s sep = false -> sep <> "".
Proof. intros H ->. rewrite Contains_empty in H. discriminate. Qed.

(** Without an occurrence of the separator the loop of [Split] only
    collects characters. *)
Lemma splitLoop_no_occurrence sep s : forall cur,
  Contains s sep = false ->
  splitLoop sep 0 cur s = [String.rev_app cur s].
Proof.
  induction s as [|c s IH]; intros cur H.
  - reflexivity.
  - cbn [Contains] in H. apply orb_false_iff in H as [Hp Hc].
    cbn [splitLoop]. rewrite Hp. rewrite (IH _ Hc). reflexivity.
Qed.

Lemma Split_no_occurrence s sep :
  Contains s sep = false -> Split s sep = [s].
Proof.
  intros H. pose proof (Contains_false_sep _ _ H) as Hne.
  destruct sep as [|a sep]; [congruence|].
  unfold Split. rewrite splitLoop_no_occurrence by exact H. reflexivity.
Qed.

(** For a non-empty separator [Split] gives at least one piece. *)
Lemma Split_nonempty s sep : sep <> "" -> Split s sep <> [].
Proof.
  destruct sep as [|a sep]; [congruence|]. intros _. apply splitLoop_nonempty.
Qed.

Lemma sliceInit_Some {A} (a : list A) : a <> [] -> sliceInit a = Some (removelast a).
Proof. destruct a; [congruence|reflexivity]. Qed.

Lemma getResourceName_total a delimiter :
  delimiter <> "" -> is_Some (Utils.getResourceName a delimiter).
Proof.
  intros H. unfold Utils.getResourceName.
  rewrite sliceInit_Some by (apply Split_nonempty; exact H). eexists; reflexivity.
Qed.


(** [sanitizeResourceURL] never runs into the empty slice. *)
Lemma sanitizeResourceURL_total z : is_Some (Delete.sanitizeResourceURL z).
Proof.
  unfold Delete.sanitizeResourceURL, sliceLast.
  pose proof (Split_nonempty z "/" ltac:(discriminate)) as H.
  destruct (Split z "/") as [|x l] eqn:E; [congruence|].
  clear. revert x. induction l as [|y l IH]; intros x; [eexists; reflexivity|].
  apply (IH y).
Qed.

Example Split_web_v12 : Split "web-v12" "-" = ["web"; "v12"].
Proof. reflexivity. Qed.

Example Split_trailing_separator : Split "a-b-" "-" = ["a"; "b"; ""].
Proof. reflexivity. Qed.

Example Split_long_separator : Split "a--b-c--" "--" = ["a"; "b-c"; ""].
Proof. reflexivity. Qed.

Example Split_leftmost_first : Split "aaa" "aa" = [""; "a"].
Proof. reflexivity. Qed.

Example Split_empty_name : Split "" "-" = [""].
Proof. reflexivity. Qed.

Example getResourceName_web_v12 : Utils.getResourceName "web-v12" "-" = Some "web".
Proof. reflexivity. Qed.

Example getResourceName_base_name :
  Janitor.GetResourceBasename "Image-Base-Name-UniqueIdentifier" "-" = Some "Image-Base-Name".
Proof. reflexivity. Qed.

(** The one input on which the slice bound is out of range. *)
Example getResourceName_panics : Utils.getResourceName "" "" = None.
Proof. reflexivity. Qed.

Example parse_compute_timestamp :
  GoTime.parseRFC3339 "2019-06-13T09:15:42.123-07:00" = Some 1560442542123000000%Z.
Proof. vm_compute. reflexivity. Qed.

Example parse_threshold :
  GoTime.parseRFC3339 "2019-01-20T00:00:00Z" = Some Sample.threshold.
Proof. vm_compute. reflexivity. Qed.

Example parse_leap_day : GoTime.parseRFC3339 "2019-02-29T00:00:00Z" = None.
Proof. vm_compute. reflexivity. Qed.

Example match_tmp_pattern :
  (fun re => re "tmp-ephemeral-9") <$> GoRegexp.compile "^tmp-.*" = Some true.
Proof. vm_compute. reflexivity. Qed.

Example match_anchored_pattern :
  (fun re => re "my-tmp-1") <$> GoRegexp.compile "^tmp-.*" = Some false.
Proof. vm_compute. reflexivity. Qed.

End StringFacts.

(* ===================================================================== *)
(** ** Computations                                                       *)
(* ===================================================================== *)

Module ProcFacts.

Lemma returns_ret {A} (a : A) : returns (ret a) a.
Proof. reflexivity. Qed.

Lemma returns_bind {A B} (m : Proc A) (f : A -> Proc B) a b :
  returns m a -> returns (f a) b -> returns (bind m f) b.
Proof.
  unfold returns, result. destruct m as [ev o]; cbn. intros -> Hf.
  destruct (f a) as [ev' o']; cbn in *. exact Hf.
Qed.

Lemma result_bind {A B} (m : Proc A) (f : A -> Proc B) a :
  returns m a -> result (bind m f) = result (f a).
Proof.
  unfold returns, result. destruct m as [ev o]; cbn. intros ->.
  destruct (f a); reflexivity.
Qed.

Lemma events_bind {A B} (m : Proc A) (f : A -> Proc B) a :
  returns m a -> events (bind m f) = (events m ++ events (f a))%list.
Proof.
  unfold returns, result, events. destruct m as [ev o]; cbn. intros ->.
  destruct (f a); reflexivity.
Qed.

Lemma result_bind_stop {A B} (m : Proc A) (f : A -> Proc B) :
  stopsProcess m -> stopsProcess (bind m f) /\ events (bind m f) = events m.
Proof.
  unfold stopsProcess, result, events. destruct m as [ev o]; cbn.
  intros [-> | ->]; cbn; auto.
Qed.

Lemma bind_ret_l {A B} (a : A) (f : A -> Proc B) : bind (ret a) f = f a.
Proof. unfold bind, ret. destruct (f a). reflexivity. Qed.

Lemma returns_printf format args : returns (printf format args) tt.
Proof. reflexivity. Qed.

Lemma returns_orPanic {A} (o : option A) a : o = Some a -> returns (orPanic o) a.
Proof. intros ->. reflexivity. Qed.

(** A loop whose body always returns, returns; [g] gives the state. *)
Lemma returns_forEach {A S} (body : A -> S -> Proc S) (g : A -> S -> S) (P : A -> Prop) l :
  (forall x s, P x -> returns (body x s) (g x s)) ->
  Forall P l ->
  forall s, returns (forEach body l s) (fold_left (fun s x => g x s) l s).
Proof.
  intros Hbody HP. induction HP as [|x l Hx _ IH]; intros s; cbn.
  - reflexivity.
  - eapply returns_bind; [apply Hbody, Hx | apply IH].
Qed.

End ProcFacts.

(* ===================================================================== *)
(** ** The singleton stage                                                *)
(* ===================================================================== *)

Module SingletonFacts.
Import ProcFacts StringFacts.

Lemma key_total delimiter r : delimiter <> "" -> is_Some (key delimiter r).
Proof. apply getResourceName_total. Qed.

Lemma nonSingletonStep_returns k delimiter x m ns kx :
  key delimiter x = Some kx ->
  returns (Utils.nonSingletonStep k delimiter x (m, ns))
          (if decide (kx ∈ dom m) then (m, (ns ++ [x])%list)
           else (<[kx := "yes"]> m, ns)).
Proof.
  unfold key. intros Hk. unfold Utils.nonSingletonStep. rewrite Hk.
  eapply returns_bind; [reflexivity|].
  destruct (m !! kx) as [y|] eqn:E.
  - rewrite decide_True by (apply elem_of_dom; eauto). reflexivity.
  - rewrite decide_False by (apply not_elem_of_dom; exact E). reflexivity.
Qed.

(** The loop of [getNonSingletonImages] appends to [nonSingletons] the
    resources listed after one of their key. *)
Lemma nonSingleton_loop k delimiter :
  delimiter <> "" ->
  forall l m ns,
    exists m', returns (forEach (Utils.nonSingletonStep k delimiter) l (m, ns))
                       (m', (ns ++ later delimiter (dom m) l)%list).
Proof.
  intros Hd. induction l as [|x l IH]; intros m ns.
  - exists m. cbn. rewrite app_nil_r. reflexivity.
  - destruct (key_total delimiter x Hd) as [kx Hk].
    cbn [forEach later]. rewrite Hk.
    pose proof (nonSingletonStep_returns k delimiter x m ns kx Hk) as Hstep.
    destruct (decide (kx ∈ dom m)).
    + destruct (IH m (ns ++ [x])%list) as [m' Hm']. exists m'.
      eapply returns_bind; [exact Hstep|].
      rewrite <- app_assoc in Hm'. exact Hm'.
    + destruct (IH (<[kx := "yes"]> m) ns) as [m' Hm']. exists m'.
      eapply returns_bind; [exact Hstep|].
      rewrite dom_insert_L in Hm'. exact Hm'.
Qed.

Lemma singletonReport_returns k m : returns (Utils.singletonReport k m) tt.
Proof.
  unfold Utils.singletonReport.
  generalize (map_to_list m) as l.
  induction l as [|x l IH]; cbn.
  - reflexivity.
  - eapply returns_bind; [|apply IH].
    destruct (String.eqb _ _); [apply returns_printf | apply returns_ret].
Qed.




End SingletonFacts.

(* ===================================================================== *)
(** ** The age stage                                                      *)
(* ===================================================================== *)

Module AgeFacts.
Import ProcFacts.

Section WithParse.

Variable Parse : string -> option GoTime.Time.

Lemma getOldLoop_parsed k t : forall l acc,
  Forall (fun r => is_Some (stamp Parse r)) l ->
  returns (Utils.getOldLoop Parse k l t acc)
          (Ok (acc ++ filter (olderThan Parse t) l)%list).
Proof.
  induction l as [|x l IH]; intros acc Hl.
  - cbn. rewrite app_nil_r. reflexivity.
  - apply Forall_cons in Hl as [[s Hs] Hl]. unfold stamp in Hs.
    cbn [Utils.getOldLoop]. unfold Utils.parseCreationTimestamp. rewrite Hs.
    rewrite filter_cons. unfold GoTime.Before.
    destruct (decide (olderThan Parse t x)) as [Ho|Ho];
      unfold olderThan, stamp in Ho; rewrite Hs in Ho.
    + apply Z.ltb_lt in Ho. rewrite Ho.
      eapply returns_bind; [apply returns_printf|].
      specialize (IH (acc ++ [x])%list Hl). rewrite <- app_assoc in IH. exact IH.
    + assert ((s <? t)%Z = false) as -> by (apply Z.ltb_ge; lia).
      eapply returns_bind; [apply returns_printf|]. apply IH, Hl.
Qed.

Lemma getOldLoop_unparsable k t : forall l acc,
  Exists (fun r => stamp Parse r = None) l ->
  exists e, returns (Utils.getOldLoop Parse k l t acc) (Err e).
Proof.
  induction l as [|x l IH]; intros acc Hl.
  - inversion Hl.
  - cbn [Utils.getOldLoop]. unfold Utils.parseCreationTimestamp.
    destruct (Parse (CreationTimestamp x)) as [s|] eqn:Hs.
    + apply Exists_cons in Hl as [Hx|Hl];
        [unfold stamp in Hx; congruence|].
      destruct (GoTime.Before s t).
      * destruct (IH (acc ++ [x])%list Hl) as [e He]. exists e.
        eapply returns_bind; [apply returns_printf|exact He].
      * destruct (IH acc Hl) as [e He]. exists e.
        eapply returns_bind; [apply returns_printf|exact He].
    + eexists. reflexivity.
Qed.


End WithParse.

End AgeFacts.

(* ===================================================================== *)
(** ** Claims about the singleton stage                                   *)
(* ===================================================================== *)

Module SingletonClaims.
Import ProcFacts StringFacts SingletonFacts AgeFacts.






(** The first version of [utils] compares neighbours: listed newest
    first, the newest of a run is the one handed on. *)
Example first_version_newest_first :
  result (UtilsV1.getNonSingletonImages [Sample.web2; Sample.web1; Sample.api1] "-")
    = Returns [Sample.web2].
Proof. vm_compute. reflexivity. Qed.

(** Members of a group that are not neighbours are all kept back. *)
Example first_version_split_group :
  result (UtilsV1.getNonSingletonImages [Sample.web2; Sample.api1; Sample.web1] "-")
    = Returns [].
Proof. vm_compute. reflexivity. Qed.

(** [resourceNamesMatch] cuts at ["-"] whatever the delimiter. *)
Example first_version_ignores_delimiter :
  UtilsV1.resourceNamesMatch "web-1" "api-1" "_" = Some false /\
  Utils.getResourceName "web-1" "_" = Some "" /\
  Utils.getResourceName "api-1" "_" = Some "".
Proof. vm_compute. repeat split. Qed.

End SingletonClaims.

(* ===================================================================== *)
(** ** The blacklist stage                                                *)
(* ===================================================================== *)

Module BlacklistFacts.
Import ProcFacts.

Section WithCompile.

Variable Compile : string -> option (string -> bool).

(** The inner loop appends the resource once for every pattern it does
    not match. *)
Lemma blacklistLoop_returns k image : forall blacklist allImages,
  Forall (fun p => is_Some (Compile p)) blacklist ->
  returns (Utils.blacklistLoop Compile k image blacklist allImages)
          (allImages ++ replicate (length (missed Compile (Name image) blacklist)) image)%list.
Proof.
  induction blacklist as [|p blacklist IH]; intros allImages Hc.
  - cbn. rewrite app_nil_r. reflexivity.
  - apply Forall_cons in Hc as [[re Hre] Hc].
    unfold Utils.blacklistLoop in *. cbn [forEach].
    unfold Utils.MustCompile at 1. rewrite Hre. cbn [orPanic]. unfold missed.
    destruct (re (Name image)) eqn:E.
    + rewrite filter_cons_False by (unfold misses; rewrite Hre; congruence).
      eapply returns_bind; [|apply IH, Hc].
      eapply returns_bind; [reflexivity|]. rewrite E. cbn [negb].
      eapply returns_bind; [apply returns_printf|reflexivity].
    + rewrite filter_cons_True by (unfold misses; rewrite Hre; exact E).
      cbn [length replicate].
      specialize (IH (allImages ++ [image])%list Hc).
      rewrite <- app_assoc in IH.
      eapply returns_bind; [|exact IH].
      eapply returns_bind; [reflexivity|]. rewrite E. reflexivity.
Qed.

(** With no pattern the inner loop has no iteration: nothing is appended. *)
Lemma pageLoop_no_pattern k Items allImages :
  Utils.pageLoop Compile k Items [] allImages = ret allImages.
Proof.
  revert allImages. induction Items as [|x Items IH]; intros allImages.
  - reflexivity.
  - unfold Utils.pageLoop in *. cbn [forEach]. unfold Utils.blacklistLoop at 1.
    cbn [forEach]. unfold bind at 1, ret at 1. rewrite IH. reflexivity.
Qed.

End WithCompile.

End BlacklistFacts.

(* ===================================================================== *)
(** ** Claims about the blacklist, singleton and age stages               *)
(* ===================================================================== *)

Module FilterClaims.
Import ProcFacts StringFacts SingletonFacts AgeFacts BlacklistFacts.

(** C1, evaluated where the code leaves it. With an empty blacklist the
    listing loop of [GetOldAndNonSingletonImages] keeps no resource at all,
    where a filter would keep them all. With the patterns [^tmp-.*] and
    [^keep-.*] the listing loop, and [Blacklist] of tools/janitor alike,
    keep [tmp-ephemeral-9], which matches the first pattern, and keep
    [web-1], which matches none, twice; the filter of the specification
    gives [web-1] once. *)
Theorem blacklist_stage_is_not_a_filter :
  (forall Compile k Items,
     Utils.listLoop Compile k (LastPage Items) [] [] = ret (Ok []) /\
     survivors Compile [] Items = Items) /\
  blacklisted GoRegexp.compile (Name Sample.tmp9) ["^tmp-.*"; "^keep-.*"] /\
  survivors GoRegexp.compile ["^tmp-.*"; "^keep-.*"] [Sample.tmp9; Sample.web1]
    = [Sample.web1] /\
  returns (Utils.listLoop GoRegexp.compile Utils.KImage
             (LastPage [Sample.tmp9; Sample.web1]) ["^tmp-.*"; "^keep-.*"] [])
          (Ok [Sample.tmp9; Sample.web1; Sample.web1]) /\
  returns (Janitor.Blacklist GoRegexp.compile Janitor.PInstances
             (Sample.metadata [Sample.tmp9; Sample.web1] ["^tmp-.*"; "^keep-.*"]))
          (Sample.metadata [Sample.tmp9; Sample.web1; Sample.web1]
             ["^tmp-.*"; "^keep-.*"]).
Proof.
  split; [|repeat split; vm_compute; try reflexivity].
  - intros Compile k Items. split.
    + cbn [Utils.listLoop]. rewrite pageLoop_no_pattern. reflexivity.
    + unfold survivors. induction Items as [|x Items IH]; [reflexivity|].
      rewrite filter_cons_True; [rewrite IH; reflexivity|].
      unfold blacklisted. intros H. inversion H.
  - apply Exists_cons_hd. reflexivity.
Qed.

(** The listing loop on one page with patterns that all compile: every
    resource once per pattern it does not match. *)
Lemma pageLoop_returns Compile k blacklist :
  Forall (fun p => is_Some (Compile p)) blacklist ->
  forall Items allImages,
    returns (Utils.pageLoop Compile k Items blacklist allImages)
            (allImages ++
             flat_map (fun r => replicate (length (missed Compile (Name r) blacklist)) r) Items)%list.
Proof.
  intros Hc. induction Items as [|x Items IH]; intros allImages.
  - cbn. rewrite app_nil_r. reflexivity.
  - unfold Utils.pageLoop in *. cbn [forEach flat_map].
    eapply returns_bind; [apply blacklistLoop_returns, Hc|].
    rewrite app_assoc. apply IH.
Qed.

(** With exactly one pattern the listing loop is the filter: the
    resources that do not match it, once each and in order. *)
Lemma pageLoop_one_pattern Compile k p re :
  Compile p = Some re ->
  forall Items allImages,
    returns (Utils.pageLoop Compile k Items [p] allImages)
            (allImages ++ survivors Compile [p] Items)%list.
Proof.
  intros Hre. induction Items as [|x Items IH]; intros allImages.
  - cbn. rewrite app_nil_r. reflexivity.
  - unfold Utils.pageLoop in *. cbn [forEach]. unfold survivors in *.
    rewrite filter_cons.
    assert (blacklisted Compile (Name x) [p] <-> re (Name x) = true) as Hb.
    { unfold blacklisted. rewrite Exists_cons, Exists_nil, Hre. tauto. }
    unfold Utils.blacklistLoop at 1. cbn [forEach]. unfold Utils.MustCompile.
    rewrite Hre. cbn [orPanic].
    destruct (re (Name x)) eqn:E.
    + rewrite decide_False by (intros H; apply H, Hb; reflexivity).
      eapply returns_bind; [|apply IH].
      eapply returns_bind; [|reflexivity].
      eapply returns_bind; [reflexivity|]. rewrite E. cbn [negb].
      eapply returns_bind; [apply returns_printf|reflexivity].
    + rewrite decide_True by (rewrite Hb; congruence).
      specialize (IH (allImages ++ [x])%list). rewrite <- app_assoc in IH.
      eapply returns_bind; [|exact IH].
      eapply returns_bind; [|reflexivity].
      eapply returns_bind; [reflexivity|]. rewrite E. reflexivity.
Qed.

Example scenario_tmp_pattern :
  returns (Utils.listLoop GoRegexp.compile Utils.KImage
             (LastPage [Sample.tmp9; Sample.web1]) ["^tmp-.*"] [])
          (Ok [Sample.web1]).
Proof. vm_compute. reflexivity. Qed.

(** What the doubled entries do further down: with two patterns [api-1],
    alone in its group, is listed twice by the blacklist stage, and its
    second copy passes the singleton stage and the age stage. *)
Example two_patterns_select_a_singleton :
  returns (Utils.GetOldAndNonSingletonImages GoRegexp.compile GoTime.parseRFC3339
             (LastPage [Sample.web2; Sample.api1; Sample.web1]) Sample.threshold false
             ["^tmp-.*"; "^keep-.*"] "-")
          (Ok [Sample.api1; Sample.web1; Sample.web1]).
Proof. vm_compute. reflexivity. Qed.

(** The metadata [NewJanitorMetadata] builds carries no pattern, whatever
    blacklist it was given: [Blacklist] leaves its items as they are. *)
Lemma Blacklist_after_NewJanitorMetadata Compile pk p e d b n items :
  Janitor.Blacklist Compile pk (Janitor.setItems (Janitor.NewJanitorMetadata p e d b n) items)
  = bind (logDebug "No blacklist patterns" [])
         (fun _ => ret (Janitor.setItems (Janitor.NewJanitorMetadata p e d b n) items)).
Proof. reflexivity. Qed.

(** [Expired] returns the metadata it was given, whatever the timestamps,
    unless one does not parse. *)
Lemma Expired_keeps_metadata Parse pk i m :
  returns (Janitor.Expired Parse pk i) m -> m = i.
Proof.
  unfold Janitor.Expired, bind, returns, result.
  destruct (Janitor.expiredLoop Parse pk i) as [ev [iml| |]]; cbn; congruence.
Qed.

(** The age stage of [utils]: when all timestamps parse, exactly the
    resources strictly older than the threshold, in order. *)
Lemma getOld_strict Parse k l t :
  Forall (fun r => is_Some (stamp Parse r)) l ->
  exists old, returns (Utils.getOld Parse k l t) (Ok old) /\
    forall r, r ∈ old <-> (r ∈ l /\
      exists s, stamp Parse r = Some s /\ (s < t)%Z).
Proof.
  intros Hl. exists (filter (olderThan Parse t) l).
  split; [apply (getOldLoop_parsed Parse k t l [] Hl)|].
  intros r. rewrite list_elem_of_filter. unfold olderThan.
  split.
  - intros [Ho Hin]. split; [exact Hin|]. destruct (stamp Parse r); [eauto|contradiction].
  - intros [Hin (s & Hs & Hlt)]. rewrite Hs. split; assumption.
Qed.

(** C3, evaluated where the code leaves it. [Expired] of tools/janitor,
    in package [images] and in package [instances], returns the metadata
    unchanged: [web-2], created after the threshold, stays in [Items] with
    [web-1], created before it. On the same input [getOldImages] of [utils]
    selects [web-1] only, and a resource created exactly at the threshold
    is not selected. *)
Theorem Expired_leaves_items_unfiltered :
  olderThan GoTime.parseRFC3339 Sample.threshold Sample.web1 /\
  ~ olderThan GoTime.parseRFC3339 Sample.threshold Sample.web2 /\
  returns (Janitor.Expired GoTime.parseRFC3339 Janitor.PImages
             (Sample.metadata [Sample.web2; Sample.web1] []))
          (Sample.metadata [Sample.web2; Sample.web1] []) /\
  returns (Janitor.Expired GoTime.parseRFC3339 Janitor.PInstances
             (Sample.metadata [Sample.web2; Sample.web1] []))
          (Sample.metadata [Sample.web2; Sample.web1] []) /\
  returns (Utils.getOldImages GoTime.parseRFC3339 [Sample.web2; Sample.web1] Sample.threshold)
          (Ok [Sample.web1]) /\
  returns (Utils.getOldImages GoTime.parseRFC3339
             [Sample.image "web-3" "2019-01-20T00:00:00Z"] Sample.threshold)
          (Ok []).
Proof.
  repeat split; try (vm_compute; reflexivity).
  vm_compute. discriminate.
Qed.



End FilterClaims.

(* ===================================================================== *)
(** ** What the selection writes to the log                               *)
(* ===================================================================== *)

Module QuietFacts.
Import ProcFacts.

Lemma quiet_ret {A} (a : A) : quiet (ret a).
Proof. constructor. Qed.

Lemma quiet_printf format args : quiet (printf format args).
Proof. repeat constructor. intros []. Qed.

Lemma quiet_fatalf {A} format args : quiet (@fatalf A format args).
Proof. repeat constructor. intros []. Qed.

Lemma quiet_orPanic {A} (o : option A) : quiet (orPanic o).
Proof. destruct o; constructor. Qed.

Lemma quiet_bind {A B} (m : Proc A) (f : A -> Proc B) :
  quiet m -> (forall a, quiet (f a)) -> quiet (bind m f).
Proof.
  unfold quiet, events, bind. destruct m as [ev [a| |]]; cbn; intros Hm Hf; try exact Hm.
  specialize (Hf a). destruct (f a) as [ev2 o]. cbn in *.
  apply Forall_app. split; assumption.
Qed.

Lemma quiet_forEach {A S} (body : A -> S -> Proc S) l :
  (forall x s, quiet (body x s)) -> forall s, quiet (forEach body l s).
Proof.
  intros Hb. induction l as [|x l IH]; intros s; cbn.
  - apply quiet_ret.
  - apply quiet_bind; [apply Hb | exact IH].
Qed.

Section WithRuntime.

Variable Compile : string -> option (string -> bool).
Variable Parse : string -> option GoTime.Time.

Lemma quiet_pageLoop k Items blacklist allImages :
  quiet (Utils.pageLoop Compile k Items blacklist allImages).
Proof.
  apply quiet_forEach. intros image all. apply quiet_forEach. intros p all'.
  apply quiet_bind; [apply quiet_orPanic|]. intros re.
  destruct (negb _); [apply quiet_ret|].
  apply quiet_bind; [apply quiet_printf|]. intros _. apply quiet_ret.
Qed.

Lemma quiet_listLoop k l blacklist : forall allImages,
  quiet (Utils.listLoop Compile k l blacklist allImages).
Proof.
  induction l as [err|Items|Items next IH]; intros allImages; cbn [Utils.listLoop].
  - apply quiet_ret.
  - apply quiet_bind; [apply quiet_pageLoop|]. intros a. apply quiet_ret.
  - apply quiet_bind; [apply quiet_pageLoop|]. exact IH.
Qed.

Lemma quiet_zonesLoop zones blacklist : forall allInstances,
  quiet (Utils.zonesLoop Compile zones blacklist allInstances).
Proof.
  induction zones as [|z zones IH]; intros allInstances; cbn [Utils.zonesLoop].
  - apply quiet_ret.
  - apply quiet_bind; [apply quiet_listLoop|]. intros [all|e]; [apply IH|apply quiet_ret].
Qed.

Lemma quiet_getNonSingletons k l delimiter :
  quiet (Utils.getNonSingletons k l delimiter).
Proof.
  unfold Utils.getNonSingletons.
  apply quiet_bind.
  - apply quiet_forEach. intros x [m ns]. unfold Utils.nonSingletonStep.
    apply quiet_bind; [apply quiet_orPanic|]. intros key.
    destruct (m !! key); (apply quiet_bind; [apply quiet_printf|]); intros _; apply quiet_ret.
  - intros st. apply quiet_bind; [|intros _; apply quiet_ret].
    apply quiet_forEach. intros kv _.
    destruct (String.eqb _ _); [apply quiet_printf|apply quiet_ret].
Qed.

Lemma quiet_getOldLoop k t l : forall acc, quiet (Utils.getOldLoop Parse k l t acc).
Proof.
  induction l as [|x l IH]; intros acc; cbn [Utils.getOldLoop].
  - apply quiet_ret.
  - destruct (Utils.parseCreationTimestamp _ _); [|apply quiet_ret].
    destruct (GoTime.Before _ _); (apply quiet_bind; [apply quiet_printf|]); intros _; apply IH.
Qed.

Lemma quiet_selectFrom k all t deleteSingletons delimiter :
  quiet (Utils.selectFrom Parse k all t deleteSingletons delimiter).
Proof.
  unfold Utils.selectFrom, Utils.nonSingletonStage.
  apply quiet_bind.
  - destruct (negb _); [apply quiet_getNonSingletons|apply quiet_ret].
  - intros cands. apply quiet_bind; [apply quiet_getOldLoop|].
    intros [old|e]; apply quiet_ret.
Qed.

(** The selection of images only writes log lines. *)
Lemma quiet_GetOldAndNonSingletonImages imageList t deleteSingletons blacklist delimiter :
  quiet (Utils.GetOldAndNonSingletonImages Compile Parse imageList t deleteSingletons
           blacklist delimiter).
Proof.
  unfold Utils.GetOldAndNonSingletonImages.
  apply quiet_bind; [apply quiet_listLoop|].
  intros [all|e]; [apply quiet_selectFrom|apply quiet_ret].
Qed.

(** So does the selection of instances. *)
Lemma quiet_GetOldAndNonSingletonInstances zones t deleteSingletons blacklist delimiter :
  quiet (Utils.GetOldAndNonSingletonInstances Compile Parse zones t deleteSingletons
           blacklist delimiter).
Proof.
  unfold Utils.GetOldAndNonSingletonInstances.
  destruct zones as [zones|err]; [|apply quiet_fatalf].
  apply quiet_bind; [apply quiet_zonesLoop|].
  intros [all|e]; [apply quiet_selectFrom|apply quiet_ret].
Qed.

End WithRuntime.

End QuietFacts.

(* ===================================================================== *)
(** ** Dry run                                                            *)
(* ===================================================================== *)

Module DryRunClaims.
Import ProcFacts QuietFacts.

Lemma events_bind_prefix {A B} (m : Proc A) (f : A -> Proc B) :
  events m `prefix_of` events (bind m f).
Proof.
  unfold events, bind. destruct m as [ev [a| |]]; cbn; try reflexivity.
  destruct (f a) as [ev2 o]. cbn. apply prefix_app_r. reflexivity.
Qed.

Lemma in_events_bind_l {A B} (m : Proc A) (f : A -> Proc B) e :
  e ∈ events m -> e ∈ events (bind m f).
Proof.
  intros He. destruct (events_bind_prefix m f) as [tl ->].
  apply elem_of_app. left. exact He.
Qed.

Lemma in_events_bind_r {A B} (m : Proc A) (f : A -> Proc B) a e :
  returns m a -> e ∈ events (f a) -> e ∈ events (bind m f).
Proof.
  intros Hm He. rewrite (events_bind m f a Hm). apply elem_of_app. right. exact He.
Qed.

Section WithRuntime.

Variable Compile : string -> option (string -> bool).
Variable Parse : string -> option GoTime.Time.
Variable engine : Z -> list Resource -> Proc (option error).

Lemma quiet_afterSelection_dry k fn tooOld workers selected :
  quiet (Main.afterSelection k engine fn tooOld workers false selected).
Proof.
  unfold Main.afterSelection. destruct selected as [resources|err]; [|apply quiet_fatalf].
  apply quiet_bind; [destruct (Nat.eqb _ _); [apply quiet_printf|apply quiet_ret]|].
  intros _. apply quiet_bind; [apply quiet_ret|]. intros _.
  repeat constructor. intros [].
Qed.

Lemma call_afterSelection k fn tooOld workers resources :
  CallParallel fn workers (map Name resources)
    ∈ events (Main.afterSelection k engine fn tooOld workers true (Ok resources)).
Proof.
  unfold Main.afterSelection.
  eapply in_events_bind_r with (a := tt);
    [destruct (Nat.eqb _ _); reflexivity|].
  apply in_events_bind_l. unfold Main.deletion.
  eapply in_events_bind_r with (a := tt); [apply returns_printf|].
  apply in_events_bind_l. apply list_elem_of_here.
Qed.

Lemma dry_run_generic k fn tooOld workers (select : Proc (goresult (list Resource))) :
  quiet select ->
  let run notDryRun :=
    bind select (Main.afterSelection k engine fn tooOld workers notDryRun) in
  quiet (run false) /\
  (forall notDryRun, events select `prefix_of` events (run notDryRun)) /\
  (forall notDryRun e, e ∈ events (run notDryRun) -> isCall e -> notDryRun = true) /\
  (forall resources, returns select (Ok resources) ->
     CallParallel fn workers (map Name resources) ∈ events (run true)).
Proof.
  intros Hq run.
  assert (quiet (run false)) as Hdry.
  { apply quiet_bind; [exact Hq|]. intros sel. apply quiet_afterSelection_dry. }
  split; [exact Hdry|]. split; [intros nd; apply events_bind_prefix|]. split.
  - intros [|] e He Hc; [reflexivity|]. exfalso.
    unfold quiet in Hdry. rewrite Forall_forall in Hdry. exact (Hdry e He Hc).
  - intros resources Hsel. eapply in_events_bind_r; [exact Hsel|].
    apply call_afterSelection.
Qed.

End WithRuntime.

(** C4. In [deleteImages] and in [deleteInstances], without
    [-not-dry-run] no event of the run is an entry into the deletion
    engine, while the events of the selection (its log lines, one per
    decision) are all there, as they are when the flag is given; an entry
    into the engine occurs only in a run with the flag, and with the flag
    it does occur, on the selected resources, whenever the selection
    returns a list. *)
Theorem dry_run_never_enters_the_engine :
  forall Compile Parse ParallelImages ParallelInstances
         (imageList : Listing) (zones : goresult (list Listing)) (tooOld : GoTime.Time)
         (nameDelimiter : string) (workers : Z) (deleteSingletons : bool)
         (blacklist : list string),
    let selectImages :=
      Utils.GetOldAndNonSingletonImages Compile Parse imageList tooOld deleteSingletons
        blacklist nameDelimiter in
    let selectInstances :=
      Utils.GetOldAndNonSingletonInstances Compile Parse zones tooOld deleteSingletons
        blacklist nameDelimiter in
    let images notDryRun :=
      Main.deleteImages Compile Parse ParallelImages imageList tooOld nameDelimiter
        workers notDryRun deleteSingletons blacklist in
    let instances notDryRun :=
      Main.deleteInstances Compile Parse ParallelInstances zones tooOld nameDelimiter
        workers notDryRun deleteSingletons blacklist in
    (quiet (images false) /\ quiet (instances false)) /\
    (forall notDryRun,
       events selectImages `prefix_of` events (images notDryRun) /\
       events selectInstances `prefix_of` events (instances notDryRun)) /\
    (forall notDryRun e,
       e ∈ events (images notDryRun) \/ e ∈ events (instances notDryRun) ->
       isCall e -> notDryRun = true) /\
    (forall resources, returns selectImages (Ok resources) ->
       CallParallel "delete.ParallelImages" workers (map Name resources)
         ∈ events (images true)) /\
    (forall resources, returns selectInstances (Ok resources) ->
       CallParallel "delete.ParallelInstances" workers (map Name resources)
         ∈ events (instances true)).
Proof.
  intros Compile Parse PI PN imageList zones tooOld d workers ds bl
         selectImages selectInstances images instances.
  destruct (dry_run_generic PI Utils.KImage "delete.ParallelImages" tooOld workers
              selectImages) as (I1 & I2 & I3 & I4).
  { apply quiet_GetOldAndNonSingletonImages. }
  destruct (dry_run_generic PN Utils.KInstance "delete.ParallelInstances" tooOld workers
              selectInstances) as (N1 & N2 & N3 & N4).
  { apply quiet_GetOldAndNonSingletonInstances. }
  split; [split; [exact I1|exact N1]|].
  split; [intros nd; split; [apply I2|apply N2]|].
  split; [intros nd e [He|He] Hc; [exact (I3 nd e He Hc)|exact (N3 nd e He Hc)]|].
  split; [exact I4|exact N4].
Qed.

Lemma dry_run_never_enters_the_engine_witness :
  let images notDryRun :=
    Main.deleteImages GoRegexp.compile GoTime.parseRFC3339 Sample.engine
      (LastPage [Sample.web2; Sample.api1; Sample.web1]) Sample.threshold "-" 10 notDryRun
      false ["^tmp-.*"] in
  CallParallel "delete.ParallelImages" 10 ["web-1"] ∈ events (images true) /\
  quiet (images false) /\
  true = true.
Proof.
  intros images.
  destruct (dry_run_never_enters_the_engine GoRegexp.compile GoTime.parseRFC3339
              Sample.engine Sample.engine
              (LastPage [Sample.web2; Sample.api1; Sample.web1]) (Ok [])
              Sample.threshold "-" 10 false ["^tmp-.*"])
    as ((Hquiet & _) & _ & Honly & Hcall & _).
  assert (CallParallel "delete.ParallelImages" 10 ["web-1"] ∈ events (images true)) as Hin.
  { apply (Hcall [Sample.web1]). vm_compute. reflexivity. }
  split; [exact Hin|]. split; [exact Hquiet|].
  apply (Honly true (CallParallel "delete.ParallelImages" 10 ["web-1"])).
  - left. exact Hin.
  - exact I.
Defined.

End DryRunClaims.

(* ===================================================================== *)
(** ** Unparsable timestamps                                              *)
(* ===================================================================== *)

Module ParseFailureClaims.
Import ProcFacts AgeFacts.

(** C8, as the specification states it, fails: with one unparsable
    timestamp among the candidates the age stage returns an error instead
    of the old resources that do parse, and the run of [deleteImages] ends
    the process. *)
Lemma unparsable_timestamp_is_not_skipped :
  filter (olderThan GoTime.parseRFC3339 Sample.threshold) [Sample.web1; Sample.broken]
    = [Sample.web1] /\
  returns (Utils.getOldImages GoTime.parseRFC3339 [Sample.web1; Sample.broken]
             Sample.threshold)
          (Err (Errorf "utils.go: Failed to parse timestamp: %v" (ParseError "last tuesday"))) /\
  ~ skipsUnparsable GoTime.parseRFC3339 Sample.threshold [Sample.web1; Sample.broken]
      (Utils.getOldImages GoTime.parseRFC3339 [Sample.web1; Sample.broken] Sample.threshold) /\
  result (Main.deleteImages GoRegexp.compile GoTime.parseRFC3339 Sample.engine
            (LastPage [Sample.web1; Sample.broken]) Sample.threshold "-" 10 true true
            ["^tmp-.*"]) = Exits.
Proof.
  split; [vm_compute; reflexivity|]. split; [vm_compute; reflexivity|].
  split; [|vm_compute; reflexivity].
  unfold skipsUnparsable, returns. vm_compute. discriminate.
Qed.

Lemma expiredLoop_unparsable Parse pk i :
  Exists (fun r => stamp Parse r = None) (Janitor.Items i) ->
  result (Janitor.expiredLoop Parse pk i) = Exits.
Proof.
  unfold Janitor.expiredLoop.
  match goal with |- _ -> result (forEach ?b _ _) = _ => set (body := b) end.
  assert (forall l iml, Exists (fun r => stamp Parse r = None) l ->
                        result (forEach body l iml) = Exits) as Haux.
  { induction l as [|x l IH]; intros iml H.
    - inversion H.
    - cbn [forEach]. unfold stamp in H. unfold body at 1.
      destruct (Parse (CreationTimestamp x)) as [s|] eqn:Hs.
      + apply Exists_cons in H as [Hx|H]; [congruence|].
        destruct (Janitor.expiredTest pk i s).
        * rewrite (result_bind _ _ iml); [apply IH, H|].
          eapply returns_bind; reflexivity.
        * rewrite (result_bind _ _ (iml ++ [x])%list); [apply IH, H|].
          eapply returns_bind; reflexivity.
      + reflexivity. }
  apply Haux.
Qed.

(** C8, amended. When a candidate handed to the age stage has a
    timestamp that does not parse, the age stage returns an error and no
    eligible set; [GetOldAndNonSingletonImages] returns an error too, and
    [deleteImages] ends the process through [log.Fatalf], whatever the
    dry-run flag. [Expired] of tools/janitor ends the process itself. *)
Theorem unparsable_timestamp_aborts_the_run :
  forall Compile Parse ParallelImages (imageList : Listing) (t : GoTime.Time)
         (nameDelimiter : string) (workers : Z) (notDryRun deleteSingletons : bool)
         (blacklist : list string) (allImages candidates : list Resource),
    returns (Utils.listLoop Compile Utils.KImage imageList blacklist []) (Ok allImages) ->
    returns (Utils.nonSingletonStage Utils.KImage allImages deleteSingletons nameDelimiter)
            candidates ->
    Exists (fun r => stamp Parse r = None) candidates ->
    (exists e, returns (Utils.getOldImages Parse candidates t) (Err e)) /\
    (exists e, returns (Utils.GetOldAndNonSingletonImages Compile Parse imageList t
                          deleteSingletons blacklist nameDelimiter) (Err e)) /\
    result (Main.deleteImages Compile Parse ParallelImages imageList t nameDelimiter
              workers notDryRun deleteSingletons blacklist) = Exits /\
    (forall pk i, Janitor.Items i = candidates ->
       result (Janitor.Expired Parse pk i) = Exits).
Proof.
  intros Compile Parse PI imageList t d workers nd ds bl all cands Hlist Hstage Hbad.
  destruct (getOldLoop_unparsable Parse Utils.KImage t cands [] Hbad) as [e He].
  assert (returns (Utils.GetOldAndNonSingletonImages Compile Parse imageList t ds bl d)
                  (Err (Errorf ("utils.go: Unable to get old " ++ Utils.nouns Utils.KImage ++ ": %s") e)))
    as Hsel.
  { unfold Utils.GetOldAndNonSingletonImages.
    eapply returns_bind; [exact Hlist|]. unfold Utils.selectFrom.
    eapply returns_bind; [exact Hstage|].
    eapply returns_bind; [exact He|]. reflexivity. }
  split; [exists e; exact He|]. split; [eexists; exact Hsel|]. split.
  - unfold Main.deleteImages. rewrite (result_bind _ _ _ Hsel). reflexivity.
  - intros pk i Hi. subst cands. unfold Janitor.Expired.
    pose proof (expiredLoop_unparsable Parse pk i Hbad) as Hx.
    unfold bind, result in *. destruct (Janitor.expiredLoop Parse pk i) as [ev o].
    cbn in Hx. subst o. reflexivity.
Qed.

Lemma unparsable_timestamp_aborts_the_run_witness :
  (exists e, returns (Utils.getOldImages GoTime.parseRFC3339 [Sample.web1; Sample.broken]
                        Sample.threshold) (Err e)) /\
  result (Main.deleteImages GoRegexp.compile GoTime.parseRFC3339 Sample.engine
            (LastPage [Sample.web1; Sample.broken]) Sample.threshold "-" 10 false true
            ["^tmp-.*"]) = Exits.
Proof.
  destruct (unparsable_timestamp_aborts_the_run GoRegexp.compile GoTime.parseRFC3339
              Sample.engine (LastPage [Sample.web1; Sample.broken]) Sample.threshold "-"
              10 false true ["^tmp-.*"] [Sample.web1; Sample.broken]
              [Sample.web1; Sample.broken])
    as (H1 & _ & H3 & _).
  - vm_compute. reflexivity.
  - reflexivity.
  - apply Exists_cons_tl, Exists_cons_hd. vm_compute. reflexivity.
  - split; [exact H1|exact H3].
Defined.

End ParseFailureClaims.

(* ===================================================================== *)
(** ** The worker pool                                                    *)
(* ===================================================================== *)

Module PoolFacts.
Import Delete StringFacts.

Section Pool.

Variable v : variant.
Variable project : string.
Variable W : nat.
Variable imageList : list Resource.

Abbreviation step := (Delete.step v project W imageList).
Abbreviation run := (Delete.run v project W imageList).
Abbreviation init := (Delete.init W imageList).

(** A property of the initial state that every move preserves holds after
    every schedule. *)
Lemma run_invariant (P : state -> Prop) :
  (forall s l s', P s -> step s l = Some s' -> P s') ->
  forall ls s0 s, P s0 -> run s0 ls = Some s -> P s.
Proof.
  intros Hstep. induction ls as [|l ls IH]; intros s0 s H0 Hrun; cbn in Hrun.
  - injection Hrun as <-. exact H0.
  - destruct (step s0 l) as [s1|] eqn:E; [|discriminate].
    eapply IH; [|exact Hrun]. eapply Hstep; eassumption.
Qed.

(** No goroutine moves once the process has stopped. *)
Lemma step_halted s l : halted s <> None -> step s l = None.
Proof. unfold Delete.step. destruct (halted s); [reflexivity|congruence]. Qed.

Lemma callFor_total r : is_Some (callFor v project r).
Proof.
  unfold callFor.
  destruct (sanitizeResourceURL_total (Zone r)) as [z Hz]. rewrite Hz.
  destruct v; eexists; reflexivity.
Qed.

Lemma shape_init : shape W init.
Proof.
  unfold shape, Delete.init, spawned.
  destruct W; cbn; split; lia.
Qed.

Lemma shape_step s l s' : shape W s -> step s l = Some s' -> shape W s'.
Proof.
  unfold shape, Delete.step. intros [Hq Hm] Hs.
  destruct (halted s); [discriminate|].
  destruct l.
  - (* Spawn *)
    destruct (main s) as [i| | |] eqn:E; try discriminate.
    injection Hs as <-. cbn. rewrite length_app. cbn. unfold spawned.
    split; [lia|]. destruct (Nat.ltb_spec (S i) W); lia.
  - (* Send *)
    destruct (main s) as [|[|r rest]| |] eqn:E; try discriminate.
    destruct (callFor v project r); [|injection Hs as <-; cbn; rewrite E; split; lia].
    destruct (Nat.ltb_spec (length (queue s)) W); [|discriminate].
    injection Hs as <-. cbn. rewrite length_app. cbn. split; lia.
  - (* Close *)
    destruct (main s) as [|[|]| |]; try discriminate.
    injection Hs as <-. cbn. split; lia.
  - (* Wait *)
    destruct (main s); try discriminate.
    destruct (allStopped _); [|discriminate]. injection Hs as <-. cbn. split; lia.
  - (* Receive *)
    destruct (main s) eqn:E;
      (destruct (workers s !! w) as [[]|]; try discriminate;
       destruct (queue s) eqn:Eq; [destruct (closed s); try discriminate|];
       injection Hs as <-; cbn in *; rewrite ?E, ?Eq, ?length_insert; cbn in *; split; lia).
  - (* Issue *)
    destruct (main s) eqn:E;
      (destruct (workers s !! w) as [[]|]; try discriminate;
       destruct answer; [destruct (queryFor _ _)|];
       injection Hs as <-; cbn in *; rewrite ?E, ?length_insert; cbn in *; split; lia).
  - (* Poll *)
    destruct (main s) eqn:E;
      (destruct (workers s !! w) as [[]|]; try discriminate;
       destruct answer; [destruct (String.eqb _ _)|];
       injection Hs as <-; cbn in *; rewrite ?E, ?length_insert; cbn in *; split; lia).
Qed.

(** Whenever the pool has returned, it has returned nil. *)
Lemma returned_nil_step s l s' :
  (forall err, main s = Returned err -> err = None) ->
  step s l = Some s' ->
  forall err, main s' = Returned err -> err = None.
Proof.
  unfold Delete.step. intros Hs Hstep.
  destruct (halted s); [discriminate|].
  destruct l.
  - destruct (main s) as [i| | |]; try discriminate. injection Hstep as <-. cbn.
    unfold spawned. destruct (Nat.ltb _ _); discriminate.
  - destruct (main s) as [|[|r rest]| |] eqn:E; try discriminate.
    destruct (callFor v project r); [|injection Hstep as <-; cbn; rewrite E; discriminate].
    destruct (Nat.ltb _ _); [|discriminate]. injection Hstep as <-. discriminate.
  - destruct (main s) as [|[|]| |]; try discriminate. injection Hstep as <-. discriminate.
  - destruct (main s); try discriminate.
    destruct (allStopped _); [|discriminate]. injection Hstep as <-. cbn. congruence.
  - destruct (main s) eqn:E;
      (destruct (workers s !! w) as [[]|]; try discriminate;
       destruct (queue s); [destruct (closed s); try discriminate|];
       injection Hstep as <-; cbn; rewrite ?E; try discriminate; exact Hs).
  - destruct (main s) eqn:E;
      (destruct (workers s !! w) as [[]|]; try discriminate;
       destruct answer; [destruct (queryFor _ _)|];
       injection Hstep as <-; cbn; rewrite ?E; try discriminate; exact Hs).
  - destruct (main s) eqn:E;
      (destruct (workers s !! w) as [[]|]; try discriminate;
       destruct answer; [destruct (String.eqb _ _)|];
       injection Hstep as <-; cbn; rewrite ?E; try discriminate; exact Hs).
Qed.

Lemma polling_le_workers s : polling s <= length (workers s).
Proof. unfold polling. apply List.filter_length_le. Qed.

(** With the channel full the producer cannot send. *)
Lemma send_blocked s : length (queue s) = W -> step s Send = None.
Proof.
  intros Hfull. unfold Delete.step.
  destruct (halted s); [reflexivity|].
  destruct (main s) as [|[|r rest]| |]; try reflexivity.
  destruct (callFor_total r) as [c ->].
  rewrite Hfull, Nat.ltb_irrefl. reflexivity.
Qed.

(** A receive on a full channel frees a slot, and the producer can send
    its next call. *)
Lemma receive_frees_slot s w s' :
  1 <= W -> length (queue s) = W -> step s (Receive w) = Some s' ->
  length (queue s') = W - 1 /\
  forall r rest, main s = Sending (r :: rest) -> is_Some (step s' Send).
Proof.
  intros HW Hfull Hstep. unfold Delete.step in Hstep.
  destruct (halted s) eqn:Eh; [discriminate|].
  assert (exists c q, queue s = c :: q /\
            s' = {| main := main s; queue := q; closed := closed s;
                    workers := <[w := Issuing c]> (workers s);
                    halted := None; log := log s |}) as (c & q & Eq & ->).
  { destruct (queue s) as [|c q] eqn:Eq; [cbn in Hfull; lia|]. exists c, q.
    split; [reflexivity|].
    destruct (main s); (destruct (workers s !! w) as [[]|]; try discriminate);
      injection Hstep as <-; reflexivity. }
  rewrite Eq in Hfull. cbn in Hfull. cbn. split; [lia|].
  intros r rest Em. unfold Delete.step. cbn -[Nat.ltb]. rewrite Em.
  destruct (callFor_total r) as [c' ->].
  destruct W as [|m]; [lia|].
  assert (Nat.leb (length q) m = true) as -> by (apply Nat.leb_le; lia).
  eexists; reflexivity.
Qed.

Lemma lookup_setWorker s w x y ev :
  workers s !! w = Some y -> workers (setWorker s w x ev) !! w = Some x.
Proof.
  intros H. cbn. apply list_lookup_insert_eq. eapply lookup_lt_Some, H.
Qed.

(** The move of a worker whose delete call fails. *)
Lemma issue_failed s w c err :
  halted s = None -> workers s !! w = Some (Issuing c) ->
  step s (Issue w (Err err)) =
    Some (halt s Exits (issueLine v c ++ issueFailedLine v w c err)).
Proof.
  intros Hh Hw. unfold Delete.step. rewrite Hh, Hw.
  destruct (main s); reflexivity.
Qed.

(** The move of a polling worker, by the answer to its status query. *)
Lemma poll_move s w c q answer :
  halted s = None -> workers s !! w = Some (Polling c q) ->
  step s (Poll w answer) =
    Some match answer with
         | Err _ => halt s Panics []
         | Ok op =>
             if String.eqb (Status op) "DONE"
             then setWorker s w Receiving (deletedLine v w op)
             else setWorker s w (Polling c q) (pendingLine v w op)
         end.
Proof.
  intros Hh Hw. unfold Delete.step. rewrite Hh, Hw.
  destruct (main s); destruct answer as [op|e]; try reflexivity;
    destruct (String.eqb _ _); reflexivity.
Qed.

(** A worker that is not polling has no poll move. *)
Lemma no_poll_when_receiving s w answer :
  workers s !! w = Some Receiving -> step s (Poll w answer) = None.
Proof.
  intros Hw. unfold Delete.step. rewrite Hw.
  destruct (halted s); [reflexivity|]. destruct (main s); reflexivity.
Qed.

End Pool.

End PoolFacts.

(* ===================================================================== *)
(** ** Claims about the deletion engine                                   *)
(* ===================================================================== *)

Module PoolClaims.
Import Delete StringFacts PoolFacts.

(** C9. For [workers = W >= 1], after any schedule of the pool against any
    behaviour of the API: at most [W] operations are being polled; the
    channel holds at most [W] calls; at most [W] worker goroutines exist,
    and exactly [W] once the producer has left its starting loop; and when
    the channel is full the producer cannot send, until a worker receives a
    call, which frees one slot and lets the producer send its next call. *)
Theorem pool_polls_at_most_W_operations :
  forall (v : variant) (project : string) (W : nat) (imageList : list Resource)
         (ls : list label) (s : state),
    1 <= W ->
    run v project W imageList (init W imageList) ls = Some s ->
    polling s <= W /\
    length (queue s) <= W /\
    length (workers s) <= W /\
    ((forall i, main s <> Spawning i) -> length (workers s) = W) /\
    (length (queue s) = W ->
       step v project W imageList s Send = None /\
       forall w s', step v project W imageList s (Receive w) = Some s' ->
         length (queue s') = W - 1 /\
         forall r rest, main s = Sending (r :: rest) ->
           is_Some (step v project W imageList s' Send)).
Proof.
  intros v project W imageList ls s HW Hrun.
  assert (shape W s) as [Hq Hm].
  { eapply (run_invariant v project W imageList (shape W));
      [apply shape_step | apply shape_init | exact Hrun]. }
  assert (length (workers s) <= W) as Hw by (destruct (main s); lia).
  pose proof (polling_le_workers s) as Hp.
  split; [lia|]. split; [exact Hq|]. split; [exact Hw|]. split.
  - intros Hns. destruct (main s) as [i| | |]; [exfalso; apply (Hns i); reflexivity|..]; exact Hm.
  - intros Hfull. split; [apply send_blocked, Hfull|].
    intros w s' Hrecv. eapply receive_frees_slot; eassumption.
Qed.

Lemma pool_polls_at_most_W_operations_witness :
  exists s,
    run RJImages "p" 1 [Sample.web1; Sample.web2] (init 1 [Sample.web1; Sample.web2])
        [Spawn; Send] = Some s /\
    length (queue s) = 1 /\
    polling s <= 1 /\
    step RJImages "p" 1 [Sample.web1; Sample.web2] s Send = None.
Proof.
  eexists. split; [vm_compute; reflexivity|].
  match goal with
  | |- context [step _ _ _ _ ?s Send] =>
      destruct (pool_polls_at_most_W_operations RJImages "p" 1
                  [Sample.web1; Sample.web2] [Spawn; Send] s)
        as (Hp & _ & _ & _ & Hfull)
  end.
  - lia.
  - vm_compute. reflexivity.
  - split; [reflexivity|]. split; [exact Hp|]. apply Hfull. reflexivity.
Defined.

(** C7, as the specification states it, fails: an answer with status
    [FAILED] leaves the worker in its poll loop, and the same operation is
    polled again. *)
Lemma FAILED_operation_is_polled_again :
  exists s,
    run RJImages "p" 1 [Sample.web1] (init 1 [Sample.web1])
        [Spawn; Send; Receive 0; Issue 0 (Ok (Sample.operation "PENDING"));
         Poll 0 (Ok (Sample.operation "FAILED"))] = Some s /\
    ~ stopsAtTerminal s 0 (Sample.operation "FAILED") /\
    is_Some (step RJImages "p" 1 [Sample.web1] s (Poll 0 (Ok (Sample.operation "FAILED")))).
Proof.
  eexists. split; [vm_compute; reflexivity|]. split.
  - intros H. eapply H; reflexivity.
  - vm_compute. eexists; reflexivity.
Qed.

(** C7, amended. A worker in its poll loop always has a next poll. On an
    answer with status [DONE] it leaves the loop for its next receive, and
    no further poll of the operation is possible. On an answer with any
    other status, [FAILED] included, it stays in the loop on the same
    operation and polls again. On a query that fails the whole process
    stops; no failure of the operation is reported. *)
Theorem poll_loop_ends_on_DONE_only :
  forall (v : variant) (project : string) (W : nat) (imageList : list Resource)
         (s : state) (w : nat) (c : call) (q : query),
    halted s = None ->
    workers s !! w = Some (Polling c q) ->
    (forall op, Status op = "DONE" ->
       exists s', step v project W imageList s (Poll w (Ok op)) = Some s' /\
         workers s' !! w = Some Receiving /\ halted s' = None /\
         forall answer, step v project W imageList s' (Poll w answer) = None) /\
    (forall op, Status op <> "DONE" ->
       exists s', step v project W imageList s (Poll w (Ok op)) = Some s' /\
         workers s' !! w = Some (Polling c q) /\ halted s' = None /\
         forall answer, is_Some (step v project W imageList s' (Poll w answer))) /\
    (forall err,
       exists s', step v project W imageList s (Poll w (Err err)) = Some s' /\
         halted s' = Some Panics /\
         forall l, step v project W imageList s' l = None).
Proof.
  intros v project W imageList s w c q Hh Hw. split; [|split].
  - intros op Hop. eexists. split; [apply (poll_move _ _ _ _ _ _ _ _ (Ok op) Hh Hw)|].
    cbn. rewrite Hop. cbn [String.eqb Ascii.eqb Bool.eqb].
    split; [eapply lookup_setWorker, Hw|]. split; [exact Hh|].
    intros answer. apply no_poll_when_receiving. eapply lookup_setWorker, Hw.
  - intros op Hop. eexists. split; [apply (poll_move _ _ _ _ _ _ _ _ (Ok op) Hh Hw)|].
    cbn. apply String.eqb_neq in Hop. rewrite Hop.
    split; [eapply lookup_setWorker, Hw|]. split; [exact Hh|].
    intros answer. erewrite poll_move; [eexists; reflexivity|exact Hh|].
    eapply lookup_setWorker, Hw.
  - intros err. eexists. split; [apply (poll_move _ _ _ _ _ _ _ _ (Err err) Hh Hw)|].
    split; [reflexivity|]. intros l. apply step_halted. discriminate.
Qed.

Lemma poll_loop_ends_on_DONE_only_witness :
  exists s s',
    run JInstances "p" 1 [Sample.web1] (init 1 [Sample.web1])
        [Spawn; Send; Receive 0; Issue 0 (Ok (Sample.operation "PENDING"))] = Some s /\
    step JInstances "p" 1 [Sample.web1] s (Poll 0 (Ok (Sample.operation "DONE"))) = Some s' /\
    workers s' !! 0 = Some Receiving.
Proof.
  let t := eval vm_compute in
            (run JInstances "p" 1 [Sample.web1] (init 1 [Sample.web1])
               [Spawn; Send; Receive 0; Issue 0 (Ok (Sample.operation "PENDING"))]) in
  match t with Some ?x => exists x end.
  match goal with
  | |- exists s', run _ _ _ _ _ _ = Some ?s /\ _ =>
      destruct (poll_loop_ends_on_DONE_only JInstances "p" 1 [Sample.web1] s 0
                  {| callProject := "p"; callZone := ""; callName := "web-1" |}
                  (GlobalOperationsGet "p" "operation-1"))
        as (Hdone & _ & _); [reflexivity|reflexivity|];
      destruct (Hdone (Sample.operation "DONE")) as (s' & Hstep & Hw & _); [reflexivity|]
  end.
  exists s'. split; [vm_compute; reflexivity|]. split; [exact Hstep|exact Hw].
Defined.

(** Without a [DONE] the loop goes on: after any number of answers with
    another status the worker is still polling the same operation. *)
Lemma poll_loop_goes_on v project W imageList w c q : forall ops s,
  halted s = None -> workers s !! w = Some (Polling c q) ->
  Forall (fun op => Status op <> "DONE") ops ->
  exists s', run v project W imageList s (map (fun op => Poll w (Ok op)) ops) = Some s' /\
    halted s' = None /\ workers s' !! w = Some (Polling c q).
Proof.
  induction ops as [|op ops IH]; intros s Hh Hw Hops.
  - exists s. repeat split; assumption.
  - apply Forall_cons in Hops as [Hop Hops]. cbn [map run].
    rewrite (poll_move v project W imageList s w c q (Ok op) Hh Hw).
    apply String.eqb_neq in Hop. rewrite Hop.
    apply IH; [exact Hh| |exact Hops]. eapply lookup_setWorker, Hw.
Qed.

(** C6, as the specification states it, fails: with one worker and two
    calls, the failure of the first delete call ends the process; the
    second call stays in the channel and no goroutine moves any more. *)
Lemma failed_delete_call_ends_the_process :
  exists s,
    run RJImages "p" 1 [Sample.web1; Sample.web2] (init 1 [Sample.web1; Sample.web2])
        [Spawn; Send; Receive 0; Send; Issue 0 (Err (ApiError "quota exceeded"))] = Some s /\
    ~ failsPerJob s 0 /\
    halted s = Some Exits /\
    queue s = [{| callProject := "p"; callZone := ""; callName := "web-2" |}] /\
    forall l, step RJImages "p" 1 [Sample.web1; Sample.web2] s l = None.
Proof.
  eexists. split; [vm_compute; reflexivity|]. split; [|split; [|split]].
  - intros [H _]. discriminate H.
  - reflexivity.
  - reflexivity.
  - intros l. apply step_halted. discriminate.
Qed.

(** C6, amended. A delete call that fails is recorded by its worker on the
    log as a fatal line, and that ends the whole process: the calls still
    in the channel stay there and no goroutine, worker or caller, moves
    any more. A status query that fails ends the process as well. And
    whenever the pool returns to its caller, the error it returns is
    nil. *)
Theorem failed_job_stops_the_process :
  forall (v : variant) (project : string) (W : nat) (imageList : list Resource),
    (forall s w c err,
       halted s = None -> workers s !! w = Some (Issuing c) ->
       exists s', step v project W imageList s (Issue w (Err err)) = Some s' /\
         halted s' = Some Exits /\
         log s' = (log s ++ issueLine v c ++ issueFailedLine v w c err)%list /\
         queue s' = queue s /\
         forall l, step v project W imageList s' l = None) /\
    (forall s w c q err,
       halted s = None -> workers s !! w = Some (Polling c q) ->
       exists s', step v project W imageList s (Poll w (Err err)) = Some s' /\
         halted s' = Some Panics /\
         forall l, step v project W imageList s' l = None) /\
    (forall ls s err,
       run v project W imageList (init W imageList) ls = Some s ->
       main s = Returned err -> err = None).
Proof.
  intros v project W imageList. split; [|split].
  - intros s w c err Hh Hw. eexists. split; [apply (issue_failed v project W imageList s w c err Hh Hw)|].
    split; [reflexivity|]. split; [reflexivity|]. split; [reflexivity|].
    intros l. apply step_halted. discriminate.
  - intros s w c q err Hh Hw. eexists.
    split; [apply (poll_move _ _ _ _ _ _ _ _ (Err err) Hh Hw)|].
    split; [reflexivity|]. intros l. apply step_halted. discriminate.
  - intros ls s err Hrun.
    apply (run_invariant v project W imageList
             (fun s => forall err, main s = Returned err -> err = None))
      with (ls := ls) (s0 := init W imageList); [|
      |exact Hrun].
    + intros s1 l s2. apply returned_nil_step.
    + intros e. unfold init, spawned. destruct W; cbn; discriminate.
Qed.

Lemma failed_job_stops_the_process_witness :
  exists s s',
    run RJImages "p" 1 [Sample.web1; Sample.web2] (init 1 [Sample.web1; Sample.web2])
        [Spawn; Send; Receive 0; Send] = Some s /\
    step RJImages "p" 1 [Sample.web1; Sample.web2] s
         (Issue 0 (Err (ApiError "quota exceeded"))) = Some s' /\
    halted s' = Some Exits /\ queue s' = queue s.
Proof.
  let t := eval vm_compute in
            (run RJImages "p" 1 [Sample.web1; Sample.web2]
               (init 1 [Sample.web1; Sample.web2]) [Spawn; Send; Receive 0; Send]) in
  match t with Some ?x => exists x end.
  match goal with
  | |- exists s', run _ _ _ _ _ _ = Some ?s /\ _ =>
      destruct (proj1 (failed_job_stops_the_process RJImages "p" 1
                         [Sample.web1; Sample.web2])
                  s 0 {| callProject := "p"; callZone := ""; callName := "web-1" |}
                  (ApiError "quota exceeded"))
        as (s' & Hstep & Hh & _ & Hq & _); [reflexivity|reflexivity|]
  end.
  exists s'. split; [vm_compute; reflexivity|]. split; [exact Hstep|].
  split; [exact Hh|exact Hq].
Defined.

End PoolClaims.

(* ##################################################################### *)
(** * Further properties of the code                                      *)
(* ##################################################################### *)

(* ===================================================================== *)
(** ** Names, keys and URLs                                               *)
(* ===================================================================== *)

Module SplitFacts.
Import StringFacts.

Lemma rev_singleton c : String.rev (String c "") = String c "".
Proof. reflexivity. Qed.

Lemma rev_cons c cur : String.rev (String c cur) = String.rev cur ++ String c "".
Proof.
  unfold String.rev at 1. change (String.rev_app (String c cur) "")
    with (String.rev_app cur (String c "")).
  apply rev_app_append.
Qed.

(** What the loop has read so far only prefixes its first piece. *)
Lemma splitLoop_cur sep s : forall cur,
  splitLoop sep 0 cur s = prefixHead (String.rev cur) (splitLoop sep 0 "" s).
Proof.
  induction s as [|c s IH]; intros cur; cbn [splitLoop].
  - cbn [prefixHead]. change (String.rev "") with "". rewrite append_nil_r. reflexivity.
  - destruct (HasPrefix (String c s) sep).
    + cbn [prefixHead]. change (String.rev "") with "". rewrite append_nil_r. reflexivity.
    + rewrite (IH (String c cur)), (IH (String c "")).
      destruct (splitLoop sep 0 "" s) as [|x l]; [reflexivity|].
      cbn [prefixHead]. rewrite rev_cons, rev_singleton, append_assoc. reflexivity.
Qed.

Lemma splitLoop_step sep c s :
  HasPrefix (String c s) sep = false ->
  splitLoop sep 0 "" (String c s) = prefixHead (String c "") (splitLoop sep 0 "" s).
Proof.
  intros H. cbn [splitLoop]. rewrite H. rewrite splitLoop_cur. reflexivity.
Qed.

Lemma length_prefixHead p l : length (prefixHead p l) = length l.
Proof. destruct l; reflexivity. Qed.

(** An occurrence of the separator gives at least two pieces. *)
Lemma splitLoop_two_pieces sep s :
  sep <> "" -> Contains s sep = true -> 2 <= length (splitLoop sep 0 "" s).
Proof.
  intros Hsep. induction s as [|c s IH]; intros H.
  - destruct sep; [congruence|discriminate H].
  - cbn [Contains] in H. destruct (HasPrefix (String c s) sep) eqn:E.
    + cbn [splitLoop]. rewrite E. cbn [length].
      pose proof (splitLoop_nonempty sep s (String.length sep - 1) "") as Hn.
      destruct (splitLoop sep (String.length sep - 1) "" s); [congruence|cbn; lia].
    + rewrite splitLoop_step by exact E. rewrite length_prefixHead. apply IH, H.
Qed.

(** The last piece holds no occurrence of the separator. *)
Lemma splitLoop_last_clean sep s :
  sep <> "" ->
  forall skip x, last (splitLoop sep skip "" s) = Some x -> Contains x sep = false.
Proof.
  intros Hsep. induction s as [|c s IH]; intros skip x Hx.
  - cbn in Hx. injection Hx as <-. destruct sep; [congruence|reflexivity].
  - destruct skip as [|k]; [|exact (IH k x Hx)].
    destruct (HasPrefix (String c s) sep) eqn:E.
    + cbn [splitLoop] in Hx. rewrite E in Hx.
      pose proof (splitLoop_nonempty sep s (String.length sep - 1) "") as Hn.
      destruct (splitLoop sep (String.length sep - 1) "" s) as [|y l] eqn:El; [congruence|].
      apply (IH (String.length sep - 1) x). rewrite El. exact Hx.
    + rewrite splitLoop_step in Hx by exact E.
      pose proof (Join_splitLoop sep s Hsep 0 "") as HJ.
      destruct (splitLoop sep 0 "" s) as [|p [|q l]] eqn:El.
      * discriminate Hx.
      * cbn in Hx. injection Hx as <-.
        change (Join [p] sep) with p in HJ.
        change (String.rev "" ++ dropChars 0 s) with s in HJ. subst p.
        change (String c "" ++ s) with (String c s).
        cbn [Contains]. rewrite E. apply (IH 0 s). rewrite El. reflexivity.
      * apply (IH 0 x). rewrite El. exact Hx.
Qed.

Lemma Join_snoc init lst sep :
  init <> [] -> Join (init ++ [lst]) sep = Join init sep ++ sep ++ lst.
Proof.
  induction init as [|x init IH]; [congruence|]. intros _.
  destruct init as [|y init].
  - reflexivity.
  - change ((x :: y :: init) ++ [lst])%list with (x :: ((y :: init) ++ [lst]))%list.
    rewrite Join_cons by (destruct init; discriminate).
    rewrite IH by discriminate. rewrite (Join_cons x (y :: init)) by discriminate.
    rewrite !append_assoc. reflexivity.
Qed.

(** Every list of pieces of a non-empty separator: the pieces before the
    last one, and a last piece without an occurrence. *)
Lemma Split_init_last s sep :
  sep <> "" ->
  exists init lst,
    Split s sep = (init ++ [lst])%list /\
    sliceInit (Split s sep) = Some init /\
    sliceLast (Split s sep) = Some lst /\
    Contains lst sep = false /\
    (Contains s sep = true -> init <> []) /\
    (Contains s sep = false -> init = [] /\ lst = s).
Proof.
  intros Hsep.
  assert (Split s sep = splitLoop sep 0 "" s) as ES
    by (destruct sep; [congruence|reflexivity]).
  pose proof (Split_nonempty s sep Hsep) as Hne.
  destruct (exists_last Hne) as (init & lst & E).
  exists init, lst. rewrite E.
  assert (last (init ++ [lst]) = Some lst) as Hlast by apply last_snoc.
  split; [reflexivity|]. split.
  - unfold sliceInit. destruct (init ++ [lst])%list eqn:E2.
    + destruct init; discriminate E2.
    + rewrite <- E2. rewrite removelast_last. reflexivity.
  - split; [exact Hlast|]. split.
    + apply (splitLoop_last_clean sep s Hsep 0). rewrite <- ES, E. exact Hlast.
    + split.
      * intros Hc Hi. subst init.
        pose proof (splitLoop_two_pieces sep s Hsep Hc) as H2.
        rewrite <- ES, E in H2. cbn in H2. lia.
      * intros Hc. rewrite (Split_no_occurrence s sep Hc) in E.
        destruct init as [|x init].
        -- injection E as ->. split; reflexivity.
        -- destruct init; discriminate E.
Qed.

End SplitFacts.

Module NameProperties.
Import StringFacts SplitFacts.

(** X1. For a non-empty delimiter [getResourceName] and
    [GetResourceBasename] give the same key, and the name is the key, the
    delimiter and a last piece that holds no delimiter, when the name holds
    the delimiter; otherwise the key is empty and the last piece is the
    whole name. *)
Theorem basename_is_name_without_last_piece :
  forall a delimiter : string,
    delimiter <> "" ->
    exists k lst,
      Utils.getResourceName a delimiter = Some k /\
      Janitor.GetResourceBasename a delimiter = Some k /\
      Contains lst delimiter = false /\
      (Contains a delimiter = true -> a = k ++ delimiter ++ lst) /\
      (Contains a delimiter = false -> k = "" /\ lst = a).
Proof.
  intros a d Hd.
  destruct (Split_init_last a d Hd) as (init & lst & E & Hi & _ & Hclean & Hyes & Hno).
  exists (Join init d), lst.
  unfold Utils.getResourceName, Janitor.GetResourceBasename. rewrite Hi. cbn.
  split; [reflexivity|]. split; [reflexivity|]. split; [exact Hclean|]. split.
  - intros Hc. rewrite <- (Join_Split a d) at 1. rewrite E.
    apply Join_snoc, Hyes, Hc.
  - intros Hc. destruct (Hno Hc) as [-> ->]. split; reflexivity.
Qed.

Lemma basename_is_name_without_last_piece_witness :
  exists k lst,
    Utils.getResourceName "web-front-12" "-" = Some k /\
    "web-front-12" = k ++ "-" ++ lst /\
    Contains lst "-" = false.
Proof.
  destruct (basename_is_name_without_last_piece "web-front-12" "-")
    as (k & lst & Hk & _ & Hclean & Hyes & _).
  - discriminate.
  - exists k, lst. split; [exact Hk|]. split; [apply Hyes; reflexivity|exact Hclean].
Defined.




(** X3. [GetResourceNameFromURL] and [sanitizeResourceURL] never run out
    of range; they give the same name, which holds no slash, and the URL is
    that name, or some text, a slash and that name. *)
Theorem name_from_URL_is_last_segment :
  forall z : string,
    exists name,
      Janitor.GetResourceNameFromURL z = Some name /\
      Delete.sanitizeResourceURL z = Some name /\
      Contains name "/" = false /\
      (Contains z "/" = true -> exists pre, z = pre ++ "/" ++ name) /\
      (Contains z "/" = false -> name = z).
Proof.
  intros z.
  destruct (Split_init_last z "/" ltac:(discriminate))
    as (init & lst & E & _ & Hl & Hclean & Hyes & Hno).
  exists lst. split; [exact Hl|]. split; [exact Hl|]. split; [exact Hclean|]. split.
  - intros Hc. exists (Join init "/"). rewrite <- (Join_Split z "/") at 1. rewrite E.
    apply Join_snoc, Hyes, Hc.
  - intros Hc. apply (Hno Hc).
Qed.

Lemma name_from_URL_is_last_segment_witness :
  exists name pre,
    Janitor.GetResourceNameFromURL
      "https://www.googleapis.com/compute/v1/projects/p/zones/us-east1-b" = Some name /\
    "https://www.googleapis.com/compute/v1/projects/p/zones/us-east1-b"
      = pre ++ "/" ++ name /\
    Contains name "/" = false.
Proof.
  destruct (name_from_URL_is_last_segment
              "https://www.googleapis.com/compute/v1/projects/p/zones/us-east1-b")
    as (name & Hn & _ & Hclean & Hyes & _).
  destruct (Hyes ltac:(reflexivity)) as [pre Hpre].
  exists name, pre. split; [exact Hn|]. split; [exact Hpre|exact Hclean].
Defined.

End NameProperties.

(* ===================================================================== *)
(** ** The first version of the singleton stage                           *)
(* ===================================================================== *)

Module FirstVersionProperties.
Import ProcFacts StringFacts.

Lemma dashKey_total r : is_Some (dashKey r).
Proof. apply getResourceName_total. discriminate. Qed.

(** [resourceNamesMatch] never panics and compares the keys cut at ["-"],
    whatever delimiter it is given. *)
Lemma resourceNamesMatch_dash (x y : Resource) delimiter :
  UtilsV1.resourceNamesMatch (Name x) (Name y) delimiter
  = Some (bool_decide (dashKey x = dashKey y)).
Proof.
  destruct (dashKey_total x) as [kx Hx], (dashKey_total y) as [ky Hy].
  rewrite Hx, Hy. unfold dashKey, Utils.getResourceName in Hx, Hy.
  unfold UtilsV1.resourceNamesMatch.
  destruct (sliceInit (Split (Name x) "-")) as [ix|]; [|discriminate Hx].
  destruct (sliceInit (Split (Name y) "-")) as [iy|]; [|discriminate Hy].
  cbn in *. injection Hx as <-. injection Hy as <-. f_equal.
  destruct (String.eqb_spec (Join ix "-") (Join iy "-")) as [E|E].
  - rewrite bool_decide_eq_true_2; [reflexivity|congruence].
  - rewrite bool_decide_eq_false_2; [reflexivity|congruence].
Qed.

Lemma excluded_returns r reason : returns (UtilsV1.excluded r reason) tt.
Proof. reflexivity. Qed.

(** The loop appends the resources followed by one of their kin; the
    variable [singleton] has no part in the result. *)
Lemma adjacentLoop_returns delimiter : forall rest prev singleton acc,
  returns (UtilsV1.adjacentLoop delimiter prev rest singleton acc)
          (acc ++ followedByKin (prev :: rest))%list.
Proof.
  induction rest as [|cur rest IH]; intros prev singleton acc.
  - cbn. rewrite app_nil_r. reflexivity.
  - cbn [UtilsV1.adjacentLoop followedByKin].
    rewrite resourceNamesMatch_dash.
    eapply returns_bind; [reflexivity|].
    destruct (decide (dashKey prev = dashKey cur)) as [E|E].
    + rewrite bool_decide_eq_true_2 by exact E.
      eapply returns_bind with (a := tt); [destruct rest; reflexivity|].
      specialize (IH cur UtilsV1.emptyImage (acc ++ [prev])%list).
      rewrite <- app_assoc in IH. exact IH.
    + rewrite bool_decide_eq_false_2 by exact E.
      destruct (negb (String.eqb (Name singleton) "")).
      * eapply returns_bind; [apply excluded_returns|]. apply IH.
      * eapply returns_bind; [apply excluded_returns|].
        eapply returns_bind with (a := tt); [destruct rest; reflexivity|]. apply IH.
Qed.

Lemma followedByKin_elem l : forall x,
  x ∈ followedByKin l <->
  exists i y, l !! i = Some x /\ l !! S i = Some y /\ dashKey x = dashKey y.
Proof.
  induction l as [|a l IH]; intros x.
  - cbn. split; [intros H; inversion H|]. intros (i & y & H & _). discriminate H.
  - destruct l as [|b l].
    + cbn. split; [intros H; inversion H|].
      intros (i & y & _ & H & _). destruct i; discriminate H.
    + cbn [followedByKin].
      assert (x ∈ followedByKin (b :: l) <->
              exists i y, (a :: b :: l) !! S i = Some x /\
                          (a :: b :: l) !! S (S i) = Some y /\ dashKey x = dashKey y)
        as Htail by apply IH.
      split.
      * intros H. destruct (decide (dashKey a = dashKey b)) as [E|E].
        -- apply elem_of_cons in H as [->|H].
           ++ exists 0, b. split; [reflexivity|]. split; [reflexivity|exact E].
           ++ apply Htail in H as (i & y & H1 & H2 & H3). exists (S i), y. auto.
        -- apply Htail in H as (i & y & H1 & H2 & H3). exists (S i), y. auto.
      * intros (i & y & H1 & H2 & H3). destruct i as [|i].
        -- cbn in H1, H2. injection H1 as <-. injection H2 as <-.
           rewrite decide_True by exact H3. apply list_elem_of_here.
        -- assert (x ∈ followedByKin (b :: l)) as Hin by (apply Htail; eauto).
           destruct (decide _); [apply list_elem_of_further|]; exact Hin.
Qed.

(** X4. The first version of [getNonSingletonImages] (and of
    [getNonSingletonInstances]) always returns, and hands on exactly the
    resources whose successor in the listing has the same name up to its
    last ["-"], in order. The delimiter it is given plays no part, and a
    resource is never handed on for a kin listed before it or further
    away. *)
Theorem first_version_hands_on_resources_followed_by_kin :
  forall (l : list Resource) (delimiter : string),
    returns (UtilsV1.getNonSingletonImages l delimiter) (followedByKin l) /\
    returns (UtilsV1.getNonSingletonInstances l delimiter) (followedByKin l) /\
    (forall a b d, UtilsV1.resourceNamesMatch (Name a) (Name b) d
                   = Some (bool_decide (dashKey a = dashKey b))) /\
    (forall x, x ∈ followedByKin l <->
       exists i y, l !! i = Some x /\ l !! S i = Some y /\ dashKey x = dashKey y).
Proof.
  intros l delimiter.
  assert (returns (UtilsV1.getNonSingletonImages l delimiter) (followedByKin l)) as H.
  { destruct l as [|first rest]; [reflexivity|].
    apply (adjacentLoop_returns delimiter rest first first []). }
  split; [exact H|]. split; [exact H|]. split.
  - intros a b d. apply resourceNamesMatch_dash.
  - apply followedByKin_elem.
Qed.

End FirstVersionProperties.

(* ===================================================================== *)
(** ** Laws of computations                                               *)
(* ===================================================================== *)

Module ProcLaws.
Import ProcFacts.

Lemma bind_assoc {A B C} (m : Proc A) (f : A -> Proc B) (g : B -> Proc C) :
  bind (bind m f) g = bind m (fun a => bind (f a) g).
Proof.
  destruct m as [ev [a| |]]; cbn; try reflexivity.
  destruct (f a) as [ev2 [b| |]]; cbn; try reflexivity.
  destruct (g b) as [ev3 o]. rewrite app_assoc. reflexivity.
Qed.

Lemma bind_ext {A B} (m : Proc A) (f g : A -> Proc B) :
  (forall a, f a = g a) -> bind m f = bind m g.
Proof.
  intros H. destruct m as [ev [a| |]]; cbn; try reflexivity. rewrite H. reflexivity.
Qed.

Lemma bind_ret_r {A} (m : Proc A) : bind m ret = m.
Proof.
  destruct m as [ev [a| |]]; cbn; try reflexivity. rewrite app_nil_r. reflexivity.
Qed.

(** A loop over two lists one after the other. *)
Lemma forEach_app {A S} (body : A -> S -> Proc S) l1 l2 s :
  forEach body (l1 ++ l2) s = bind (forEach body l1 s) (forEach body l2).
Proof.
  revert s. induction l1 as [|x l1 IH]; intros s.
  - cbn [app forEach]. rewrite bind_ret_l. reflexivity.
  - cbn [app forEach]. rewrite bind_assoc. apply bind_ext. exact IH.
Qed.

Lemma result_bind_panics {A B} (m : Proc A) (f : A -> Proc B) :
  result m = Panics -> result (bind m f) = Panics.
Proof. destruct m as [ev [a| |]]; cbn; intros H; congruence. Qed.

Lemma result_bind_exits {A B} (m : Proc A) (f : A -> Proc B) :
  result m = Exits -> result (bind m f) = Exits.
Proof. destruct m as [ev [a| |]]; cbn; intros H; congruence. Qed.

Lemma length_events_bind {A B} (m : Proc A) (f : A -> Proc B) a :
  returns m a -> length (events (bind m f)) = length (events m) + length (events (f a)).
Proof. intros H. rewrite (events_bind m f a H). apply length_app. Qed.

End ProcLaws.

(* ===================================================================== *)
(** ** The listing loops                                                  *)
(* ===================================================================== *)

Module ListingProperties.
Import ProcFacts ProcLaws BlacklistFacts.

Section WithCompile.

Variable Compile : string -> option (string -> bool).

Lemma pageLoop_app k A B blacklist acc :
  Utils.pageLoop Compile k (A ++ B) blacklist acc
  = bind (Utils.pageLoop Compile k A blacklist acc) (Utils.pageLoop Compile k B blacklist).
Proof. unfold Utils.pageLoop. apply forEach_app. Qed.

(** The listing loop is the loop over the items of all pages up to the
    first failing call, followed by the answer: the list, or the error of
    that call. *)
Lemma listLoop_pages k blacklist : forall l acc,
  Utils.listLoop Compile k l blacklist acc
  = bind (Utils.pageLoop Compile k (pageItems l) blacklist acc)
         (fun all => ret match failure l with
                         | None => Ok all
                         | Some err =>
                             Err (Errorf ("utils.go: Error getting " ++ Utils.nouns k ++ ": %s") err)
                         end).
Proof.
  induction l as [err|Items|Items next IH]; intros acc;
    cbn [Utils.listLoop pageItems failure].
  - unfold Utils.pageLoop. cbn [forEach]. rewrite bind_ret_l. reflexivity.
  - reflexivity.
  - rewrite pageLoop_app, bind_assoc. apply bind_ext. exact IH.
Qed.


End WithCompile.

(** X5. When every pattern of the blacklist compiles, the listing loop of
    [GetOldAndNonSingletonImages] and [GetOldAndNonSingletonInstances]
    appends every item of a page once for each pattern its name does not
    match, in order: an item is kept exactly when it misses at least one
    pattern, that is, it is dropped exactly when it matches them all. *)
Theorem listing_keeps_what_misses_a_pattern :
  forall Compile (k : Utils.kind) (blacklist : list string) (Items acc : list Resource),
    Forall (fun p => is_Some (Compile p)) blacklist ->
    exists out,
      returns (Utils.pageLoop Compile k Items blacklist acc) (acc ++ out)%list /\
      out = flat_map (fun r => replicate (length (missed Compile (Name r) blacklist)) r) Items /\
      (forall r, r ∈ out <->
         r ∈ Items /\ exists p, p ∈ blacklist /\ misses Compile (Name r) p).
Proof.
  intros Compile k blacklist Items acc Hc. eexists.
  split; [apply FilterClaims.pageLoop_returns, Hc|]. split; [reflexivity|].
  intros r. rewrite list_elem_of_In, in_flat_map. split.
  - intros (x & Hx & Hr). apply list_elem_of_In, elem_of_replicate in Hr as [-> Hn].
    split; [apply list_elem_of_In, Hx|].
    destruct (missed Compile (Name x) blacklist) as [|p l] eqn:E; [cbn in Hn; congruence|].
    assert (p ∈ filter (misses Compile (Name x)) blacklist) as Hp
      by (unfold missed in E; rewrite E; apply list_elem_of_here).
    apply list_elem_of_filter in Hp as [Hm Hp]. exists p. split; assumption.
  - intros (Hin & p & Hp & Hm). exists r. split; [apply list_elem_of_In, Hin|].
    apply list_elem_of_In, elem_of_replicate. split; [reflexivity|].
    assert (p ∈ missed Compile (Name r) blacklist) as Hpm
      by (apply list_elem_of_filter; split; assumption).
    destruct (missed Compile (Name r) blacklist); [inversion Hpm|discriminate].
Qed.

Lemma listing_keeps_what_misses_a_pattern_witness :
  exists out,
    returns (Utils.pageLoop GoRegexp.compile Utils.KImage [Sample.tmp9; Sample.web1]
               ["^tmp-.*"; "^tmp-eph.*"] []) out /\
    (Sample.web1 ∈ out) /\ (Sample.tmp9 ∉ out).
Proof.
  destruct (listing_keeps_what_misses_a_pattern GoRegexp.compile Utils.KImage
              ["^tmp-.*"; "^tmp-eph.*"] [Sample.tmp9; Sample.web1] [])
    as (out & Hout & _ & Hiff).
  - repeat constructor; vm_compute; eexists; reflexivity.
  - exists out. split; [exact Hout|]. split.
    + apply Hiff. split; [apply list_elem_of_further, list_elem_of_here|].
      exists "^tmp-.*". split; [apply list_elem_of_here|vm_compute; reflexivity].
    + intros H. apply Hiff in H as (_ & p & Hp & Hm).
      apply elem_of_cons in Hp as [->|Hp]; [vm_compute in Hm; discriminate|].
      apply elem_of_cons in Hp as [->|Hp]; [vm_compute in Hm; discriminate|inversion Hp].
Defined.

(** X6. The listing loop does not depend on how the items are cut into
    pages: it is the blacklist loop over the items of all pages, in order,
    followed by the list it built. When a listing call fails, the loop has
    run over the pages before it, and the answer is the error of that call
    and no list. *)
Theorem listing_pages_are_transparent :
  forall Compile (k : Utils.kind) (l : Listing) (blacklist : list string)
         (acc : list Resource),
    (failure l = None ->
       Utils.listLoop Compile k l blacklist acc
       = bind (Utils.pageLoop Compile k (pageItems l) blacklist acc)
              (fun all => ret (Ok all))) /\
    (forall err, failure l = Some err ->
       Utils.listLoop Compile k l blacklist acc
       = bind (Utils.pageLoop Compile k (pageItems l) blacklist acc)
              (fun _ => ret (Err (Errorf ("utils.go: Error getting " ++ Utils.nouns k ++ ": %s")
                                         err)))).
Proof.
  intros Compile k l blacklist acc. rewrite listLoop_pages. split.
  - intros ->. reflexivity.
  - intros err ->. reflexivity.
Qed.

Lemma listing_pages_are_transparent_witness :
  Utils.listLoop GoRegexp.compile Utils.KImage
    (MorePages [Sample.web2] (MorePages [] (LastPage [Sample.web1]))) ["^tmp-.*"] []
  = Utils.listLoop GoRegexp.compile Utils.KImage
      (LastPage [Sample.web2; Sample.web1]) ["^tmp-.*"] [] /\
  result (Utils.listLoop GoRegexp.compile Utils.KImage
            (MorePages [Sample.web2] (ListFails (ApiError "backend error"))) ["^tmp-.*"] [])
  = Returns (Err (Errorf "utils.go: Error getting images: %s" (ApiError "backend error"))).
Proof.
  split.
  - rewrite (proj1 (listing_pages_are_transparent GoRegexp.compile Utils.KImage
                      (MorePages [Sample.web2] (MorePages [] (LastPage [Sample.web1])))
                      ["^tmp-.*"] [])) by reflexivity.
    reflexivity.
  - rewrite (proj2 (listing_pages_are_transparent GoRegexp.compile Utils.KImage
                      (MorePages [Sample.web2] (ListFails (ApiError "backend error")))
                      ["^tmp-.*"] []) (ApiError "backend error")) by reflexivity.
    vm_compute. reflexivity.
Defined.

(** Membership in the list the blacklist loops build. *)
Lemma expand_elem Compile blacklist (Items : list Resource) r :
  r ∈ flat_map (fun r => replicate (length (missed Compile (Name r) blacklist)) r) Items <->
  r ∈ Items /\ exists p, p ∈ blacklist /\ misses Compile (Name r) p.
Proof.
  rewrite list_elem_of_In, in_flat_map. split.
  - intros (x & Hx & Hr). apply list_elem_of_In, elem_of_replicate in Hr as [-> Hn].
    split; [apply list_elem_of_In, Hx|].
    destruct (missed Compile (Name x) blacklist) as [|p l] eqn:E; [cbn in Hn; congruence|].
    assert (p ∈ filter (misses Compile (Name x)) blacklist) as Hp
      by (unfold missed in E; rewrite E; apply list_elem_of_here).
    apply list_elem_of_filter in Hp as [Hm Hp]. exists p. split; assumption.
  - intros (Hin & p & Hp & Hm). exists r. split; [apply list_elem_of_In, Hin|].
    apply list_elem_of_In, elem_of_replicate. split; [reflexivity|].
    assert (p ∈ missed Compile (Name r) blacklist) as Hpm
      by (apply list_elem_of_filter; split; assumption).
    destruct (missed Compile (Name r) blacklist); [inversion Hpm|discriminate].
Qed.

(** The inner loop of [Blacklist] of tools/janitor. *)
Lemma janitor_inner_returns Compile pk im : forall patterns bi,
  Forall (fun p => is_Some (Compile p)) patterns ->
  returns
    (forEach (fun p bi =>
                bind (orPanic (Compile p))
                  (fun r => if negb (r (Name im))
                            then ret (bi ++ [im])%list
                            else bind (logInfo (Janitor.blacklistedMsg pk)
                                         (Janitor.blacklistedFields pk (Name im) p))
                                   (fun _ => ret bi)))
             patterns bi)
    (bi ++ replicate (length (missed Compile (Name im) patterns)) im)%list.
Proof.
  induction patterns as [|p patterns IH]; intros bi Hc.
  - cbn. rewrite app_nil_r. reflexivity.
  - apply Forall_cons in Hc as [[re Hre] Hc]. cbn [forEach].
    rewrite Hre. cbn [orPanic]. rewrite bind_ret_l. unfold missed.
    destruct (re (Name im)) eqn:E; cbn [negb].
    + rewrite filter_cons_False by (unfold misses; rewrite Hre; congruence).
      eapply returns_bind; [|apply IH, Hc].
      eapply returns_bind; reflexivity.
    + rewrite filter_cons_True by (unfold misses; rewrite Hre; exact E).
      rewrite bind_ret_l. cbn [length replicate].
      specialize (IH (bi ++ [im])%list Hc). rewrite <- app_assoc in IH. exact IH.
Qed.


Lemma setItems_same i : Janitor.setItems i (Janitor.Items i) = i.
Proof. destruct i. reflexivity. Qed.

(** X7. [Blacklist] of tools/janitor, when every pattern compiles, leaves
    every field but [Items] as it was. Without patterns [Items] is
    unchanged; with patterns an item is kept once for each pattern it does
    not match, so it is removed exactly when it matches every pattern. *)
Theorem Blacklist_removes_what_matches_every_pattern :
  forall Compile (pk : Janitor.package) (i : Janitor.JanitorMetadata),
    Forall (fun p => is_Some (Compile p)) (Janitor.BlacklistPatterns i) ->
    exists items,
      returns (Janitor.Blacklist Compile pk i) (Janitor.setItems i items) /\
      (Janitor.BlacklistPatterns i = [] -> items = Janitor.Items i) /\
      (Janitor.BlacklistPatterns i <> [] ->
         items = flat_map (fun r => replicate
                             (length (missed Compile (Name r) (Janitor.BlacklistPatterns i))) r)
                          (Janitor.Items i)) /\
      (forall r, r ∈ items <->
         r ∈ Janitor.Items i /\
         (Janitor.BlacklistPatterns i = [] \/
          exists p, p ∈ Janitor.BlacklistPatterns i /\ misses Compile (Name r) p)).
Proof.
  intros Compile pk i Hc. unfold Janitor.Blacklist.
  destruct (Janitor.BlacklistPatterns i) as [|p0 ps] eqn:Ep.
  - exists (Janitor.Items i). cbn [length Nat.eqb]. rewrite setItems_same.
    split; [reflexivity|]. split; [reflexivity|]. split; [congruence|].
    intros r. split; [intros H; split; [exact H|left; reflexivity]|intros [H _]; exact H].
  - cbn [length Nat.eqb]. eexists. split; [|split; [discriminate|split; [reflexivity|]]].
    + eapply returns_bind; [|reflexivity].
      match goal with |- returns (forEach ?f _ _) _ => set (outer := f) end.
      assert (forall items bi,
                returns (forEach outer items bi)
                  (bi ++ flat_map (fun r => replicate
                           (length (missed Compile (Name r) (p0 :: ps))) r) items)%list) as H.
      { induction items as [|im items IH]; intros bi.
        - cbn. rewrite app_nil_r. reflexivity.
        - cbn [forEach flat_map].
          eapply returns_bind;
            [apply (janitor_inner_returns Compile pk im (p0 :: ps) bi Hc)|].
          rewrite app_assoc. apply IH. }
      apply (H (Janitor.Items i) []).
    + intros r. rewrite expand_elem. split.
      * intros [H1 H2]. split; [exact H1|right; exact H2].
      * intros [H1 [H2|H2]]; [discriminate H2|]. split; assumption.
Qed.

Lemma Blacklist_removes_what_matches_every_pattern_witness :
  exists items,
    returns (Janitor.Blacklist GoRegexp.compile Janitor.PImages
               (Sample.metadata [Sample.tmp9; Sample.web1] ["^tmp-.*"; "^tmp-eph.*"]))
            (Sample.metadata items ["^tmp-.*"; "^tmp-eph.*"]) /\
    (Sample.tmp9 ∉ items) /\ (Sample.web1 ∈ items).
Proof.
  destruct (Blacklist_removes_what_matches_every_pattern GoRegexp.compile Janitor.PImages
              (Sample.metadata [Sample.tmp9; Sample.web1] ["^tmp-.*"; "^tmp-eph.*"]))
    as (items & Hret & _ & _ & Hiff).
  - repeat constructor; vm_compute; eexists; reflexivity.
  - exists items. split; [exact Hret|]. split.
    + intros H. apply Hiff in H as (_ & [H|(p & Hp & Hm)]); [discriminate H|].
      apply elem_of_cons in Hp as [->|Hp]; [vm_compute in Hm; discriminate|].
      apply elem_of_cons in Hp as [->|Hp]; [vm_compute in Hm; discriminate|inversion Hp].
    + apply Hiff. split; [apply list_elem_of_further, list_elem_of_here|].
      right. exists "^tmp-.*". split; [apply list_elem_of_here|vm_compute; reflexivity].
Defined.



(** X9. [GetOldAndNonSingletonInstances] runs the blacklist loop over the
    instances of all zones, zone after zone and page after page, up to the
    first failing listing call; its error is then the answer and nothing
    listed before is used. A failed zone listing, by contrast, is not
    returned as an error: the function ends the process itself. *)
Theorem instances_are_listed_zone_after_zone :
  forall Compile Parse (zones : list Listing) (blacklist : list string)
         (t : GoTime.Time) (deleteSingletons : bool) (delimiter : string),
    (forall acc,
       Utils.zonesLoop Compile zones blacklist acc
       = bind (Utils.pageLoop Compile Utils.KInstance (zoneItems zones) blacklist acc)
              (fun all => ret match zoneFailure zones with
                              | None => Ok all
                              | Some err =>
                                  Err (Errorf "utils.go: Error getting instances: %s" err)
                              end)) /\
    (forall err all, zoneFailure zones = Some err ->
       returns (Utils.pageLoop Compile Utils.KInstance (zoneItems zones) blacklist []) all ->
       returns (Utils.GetOldAndNonSingletonInstances Compile Parse (Ok zones) t
                  deleteSingletons blacklist delimiter)
               (Err (Errorf "utils.go: Error getting instances: %s" err))) /\
    (forall err,
       Utils.GetOldAndNonSingletonInstances Compile Parse (Err err) t deleteSingletons
         blacklist delimiter
       = ([Fatalf "utils.go: Unable to get list of zones: %s" [AErr err]], Exits)).
Proof.
  intros Compile Parse zones blacklist t ds d.
  assert (forall acc,
       Utils.zonesLoop Compile zones blacklist acc
       = bind (Utils.pageLoop Compile Utils.KInstance (zoneItems zones) blacklist acc)
              (fun all => ret match zoneFailure zones with
                              | None => Ok all
                              | Some err =>
                                  Err (Errorf "utils.go: Error getting instances: %s" err)
                              end)) as Hz.
  { induction zones as [|l zones IH]; intros acc; cbn [Utils.zonesLoop zoneItems zoneFailure].
    - unfold Utils.pageLoop. cbn [forEach]. rewrite bind_ret_l. reflexivity.
    - rewrite listLoop_pages, bind_assoc.
      destruct (failure l) as [err|].
      + apply bind_ext. intros a. rewrite bind_ret_l. reflexivity.
      + rewrite pageLoop_app, bind_assoc. apply bind_ext. intros a.
        rewrite bind_ret_l. apply IH. }
  split; [exact Hz|]. split; [|reflexivity].
  intros err all Hf Hall. unfold Utils.GetOldAndNonSingletonInstances.
  apply (returns_bind _ _ (Err (Errorf "utils.go: Error getting instances: %s" err)));
    [|reflexivity].
  rewrite Hz, Hf. eapply returns_bind; [exact Hall|]. reflexivity.
Qed.

Lemma instances_are_listed_zone_after_zone_witness :
  returns (Utils.GetOldAndNonSingletonInstances GoRegexp.compile GoTime.parseRFC3339
             (Ok [LastPage [Sample.web1]; MorePages [Sample.web2] (ListFails (ApiError "quota"))])
             Sample.threshold false ["^tmp-.*"] "-")
          (Err (Errorf "utils.go: Error getting instances: %s" (ApiError "quota"))).
Proof.
  apply (proj1 (proj2 (instances_are_listed_zone_after_zone GoRegexp.compile
                         GoTime.parseRFC3339
                         [LastPage [Sample.web1];
                          MorePages [Sample.web2] (ListFails (ApiError "quota"))]
                         ["^tmp-.*"] Sample.threshold false "-"))
               (ApiError "quota") [Sample.web1; Sample.web2]).
  - reflexivity.
  - vm_compute. reflexivity.
Defined.

End ListingProperties.

(* ===================================================================== *)
(** ** The age stage, in full                                             *)
(* ===================================================================== *)

Module AgeProperties.
Import ProcFacts ProcLaws AgeFacts.

Section WithParse.

Variable Parse : string -> option GoTime.Time.

Lemma getOldLoop_events_parsed k t : forall l acc,
  Forall (fun r => is_Some (stamp Parse r)) l ->
  length (events (Utils.getOldLoop Parse k l t acc)) = length l.
Proof.
  induction l as [|x l IH]; intros acc Hl; [reflexivity|].
  apply Forall_cons in Hl as [[s Hs] Hl]. unfold stamp in Hs.
  cbn [Utils.getOldLoop]. unfold Utils.parseCreationTimestamp. rewrite Hs.
  destruct (GoTime.Before s t);
    rewrite (length_events_bind _ _ tt) by apply returns_printf;
    rewrite IH by exact Hl; reflexivity.
Qed.

Lemma getOldLoop_first_unparsable k t x post : forall pre acc,
  Forall (fun r => is_Some (stamp Parse r)) pre ->
  stamp Parse x = None ->
  returns (Utils.getOldLoop Parse k (pre ++ x :: post) t acc)
          (Err (Errorf "utils.go: Failed to parse timestamp: %v"
                  (ParseError (CreationTimestamp x)))) /\
  events (Utils.getOldLoop Parse k (pre ++ x :: post) t acc)
  = events (Utils.getOldLoop Parse k pre t acc).
Proof.
  induction pre as [|y pre IH]; intros acc Hpre Hx.
  - cbn [app Utils.getOldLoop]. unfold Utils.parseCreationTimestamp.
    unfold stamp in Hx. rewrite Hx. split; reflexivity.
  - apply Forall_cons in Hpre as [[s Hs] Hpre]. unfold stamp in Hs.
    change ((y :: pre) ++ x :: post)%list with (y :: (pre ++ x :: post))%list.
    cbn [Utils.getOldLoop]. unfold Utils.parseCreationTimestamp. rewrite Hs.
    destruct (GoTime.Before s t).
    + destruct (IH (acc ++ [y])%list Hpre Hx) as [H1 H2]. split.
      * eapply returns_bind; [apply returns_printf|exact H1].
      * rewrite !(events_bind _ _ tt) by apply returns_printf. rewrite H2. reflexivity.
    + destruct (IH acc Hpre Hx) as [H1 H2]. split.
      * eapply returns_bind; [apply returns_printf|exact H1].
      * rewrite !(events_bind _ _ tt) by apply returns_printf. rewrite H2. reflexivity.
Qed.

End WithParse.

(** X10. The age stage examines its input in order and stops at the
    first creation timestamp that does not parse: its error names that
    timestamp, its log is the log of the resources before it, one line for
    each, and the resources behind it are never looked at. *)
Theorem age_stage_stops_at_first_unparsable :
  forall Parse (k : Utils.kind) (t : GoTime.Time) (pre post : list Resource) (x : Resource),
    Forall (fun r => is_Some (stamp Parse r)) pre ->
    stamp Parse x = None ->
    returns (Utils.getOld Parse k (pre ++ x :: post) t)
            (Err (Errorf "utils.go: Failed to parse timestamp: %v"
                    (ParseError (CreationTimestamp x)))) /\
    events (Utils.getOld Parse k (pre ++ x :: post) t) = events (Utils.getOld Parse k pre t) /\
    length (events (Utils.getOld Parse k pre t)) = length pre.
Proof.
  intros Parse k t pre post x Hpre Hx. unfold Utils.getOld.
  destruct (getOldLoop_first_unparsable Parse k t x post pre [] Hpre Hx) as [H1 H2].
  split; [exact H1|]. split; [exact H2|].
  apply getOldLoop_events_parsed, Hpre.
Qed.

Lemma age_stage_stops_at_first_unparsable_witness :
  returns (Utils.getOld GoTime.parseRFC3339 Utils.KImage
             ([Sample.web2; Sample.web1] ++ Sample.broken :: [Sample.api1]) Sample.threshold)
          (Err (Errorf "utils.go: Failed to parse timestamp: %v"
                  (ParseError (CreationTimestamp Sample.broken)))) /\
  length (events (Utils.getOld GoTime.parseRFC3339 Utils.KImage
                    ([Sample.web2; Sample.web1] ++ Sample.broken :: [Sample.api1])
                    Sample.threshold)) = 2.
Proof.
  destruct (age_stage_stops_at_first_unparsable GoTime.parseRFC3339 Utils.KImage
              Sample.threshold [Sample.web2; Sample.web1] [Sample.api1] Sample.broken)
    as (H1 & H2 & H3).
  - repeat constructor; vm_compute; eexists; reflexivity.
  - vm_compute. reflexivity.
  - split; [exact H1|]. rewrite H2. exact H3.
Defined.

End AgeProperties.

(* ===================================================================== *)
(** ** The listing of tools/janitor                                       *)
(* ===================================================================== *)

Module RefreshProperties.
Import ProcFacts ProcLaws JanitorListing.

Section WithClient.

Variable Family : Resource -> string.
Variable errorText : error -> string.

Lemma foundLoop_returns pk project zone : forall Items itl,
  returns (foundLoop Family pk project zone Items itl) (itl ++ Items)%list.
Proof.
  unfold foundLoop. induction Items as [|x Items IH]; intros itl.
  - cbn. rewrite app_nil_r. reflexivity.
  - cbn [forEach]. eapply returns_bind.
    + eapply returns_bind; reflexivity.
    + specialize (IH (itl ++ [x])%list). rewrite <- app_assoc in IH. exact IH.
Qed.

Lemma refreshLoop_result pk project zone : forall l itl,
  result (refreshLoop Family pk project zone l itl)
  = match failure l with
    | None => Returns (itl ++ pageItems l)%list
    | Some _ => Exits
    end.
Proof.
  induction l as [err|Items|Items next IH]; intros itl; cbn [refreshLoop failure pageItems].
  - reflexivity.
  - apply foundLoop_returns.
  - rewrite (result_bind _ _ _ (foundLoop_returns pk project zone Items itl)).
    rewrite IH. destruct (failure next); [reflexivity|]. rewrite app_assoc. reflexivity.
Qed.

Lemma zoneFailure_map_cons (zone : string) l (zones : list (string * Listing)) :
  zoneFailure (map snd ((zone, l) :: zones))
  = match failure l with Some err => Some err | None => zoneFailure (map snd zones) end.
Proof. reflexivity. Qed.

Lemma refreshZones_result project : forall zones itl,
  result (refreshZones Family project zones itl)
  = match zoneFailure (map snd zones) with
    | None => Returns (itl ++ zoneItems (map snd zones))%list
    | Some _ => Exits
    end.
Proof.
  induction zones as [|[zone l] zones IH]; intros itl.
  - cbn. rewrite app_nil_r. reflexivity.
  - cbn [refreshZones]. rewrite zoneFailure_map_cons.
    pose proof (refreshLoop_result Janitor.PInstances project zone l itl) as Hl.
    cbn [map snd zoneItems]. destruct (failure l) as [err|].
    + apply result_bind_exits, Hl.
    + rewrite (result_bind _ _ _ Hl). rewrite IH.
      destruct (zoneFailure (map snd zones)); [reflexivity|].
      rewrite app_assoc. reflexivity.
Qed.

End WithClient.

(** X11. [Refresh] of tools/janitor replaces [Items] by the resources of
    all pages (of all zones, for instances) in the order listed, whatever
    [Items] held before, and leaves the other fields alone; the error it
    returns is always nil, because a listing call that fails ends the
    process instead. *)
Theorem Refresh_replaces_Items :
  forall Family errorText (i : Janitor.JanitorMetadata),
    (forall imageList,
       result (RefreshImages Family imageList i)
       = match failure imageList with
         | None => Returns (Janitor.setItems i (pageItems imageList), None)
         | Some _ => Exits
         end) /\
    (forall zones,
       result (RefreshInstances Family errorText (Ok zones) i)
       = match zoneFailure (map snd zones) with
         | None => Returns (Janitor.setItems i (zoneItems (map snd zones)), None)
         | Some _ => Exits
         end) /\
    (forall err, result (RefreshInstances Family errorText (Err err) i) = Exits).
Proof.
  intros Family errorText i. split; [|split].
  - intros l. unfold RefreshImages.
    pose proof (refreshLoop_result Family Janitor.PImages (Janitor.Project i) "" l []) as Hl.
    destruct (failure l).
    + apply result_bind_exits, Hl.
    + rewrite (result_bind _ _ _ Hl). reflexivity.
  - intros zones. unfold RefreshInstances.
    pose proof (refreshZones_result Family (Janitor.Project i) zones []) as Hz.
    destruct (zoneFailure (map snd zones)).
    + apply result_bind_exits, Hz.
    + rewrite (result_bind _ _ _ Hz). reflexivity.
  - reflexivity.
Qed.

End RefreshProperties.

(* ===================================================================== *)
(** ** The two singleton stages                                           *)
(* ===================================================================== *)

Module SingletonProperties.
Import ProcFacts ProcLaws StringFacts SingletonFacts.

Lemma singleton_steps_agree k pk d x (m : gmap string string)
    (nsm : gmap string Janitor.nsmEntry) ns :
  dom m = dom nsm ->
  match result (Utils.nonSingletonStep k d x (m, ns)) with
  | Returns (m', ns') =>
      exists nsm', returns (Janitor.singletonsStep pk d x (nsm, ns)) (nsm', ns') /\
                   dom m' = dom nsm'
  | Exits => False
  | Panics => result (Janitor.singletonsStep pk d x (nsm, ns)) = Panics
  end.
Proof.
  intros Hdom. unfold Utils.nonSingletonStep, Janitor.singletonsStep.
  change (Janitor.GetResourceBasename (Name x) d) with (Utils.getResourceName (Name x) d).
  destruct (Utils.getResourceName (Name x) d) as [key|]; [|reflexivity].
  cbn [orPanic]. rewrite !bind_ret_l.
  destruct (m !! key) as [v|] eqn:Em.
  - assert (is_Some (nsm !! key)) as [e He]
      by (apply elem_of_dom; rewrite <- Hdom; apply elem_of_dom; eauto).
    rewrite He. cbn. eexists. split; [reflexivity|].
    rewrite dom_insert_L. apply elem_of_dom_2 in He.
    rewrite subseteq_union_1_L; [exact Hdom|apply singleton_subseteq_l; exact He].
  - assert (nsm !! key = None) as He
      by (apply not_elem_of_dom; rewrite <- Hdom; apply not_elem_of_dom; exact Em).
    rewrite He. cbn. eexists. split; [reflexivity|].
    rewrite !dom_insert_L. rewrite Hdom. reflexivity.
Qed.

Lemma singleton_loops_agree k pk d : forall l (m : gmap string string)
    (nsm : gmap string Janitor.nsmEntry) ns,
  dom m = dom nsm ->
  match result (forEach (Utils.nonSingletonStep k d) l (m, ns)) with
  | Returns (m', ns') =>
      exists nsm', returns (forEach (Janitor.singletonsStep pk d) l (nsm, ns)) (nsm', ns')
  | Exits => False
  | Panics => result (forEach (Janitor.singletonsStep pk d) l (nsm, ns)) = Panics
  end.
Proof.
  induction l as [|x l IH]; intros m nsm ns Hdom.
  - cbn. exists nsm. reflexivity.
  - cbn [forEach]. pose proof (singleton_steps_agree k pk d x m nsm ns Hdom) as Hs.
    destruct (result (Utils.nonSingletonStep k d x (m, ns))) as [[m' ns']| |] eqn:E.
    + destruct Hs as (nsm' & Hs & Hdom').
      rewrite (result_bind _ _ (m', ns') E). specialize (IH m' nsm' ns' Hdom').
      destruct (result (forEach (Utils.nonSingletonStep k d) l (m', ns'))) as [[m2 ns2]| |].
      * destruct IH as [nsm2 IH]. exists nsm2. eapply returns_bind; [exact Hs|exact IH].
      * destruct IH.
      * rewrite (result_bind _ _ _ Hs). exact IH.
    + destruct Hs.
    + rewrite (result_bind_panics _ _ E). apply result_bind_panics, Hs.
Qed.

Lemma janitor_report_returns pk (nsm : gmap string Janitor.nsmEntry) :
  returns (forEach (fun (kv : string * Janitor.nsmEntry) (_ : unit) =>
                      if Janitor.Singleton (snd kv)
                      then logInfo (Janitor.Thing pk ++ " is a singleton")
                                   [("name", AStr (Janitor.entryName (snd kv)))]
                      else ret tt)
                   (map_to_list nsm) tt) tt.
Proof.
  generalize (map_to_list nsm) as l. induction l as [|x l IH]; [reflexivity|].
  cbn [forEach]. eapply returns_bind; [|apply IH].
  destruct (Janitor.Singleton (snd x)); reflexivity.
Qed.

(** X12. [Singletons] of tools/janitor and [getNonSingletonImages] /
    [getNonSingletonInstances] of pkg/utils select the same resources in
    the same order from the same input, for every delimiter: when one
    returns, the other returns the same list (as the new [Items], with the
    other fields unchanged), and when one panics on a name, so does the
    other. Neither ends the process otherwise. *)
Theorem Singletons_selects_as_getNonSingletons :
  forall (k : Utils.kind) (pk : Janitor.package) (i : Janitor.JanitorMetadata),
    match result (Utils.getNonSingletons k (Janitor.Items i) (Janitor.NameDelimiter i)) with
    | Returns out => returns (Janitor.Singletons pk i) (Janitor.setItems i out)
    | Exits => False
    | Panics => result (Janitor.Singletons pk i) = Panics
    end.
Proof.
  intros k pk i. unfold Utils.getNonSingletons, Janitor.Singletons.
  pose proof (singleton_loops_agree k pk (Janitor.NameDelimiter i) (Janitor.Items i) ∅ ∅ []
                ltac:(rewrite !dom_empty_L; reflexivity)) as H.
  destruct (result (forEach (Utils.nonSingletonStep k (Janitor.NameDelimiter i))
                      (Janitor.Items i) (∅, []))) as [[m' ns']| |] eqn:E.
  - destruct H as [nsm' H].
    rewrite (result_bind _ _ (m', ns') E).
    rewrite (result_bind _ _ tt) by apply singletonReport_returns.
    cbn [ret result snd].
    unfold returns. rewrite (result_bind _ _ _ H).
    rewrite (result_bind _ _ tt) by apply janitor_report_returns.
    reflexivity.
  - destruct H.
  - rewrite (result_bind_panics _ _ E). apply result_bind_panics, H.
Qed.

Lemma nonSingleton_loop_map k d : forall l (m : gmap string string) ns m' ns',
  returns (forEach (Utils.nonSingletonStep k d) l (m, ns)) (m', ns') ->
  (forall key v, m !! key = Some v -> v = "yes") ->
  (forall key v, m' !! key = Some v -> v = "yes") /\
  (forall r kr, r ∈ l -> key d r = Some kr -> kr ∈ dom m') /\
  dom m ⊆ dom m'.
Proof.
  induction l as [|x l IH]; intros m ns m' ns' Hret Hyes.
  - cbn in Hret. injection Hret as <- <-. split; [exact Hyes|]. split; [|reflexivity].
    intros r kr Hr. inversion Hr.
  - cbn [forEach] in Hret. destruct (key d x) as [kx|] eqn:Hk.
    + pose proof (nonSingletonStep_returns k d x m ns kx Hk) as Hs.
      unfold returns in Hret. rewrite (result_bind _ _ _ Hs) in Hret.
      destruct (decide (kx ∈ dom m)) as [Hin|Hnin].
      * destruct (IH _ _ _ _ Hret Hyes) as (H1 & H2 & H3).
        split; [exact H1|]. split; [|exact H3].
        intros r kr Hr Hkr. apply elem_of_cons in Hr as [->|Hr].
        -- rewrite Hk in Hkr. injection Hkr as <-. apply H3, Hin.
        -- eapply H2; eassumption.
      * destruct (IH _ _ _ _ Hret) as (H1 & H2 & H3).
        { intros key v. rewrite lookup_insert_Some. intros [[_ <-]|[_ H]];
            [reflexivity|eapply Hyes, H]. }
        split; [exact H1|]. rewrite dom_insert_L in H3. split.
        -- intros r kr Hr Hkr. apply elem_of_cons in Hr as [->|Hr].
           ++ rewrite Hk in Hkr. injection Hkr as <-. apply H3.
              apply elem_of_union_l, elem_of_singleton. reflexivity.
           ++ eapply H2; eassumption.
        -- intros y Hy. apply H3, elem_of_union_r, Hy.
    + exfalso. unfold Utils.nonSingletonStep in Hret. unfold key in Hk.
      rewrite Hk in Hret. discriminate Hret.
Qed.

Lemma singletonReport_events k (m : gmap string string) :
  (forall key v, m !! key = Some v -> v = "yes") ->
  events (Utils.singletonReport k m)
  = map (fun kv : string * string =>
           Printf (Utils.Noun k ++ " of naming scheme %s is a singleton") [AStr (fst kv)])
        (map_to_list m).
Proof.
  intros Hyes. unfold Utils.singletonReport.
  assert (Forall (fun kv : string * string => snd kv = "yes") (map_to_list m)) as Hl.
  { apply Forall_forall. intros [key v] Hkv. apply elem_of_map_to_list in Hkv.
    cbn. eapply Hyes, Hkv. }
  induction Hl as [|kv l Hkv Hl IH]; [reflexivity|].
  cbn [forEach map]. rewrite Hkv. cbn [String.eqb Ascii.eqb Bool.eqb].
  rewrite (events_bind _ _ tt) by apply returns_printf. rewrite IH. reflexivity.
Qed.

(** X13. The closing loop of [getNonSingletonImages] and
    [getNonSingletonInstances] writes the line "... of naming scheme %s is a
    singleton" for the naming scheme of every resource of its input, also
    for a scheme that several resources share: the map it reads holds the
    value "yes" for every key. *)
Theorem every_naming_scheme_is_reported_a_singleton :
  forall (k : Utils.kind) (delimiter : string) (l : list Resource) (r : Resource),
    delimiter <> "" ->
    r ∈ l ->
    exists kr,
      key delimiter r = Some kr /\
      Printf (Utils.Noun k ++ " of naming scheme %s is a singleton") [AStr kr]
        ∈ events (Utils.getNonSingletons k l delimiter).
Proof.
  intros k d l r Hd Hr. destruct (key_total d r Hd) as [kr Hkr]. exists kr.
  split; [exact Hkr|]. unfold Utils.getNonSingletons.
  destruct (nonSingleton_loop k d Hd l ∅ []) as [m' Hm'].
  destruct (nonSingleton_loop_map k d l ∅ [] _ _ Hm') as (Hyes & Hdom & _).
  { intros key0 v H. rewrite lookup_empty in H. discriminate H. }
  rewrite (events_bind _ _ _ Hm'). apply elem_of_app. right. cbn [fst snd].
  rewrite (events_bind _ _ tt) by apply singletonReport_returns.
  apply elem_of_app. left. rewrite (singletonReport_events k m' Hyes).
  specialize (Hdom r kr Hr Hkr). apply elem_of_dom in Hdom as [v Hv].
  apply (list_elem_of_fmap_2' _ _ (kr, v)); [|reflexivity].
  apply elem_of_map_to_list, Hv.
Qed.

Lemma every_naming_scheme_is_reported_a_singleton_witness :
  exists kr,
    key "-" Sample.web2 = Some kr /\
    Printf "Image of naming scheme %s is a singleton" [AStr kr]
      ∈ events (Utils.getNonSingletons Utils.KImage [Sample.web1; Sample.web2] "-").
Proof.
  apply (every_naming_scheme_is_reported_a_singleton Utils.KImage "-"
           [Sample.web1; Sample.web2] Sample.web2).
  - discriminate.
  - apply list_elem_of_further, list_elem_of_here.
Defined.

Lemma group_snoc d k pre x kx :
  key d x = Some kx ->
  group d k (pre ++ [x]) = (group d k pre ++ if decide (kx = k) then [x] else [])%list.
Proof.
  intros Hk. unfold group. rewrite filter_app. f_equal.
  destruct (decide (kx = k)) as [->|Hne].
  - rewrite filter_cons_True by exact Hk. reflexivity.
  - rewrite filter_cons_False by (rewrite Hk; congruence). reflexivity.
Qed.

Lemma entryOf_step d pre x kx (nsm : gmap string Janitor.nsmEntry) :
  key d x = Some kx ->
  (forall k, nsm !! k = entryOf d k pre) ->
  forall k,
    <[kx := {| Janitor.entryName := Name x;
               Janitor.Singleton := match nsm !! kx with None => true | Some _ => false end |}]>
      nsm !! k
    = entryOf d k (pre ++ [x]).
Proof.
  intros Hk Hinv k. unfold entryOf. rewrite (group_snoc d k pre x kx Hk).
  destruct (decide (kx = k)) as [->|Hne].
  - rewrite lookup_insert_eq. rewrite last_snoc. cbn. f_equal. f_equal.
    rewrite length_app. cbn [length]. rewrite (Hinv k). unfold entryOf.
    destruct (group d k pre) as [|y g] eqn:Eg.
    + reflexivity.
    + destruct (last (y :: g)) as [r|] eqn:El; [|apply last_None in El; discriminate El].
      cbn. symmetry. apply bool_decide_eq_false. cbn [length]. lia.
  - rewrite lookup_insert_ne by exact Hne. rewrite app_nil_r. apply Hinv.
Qed.

Lemma janitor_singletons_loop pk d :
  d <> "" ->
  forall l pre (nsm : gmap string Janitor.nsmEntry) il,
    (forall k, nsm !! k = entryOf d k pre) ->
    exists nsm' il',
      returns (forEach (Janitor.singletonsStep pk d) l (nsm, il)) (nsm', il') /\
      (forall k, nsm' !! k = entryOf d k (pre ++ l)) /\
      Forall (fun e => forall n,
                e <> Logrus "info" (Janitor.Thing pk ++ " is a singleton") [("name", AStr n)])
             (events (forEach (Janitor.singletonsStep pk d) l (nsm, il))).
Proof.
  intros Hd. induction l as [|x l IH]; intros pre nsm il Hinv.
  - exists nsm, il. rewrite app_nil_r. split; [reflexivity|]. split; [exact Hinv|].
    constructor.
  - destruct (key_total d x Hd) as [kx Hk].
    pose proof (entryOf_step d pre x kx nsm Hk Hinv) as Hinv'.
    cbn [forEach]. unfold Janitor.singletonsStep at 1 3.
    change (Janitor.GetResourceBasename (Name x) d) with (key d x). rewrite Hk.
    cbn [orPanic]. rewrite !bind_ret_l.
    destruct (nsm !! kx) as [e0|] eqn:E.
    + destruct (IH (pre ++ [x])%list _ (il ++ [x])%list Hinv') as (nsm' & il' & H1 & H2 & H3).
      exists nsm', il'. rewrite <- app_assoc in H2. split; [|split; [exact H2|]].
      * eapply returns_bind; [reflexivity|exact H1].
      * erewrite events_bind by reflexivity. apply Forall_app. split; [|exact H3].
        repeat constructor. intros n. destruct pk; discriminate.
    + destruct (IH (pre ++ [x])%list _ il Hinv') as (nsm' & il' & H1 & H2 & H3).
      exists nsm', il'. rewrite <- app_assoc in H2. split; [|split; [exact H2|]].
      * eapply returns_bind; [reflexivity|exact H1].
      * erewrite events_bind by reflexivity. apply Forall_app. split; [|exact H3].
        repeat constructor. intros n. destruct pk; discriminate.
Qed.

Lemma janitor_report_events pk : forall l : list (string * Janitor.nsmEntry),
  events (forEach (fun (kv : string * Janitor.nsmEntry) (_ : unit) =>
                     if Janitor.Singleton (snd kv)
                     then logInfo (Janitor.Thing pk ++ " is a singleton")
                                  [("name", AStr (Janitor.entryName (snd kv)))]
                     else ret tt)
                  l tt)
  = omap (fun kv : string * Janitor.nsmEntry =>
            if Janitor.Singleton (snd kv)
            then Some (Logrus "info" (Janitor.Thing pk ++ " is a singleton")
                         [("name", AStr (Janitor.entryName (snd kv)))])
            else None) l.
Proof.
  induction l as [|kv l IH]; [reflexivity|].
  cbn [forEach omap list_omap]. destruct (Janitor.Singleton (snd kv)).
  - erewrite events_bind by reflexivity. rewrite IH. reflexivity.
  - rewrite bind_ret_l. exact IH.
Qed.

(** X14. [Singletons] of tools/janitor, unlike the loop of pkg/utils,
    reports as singletons exactly the resources that are alone in their
    naming-scheme group: the line "... is a singleton" with name [n] is on
    its log if and only if some group of [Items] consists of one resource,
    whose name is [n]. *)
Theorem Singletons_reports_groups_of_one :
  forall (pk : Janitor.package) (i : Janitor.JanitorMetadata) (n : string),
    Janitor.NameDelimiter i <> "" ->
    (Logrus "info" (Janitor.Thing pk ++ " is a singleton") [("name", AStr n)]
       ∈ events (Janitor.Singletons pk i)
     <-> exists k r, group (Janitor.NameDelimiter i) k (Janitor.Items i) = [r] /\ Name r = n).
Proof.
  intros pk i n Hd. unfold Janitor.Singletons.
  destruct (janitor_singletons_loop pk _ Hd (Janitor.Items i) [] ∅ [])
    as (nsm & il & Hret & Hinv & Hquiet).
  { intros k. rewrite lookup_empty. reflexivity. }
  cbn [app] in Hinv.
  rewrite (events_bind _ _ _ Hret). cbn [fst snd].
  rewrite (events_bind _ _ tt) by apply janitor_report_returns.
  rewrite janitor_report_events. cbn [ret events fst]. rewrite app_nil_r.
  rewrite elem_of_app, list_elem_of_omap. split.
  - intros [Hin|([k e] & Hkv & He)].
    + exfalso. rewrite Forall_forall in Hquiet. exact (Hquiet _ Hin n eq_refl).
    + apply elem_of_map_to_list in Hkv. rewrite Hinv in Hkv. unfold entryOf in Hkv.
      cbn [snd] in He.
      destruct (last (group (Janitor.NameDelimiter i) k (Janitor.Items i))) as [r|] eqn:El;
        [|discriminate Hkv].
      cbn in Hkv. injection Hkv as <-. cbn in He.
      destruct (bool_decide _) eqn:Eb; [|discriminate He].
      apply bool_decide_eq_true in Eb. injection He as <-.
      destruct (group (Janitor.NameDelimiter i) k (Janitor.Items i)) as [|y [|z g]] eqn:Eg;
        [discriminate Eb| |discriminate Eb].
      cbn in El. injection El as ->. exists k, r. split; [exact Eg|reflexivity].
  - intros (k & r & Hg & <-). right.
    exists (k, {| Janitor.entryName := Name r; Janitor.Singleton := true |}).
    split; [|reflexivity].
    apply elem_of_map_to_list. rewrite Hinv. unfold entryOf. rewrite Hg. reflexivity.
Qed.

Lemma Singletons_reports_groups_of_one_witness :
  Logrus "info" "Image is a singleton" [("name", AStr "api-1")]
    ∈ events (Janitor.Singletons Janitor.PImages
                (Sample.metadata [Sample.web1; Sample.web2; Sample.api1] [])).
Proof.
  apply (Singletons_reports_groups_of_one Janitor.PImages
           (Sample.metadata [Sample.web1; Sample.web2; Sample.api1] []) "api-1").
  - discriminate.
  - exists "api", Sample.api1. split; reflexivity.
Defined.

End SingletonProperties.

(* ===================================================================== *)
(** ** The deletion engine: accounting, barrier and progress              *)
(* ===================================================================== *)

Module PoolProperties.
Import Delete StringFacts PoolFacts.

Section Pool.

Variable v : variant.
Variable project : string.
Variable W : nat.
Variable imageList : list Resource.

Abbreviation step := (Delete.step v project W imageList).
Abbreviation run := (Delete.run v project W imageList).
Abbreviation init := (Delete.init W imageList).

(** The moves, read back from [step]. *)
Lemma step_inv s l s' :
  step s l = Some s' ->
  halted s = None /\
  match l with
  | Spawn =>
      exists i, main s = Spawning i /\
        s' = {| main := spawned W imageList (S i); queue := queue s; closed := closed s;
                workers := workers s ++ [Receiving]; halted := None;
                log := log s ++ startLine v i |}
  | Send =>
      exists r rest, main s = Sending (r :: rest) /\
        ((callFor v project r = None /\ s' = halt s Panics []) \/
         exists c, callFor v project r = Some c /\ length (queue s) < W /\
           s' = {| main := Sending rest; queue := queue s ++ [c]; closed := closed s;
                   workers := workers s; halted := None;
                   log := log s ++ sendLine v project c |})
  | Close =>
      main s = Sending [] /\
      s' = {| main := Waiting; queue := queue s; closed := true; workers := workers s;
              halted := None; log := log s |}
  | Wait =>
      main s = Waiting /\ allStopped (workers s) = true /\
      s' = setMain s (Returned None) []
  | Receive w =>
      workers s !! w = Some Receiving /\
      ((exists c q, queue s = c :: q /\
          s' = {| main := main s; queue := q; closed := closed s;
                  workers := <[w := Issuing c]> (workers s); halted := None;
                  log := log s |}) \/
       (queue s = [] /\ closed s = true /\ s' = setWorker s w Stopped (stopLine v w)))
  | Issue w answer =>
      exists c, workers s !! w = Some (Issuing c) /\
        s' = match answer with
             | Err err => halt s Exits (issueLine v c ++ issueFailedLine v w c err)
             | Ok deleteOperation =>
                 match queryFor project deleteOperation with
                 | Some q => setWorker s w (Polling c q) (issueLine v c)
                 | None => halt s Panics (issueLine v c)
                 end
             end
  | Poll w answer =>
      exists c q, workers s !! w = Some (Polling c q) /\
        s' = match answer with
             | Err _ => halt s Panics []
             | Ok deleteOperation =>
                 if String.eqb (Status deleteOperation) "DONE"
                 then setWorker s w Receiving (deletedLine v w deleteOperation)
                 else setWorker s w (Polling c q) (pendingLine v w deleteOperation)
             end
  end.
Proof.
  unfold Delete.step. intros Hs.
  destruct (halted s) eqn:Eh; [discriminate|]. split; [reflexivity|].
  destruct l.
  - destruct (main s) as [i| | |]; try discriminate.
    injection Hs as <-. exists i. split; reflexivity.
  - destruct (main s) as [|[|r rest]| |]; try discriminate.
    exists r, rest. split; [reflexivity|].
    destruct (callFor v project r) as [c|]; [|left; injection Hs as <-; split; reflexivity].
    destruct (Nat.ltb_spec (length (queue s)) W); [|discriminate].
    right. exists c. injection Hs as <-. repeat split. assumption.
  - destruct (main s) as [|[|]| |]; try discriminate.
    injection Hs as <-. split; reflexivity.
  - destruct (main s); try discriminate.
    destruct (allStopped (workers s)); [|discriminate].
    injection Hs as <-. repeat split.
  - assert (match workers s !! w, queue s with
            | Some Receiving, c :: q =>
                Some {| main := main s; queue := q; closed := closed s;
                        workers := <[w := Issuing c]> (workers s);
                        halted := None; log := log s |}
            | Some Receiving, [] =>
                if closed s then Some (setWorker s w Stopped (stopLine v w)) else None
            | _, _ => None
            end = Some s') as Hs' by (destruct (main s); exact Hs).
    clear Hs. destruct (workers s !! w) as [[]|]; try discriminate.
    split; [reflexivity|]. destruct (queue s) as [|c q].
    + destruct (closed s); [|discriminate]. injection Hs' as <-. right. repeat split.
    + injection Hs' as <-. left. exists c, q. split; reflexivity.
  - assert (match workers s !! w with
            | Some (Issuing c) =>
                match answer with
                | Err err => Some (halt s Exits (issueLine v c ++ issueFailedLine v w c err))
                | Ok deleteOperation =>
                    match queryFor project deleteOperation with
                    | Some q => Some (setWorker s w (Polling c q) (issueLine v c))
                    | None => Some (halt s Panics (issueLine v c))
                    end
                end
            | _ => None
            end = Some s') as Hs' by (destruct (main s); exact Hs).
    clear Hs. destruct (workers s !! w) as [[| c | |]|]; try discriminate.
    exists c. split; [reflexivity|].
    destruct answer as [op|err]; [destruct (queryFor project op)|];
      injection Hs' as <-; reflexivity.
  - assert (match workers s !! w with
            | Some (Polling c q) =>
                match answer with
                | Err err => Some (halt s Panics [])
                | Ok deleteOperation =>
                    if String.eqb (Status deleteOperation) "DONE"
                    then Some (setWorker s w Receiving (deletedLine v w deleteOperation))
                    else Some (setWorker s w (Polling c q) (pendingLine v w deleteOperation))
                end
            | _ => None
            end = Some s') as Hs' by (destruct (main s); exact Hs).
    clear Hs. destruct (workers s !! w) as [[| | c q |]|]; try discriminate.
    exists c, q. split; [reflexivity|].
    destruct answer as [op|err]; [destruct (String.eqb (Status op) "DONE")|];
      injection Hs' as <-; reflexivity.
Qed.

(** *** Counting *)

Lemma deletedIn_app a b : deletedIn (a ++ b) = deletedIn a + deletedIn b.
Proof. unfold deletedIn. rewrite List.filter_app, length_app. reflexivity. Qed.

Lemma deletedIn_startLine i : deletedIn (startLine v i) = 0.
Proof. destruct v; reflexivity. Qed.

Lemma deletedIn_sendLine c : deletedIn (sendLine v project c) = 0.
Proof. destruct v; reflexivity. Qed.

Lemma deletedIn_stopLine w : deletedIn (stopLine v w) = 0.
Proof. destruct v; reflexivity. Qed.

Lemma deletedIn_issueLine c : deletedIn (issueLine v c) = 0.
Proof. destruct v; reflexivity. Qed.

Lemma deletedIn_issueFailedLine w c err : deletedIn (issueFailedLine v w c err) = 0.
Proof. destruct v; reflexivity. Qed.

Lemma deletedIn_pendingLine w op : deletedIn (pendingLine v w op) = 0.
Proof. destruct v; reflexivity. Qed.

Lemma deletedIn_deletedLine w op : deletedIn (deletedLine v w op) = 1.
Proof. destruct v; reflexivity. Qed.

Lemma busy_insert : forall (ws : list worker) w x y,
  ws !! w = Some y ->
  length (List.filter isBusy (<[w := x]> ws)) + Nat.b2n (isBusy y)
  = length (List.filter isBusy ws) + Nat.b2n (isBusy x).
Proof.
  induction ws as [|a ws IH]; intros w x y Hw; [discriminate Hw|].
  destruct w as [|w].
  - injection Hw as ->. cbn. destruct (isBusy x), (isBusy y); cbn; lia.
  - cbn in Hw. specialize (IH w x y Hw).
    change (<[S w := x]> (a :: ws)) with (a :: <[w := x]> ws).
    cbn [List.filter]. destruct (isBusy a); cbn [length]; lia.
Qed.

Lemma allStopped_lookup (ws : list worker) w x :
  allStopped ws = true -> ws !! w = Some x -> x = Stopped.
Proof.
  unfold allStopped. intros H Hw. rewrite forallb_forall in H.
  apply list_elem_of_lookup_2, list_elem_of_In in Hw. specialize (H x Hw).
  destruct x; [discriminate| discriminate | discriminate | reflexivity].
Qed.

Lemma allStopped_not_busy (ws : list worker) :
  allStopped ws = true -> length (List.filter isBusy ws) = 0.
Proof.
  unfold allStopped. induction ws as [|a ws IH]; [reflexivity|].
  cbn [forallb List.filter]. intros H. apply andb_prop in H as [Ha H].
  destruct a; try discriminate Ha. cbn. apply IH, H.
Qed.

Lemma pending_spawned i s :
  main s = spawned W imageList i -> pending imageList s = imageList.
Proof. unfold pending, spawned. intros ->. destruct (Nat.ltb i W); reflexivity. Qed.

Lemma length_callsOf l : length (callsOf v project l) = length l.
Proof.
  unfold callsOf. induction l as [|r l IH]; [reflexivity|].
  destruct (callFor_total v project r) as [c Hc].
  cbn [omap list_omap]. rewrite Hc. cbn [length]. f_equal. exact IH.
Qed.

(** *** The invariants *)

Lemma accounted_init : accounted v project imageList init.
Proof.
  exists []. split; [|reflexivity]. cbn [app Delete.init queue].
  rewrite (pending_spawned 0); reflexivity.
Qed.

Lemma accounted_step s l s' :
  accounted v project imageList s -> step s l = Some s' ->
  accounted v project imageList s'.
Proof.
  intros (received & Hc & Hl) Hs. apply step_inv in Hs as [Hh Hs].
  unfold accounted, deleted, inflight in *. destruct l.
  - destruct Hs as (i & Em & ->). exists received. cbn [queue log workers].
    rewrite (pending_spawned (S i)) by reflexivity.
    unfold pending in Hc. rewrite Em in Hc. split; [exact Hc|].
    rewrite deletedIn_app, deletedIn_startLine, List.filter_app, length_app. cbn. lia.
  - destruct Hs as (r & rest & Em & [[Hr ->]|(c & Hr & Hlt & ->)]).
    + exists received. unfold pending in *. cbn. rewrite Em in *. split; [exact Hc|].
      rewrite app_nil_r. exact Hl.
    + exists received. unfold pending in *. cbn [queue log workers main].
      rewrite Em in Hc. unfold callsOf in *. cbn [omap list_omap] in Hc. rewrite Hr in Hc.
      split; [rewrite Hc, <- !app_assoc; reflexivity|].
      rewrite deletedIn_app, deletedIn_sendLine. lia.
  - destruct Hs as (Em & ->). exists received. unfold pending in *. cbn. rewrite Em in Hc.
    split; [exact Hc|exact Hl].
  - destruct Hs as (Em & _ & ->). exists received. unfold pending in *.
    cbn [queue log workers main setMain]. rewrite Em in Hc.
    change (callsOf v project []) with (@nil call) in *.
    rewrite !app_nil_r in *. split; [exact Hc|exact Hl].
  - destruct Hs as (Hw & [(c & q & Eq & ->)|(Eq & Ecl & ->)]).
    + exists (received ++ [c])%list. unfold pending in *. cbn [queue log workers main].
      rewrite Eq in Hc. split; [rewrite Hc, <- !app_assoc; reflexivity|].
      rewrite length_app. cbn [length].
      pose proof (busy_insert (workers s) w (Issuing c) Receiving Hw) as Hb.
      cbn in Hb. lia.
    + exists received. unfold pending in *. cbn [queue log workers main setWorker].
      split; [exact Hc|]. rewrite deletedIn_app, deletedIn_stopLine.
      pose proof (busy_insert (workers s) w Stopped Receiving Hw) as Hb.
      cbn in Hb. lia.
  - destruct Hs as (c & Hw & ->).
    destruct answer as [op|err]; [destruct (queryFor project op) as [q|]|];
      exists received; unfold pending in *; cbn [queue log workers main setWorker halt];
      (split; [exact Hc|]); rewrite ?deletedIn_app, ?deletedIn_issueLine,
        ?deletedIn_issueFailedLine; try lia.
    pose proof (busy_insert (workers s) w (Polling c q) (Issuing c) Hw) as Hb.
    cbn in Hb. lia.
  - destruct Hs as (c & q & Hw & ->).
    destruct answer as [op|err]; [destruct (String.eqb (Status op) "DONE")|];
      exists received; unfold pending in *; cbn [queue log workers main setWorker halt];
      (split; [exact Hc|]); rewrite ?deletedIn_app, ?deletedIn_deletedLine,
        ?deletedIn_pendingLine.
    + pose proof (busy_insert (workers s) w Receiving (Polling c q) Hw) as Hb.
      cbn in Hb. lia.
    + pose proof (busy_insert (workers s) w (Polling c q) (Polling c q) Hw) as Hb.
      cbn in Hb. lia.
    + cbn. lia.
Qed.

Lemma settled_init : settled init.
Proof.
  unfold settled, Delete.init, spawned.
  destruct W as [|n]; cbn;
    (split; [split; [discriminate|intros [H|[e H]]; discriminate]|]);
    (split; [intros w H; rewrite lookup_nil in H; discriminate|intros e; discriminate]).
Qed.

Lemma settled_step s l s' : settled s -> step s l = Some s' -> settled s'.
Proof.
  intros (Hcl & Hst & Hret) Hs. apply step_inv in Hs as [Hh Hs].
  assert (forall i, main s = Spawning i -> closed s = false) as Hspawn.
  { intros i E. destruct (closed s) eqn:Ec; [|reflexivity].
    destruct (proj1 Hcl eq_refl) as [H|[e H]]; congruence. }
  assert (forall rest, main s = Sending rest -> closed s = false) as Hsend.
  { intros rest E. destruct (closed s) eqn:Ec; [|reflexivity].
    destruct (proj1 Hcl eq_refl) as [H|[e H]]; congruence. }
  unfold settled. destruct l.
  - destruct Hs as (i & Em & ->). cbn. rewrite (Hspawn i Em). split; [|split].
    + split; [discriminate|]. unfold spawned.
      destruct (Nat.ltb (S i) W); intros [H|[e H]]; discriminate.
    + intros w Hw. apply lookup_app_Some in Hw as [Hw|[_ Hw]].
      * destruct (Hst w Hw) as [H _]. rewrite (Hspawn i Em) in H. discriminate.
      * apply list_lookup_singleton_Some in Hw as [_ Hw]. discriminate.
    + intros e. unfold spawned. destruct (Nat.ltb (S i) W); discriminate.
  - destruct Hs as (r & rest & Em & [[Hr ->]|(c & Hr & Hlt & ->)]); cbn.
    + split; [exact Hcl|]. split; [exact Hst|]. intros e He. congruence.
    + rewrite (Hsend _ Em). split; [|split].
      * split; [discriminate|]. intros [H|[e H]]; discriminate.
      * intros w Hw. destruct (Hst w Hw) as [H _].
        rewrite (Hsend _ Em) in H. discriminate.
      * discriminate.
  - destruct Hs as (Em & ->). cbn. split; [|split].
    + split; [left; reflexivity|reflexivity].
    + intros w Hw. destruct (Hst w Hw) as [H _].
      rewrite (Hsend _ Em) in H. discriminate.
    + discriminate.
  - destruct Hs as (Em & Hall & ->). cbn. split; [|split].
    + split; [intros _; right; eexists; reflexivity|].
      intros _. apply Hcl. left. exact Em.
    + exact Hst.
    + intros e _. split; [exact Hall|exact Hh].
  - destruct Hs as (Hw & [(c & q & Eq & ->)|(Eq & Ecl & ->)]); cbn.
    + split; [exact Hcl|]. split.
      * intros w' Hw'. exfalso.
        destruct (decide (w' = w)) as [->|Hne].
        -- rewrite list_lookup_insert_eq in Hw' by (eapply lookup_lt_Some, Hw).
           discriminate.
        -- rewrite list_lookup_insert_ne in Hw' by congruence.
           destruct (Hst w' Hw') as [_ H]. rewrite Eq in H. discriminate.
      * intros e He. destruct (Hret e He) as [Hall _].
        pose proof (allStopped_lookup _ _ _ Hall Hw). discriminate.
    + split; [exact Hcl|]. split.
      * intros w' _. split; [exact Ecl|exact Eq].
      * intros e He. destruct (Hret e He) as [Hall _].
        pose proof (allStopped_lookup _ _ _ Hall Hw). discriminate.
  - destruct Hs as (c & Hw & ->).
    assert (forall e, main s <> Returned e) as Hnr.
    { intros e He. destruct (Hret e He) as [Hall _].
      pose proof (allStopped_lookup _ _ _ Hall Hw). discriminate. }
    destruct answer as [op|err]; [destruct (queryFor project op) as [q|]|]; cbn;
      (split; [exact Hcl|]); (split; [|intros e He; destruct (Hnr e He)]); try exact Hst.
    intros w' Hw'. destruct (decide (w' = w)) as [->|Hne].
    + rewrite list_lookup_insert_eq in Hw' by (eapply lookup_lt_Some, Hw). discriminate.
    + rewrite list_lookup_insert_ne in Hw' by congruence. exact (Hst w' Hw').
  - destruct Hs as (c & q & Hw & ->).
    assert (forall e, main s <> Returned e) as Hnr.
    { intros e He. destruct (Hret e He) as [Hall _].
      pose proof (allStopped_lookup _ _ _ Hall Hw). discriminate. }
    destruct answer as [op|err]; [destruct (String.eqb (Status op) "DONE")|]; cbn;
      (split; [exact Hcl|]); (split; [|intros e He; destruct (Hnr e He)]); try exact Hst;
      intros w' Hw'; (destruct (decide (w' = w)) as [->|Hne];
        [rewrite list_lookup_insert_eq in Hw' by (eapply lookup_lt_Some, Hw); discriminate
        |rewrite list_lookup_insert_ne in Hw' by congruence; exact (Hst w' Hw')]).
Qed.

(** What holds after every schedule. *)
Lemma reachable s ls :
  run init ls = Some s ->
  shape W s /\ settled s /\ accounted v project imageList s.
Proof.
  intros Hrun.
  apply (run_invariant v project W imageList
           (fun s => shape W s /\ settled s /\ accounted v project imageList s)
           ltac:(intros s1 l s2 (H1 & H2 & H3) Hs; split; [|split];
                 [eapply shape_step|eapply settled_step|eapply accounted_step]; eassumption)
           ls init s); [|exact Hrun].
  split; [apply shape_init|]. split; [apply settled_init|apply accounted_init].
Qed.

Lemma returned_is_final s e l :
  settled s -> main s = Returned e -> step s l = None.
Proof.
  intros (_ & _ & Hret) He. destruct (Hret e He) as [Hall _].
  destruct (step s l) as [s'|] eqn:Hs; [|reflexivity]. exfalso.
  apply step_inv in Hs as [_ Hs]. destruct l.
  - destruct Hs as (i & Em & _). congruence.
  - destruct Hs as (r & rest & Em & _). congruence.
  - destruct Hs as (Em & _). congruence.
  - destruct Hs as (Em & _). congruence.
  - destruct Hs as (Hw & _). pose proof (allStopped_lookup _ _ _ Hall Hw). discriminate.
  - destruct Hs as (c & Hw & _). pose proof (allStopped_lookup _ _ _ Hall Hw). discriminate.
  - destruct Hs as (c & q & Hw & _).
    pose proof (allStopped_lookup _ _ _ Hall Hw). discriminate.
Qed.

Lemma allStopped_false (ws : list worker) :
  allStopped ws = false -> exists w x, ws !! w = Some x /\ x <> Stopped.
Proof.
  unfold allStopped. induction ws as [|a ws IH]; [discriminate|].
  cbn [forallb]. intros H. apply andb_false_iff in H as [H|H].
  - exists 0, a. split; [reflexivity|]. intros ->. discriminate.
  - destruct (IH H) as (w & x & Hw & Hx). exists (S w), x. split; assumption.
Qed.

(** A worker that is not blocked at the channel can move. *)
Lemma worker_can_move s w x :
  halted s = None -> workers s !! w = Some x -> x <> Stopped ->
  (x = Receiving -> queue s <> [] \/ closed s = true) ->
  exists l s', step s l = Some s'.
Proof.
  intros Hh Hw Hx Hrecv. destruct x as [|c|c q|]; [| | |congruence].
  - exists (Receive w). unfold Delete.step. rewrite Hh, Hw.
    destruct (queue s) as [|c q] eqn:Eq.
    + destruct (Hrecv eq_refl) as [H|H]; [congruence|]. rewrite H.
      destruct (main s); eexists; reflexivity.
    + destruct (main s); eexists; reflexivity.
  - exists (Issue w (Err (ApiError ""))). unfold Delete.step. rewrite Hh, Hw.
    destruct (main s); eexists; reflexivity.
  - exists (Poll w (Err (ApiError ""))). unfold Delete.step. rewrite Hh, Hw.
    destruct (main s); eexists; reflexivity.
Qed.

Lemma progress s :
  1 <= W -> shape W s -> settled s -> halted s = None ->
  (forall e, main s <> Returned e) ->
  exists l s', step s l = Some s'.
Proof.
  intros HW [Hq Hm] (Hcl & Hst & Hret) Hh Hnr.
  destruct (main s) as [i|[|r rest]| |e] eqn:Em.
  - exists Spawn. unfold Delete.step. rewrite Hh, Em. eexists. reflexivity.
  - exists Close. unfold Delete.step. rewrite Hh, Em. eexists. reflexivity.
  - destruct (callFor_total v project r) as [c Hc].
    destruct (Nat.ltb (length (queue s)) W) eqn:El.
    + exists Send. unfold Delete.step. rewrite Hh, Em, Hc, El. eexists. reflexivity.
    + apply Nat.ltb_ge in El.
      assert (is_Some (workers s !! 0)) as [x Hw] by (apply lookup_lt_is_Some; lia).
      apply (worker_can_move s 0 x Hh Hw).
      * intros ->. destruct (Hst 0 Hw) as [Hc' _].
        destruct (proj1 Hcl Hc') as [H|[e H]]; discriminate.
      * intros _. left. intros Eq. rewrite Eq in El. cbn in El. lia.
  - destruct (allStopped (workers s)) eqn:Ea.
    + exists Wait. unfold Delete.step. rewrite Hh, Em, Ea. eexists. reflexivity.
    + destruct (allStopped_false _ Ea) as (w & x & Hw & Hx).
      apply (worker_can_move s w x Hh Hw Hx).
      intros _. right. apply Hcl. left. reflexivity.
  - destruct (Hnr e eq_refl).
Qed.

End Pool.

(** X15. When [ParallelImages], [ParallelInstances] or [Parallel] returns,
    every resource of the list has been deleted: the log holds one "Deleted
    resource" line for each, the channel is closed and empty, all [W]
    workers have left their loop, the process has not been stopped, and no
    goroutine of the pool moves any more. *)
Theorem pool_returns_after_every_deletion :
  forall (v : variant) (project : string) (W : nat) (imageList : list Resource)
         (ls : list label) (s : state) (e : option error),
    run v project W imageList (init W imageList) ls = Some s ->
    main s = Returned e ->
    deleted s = length imageList /\
    queue s = [] /\ closed s = true /\
    allStopped (workers s) = true /\ length (workers s) = W /\
    halted s = None /\
    forall l, step v project W imageList s l = None.
Proof.
  intros v project W imageList ls s e Hrun He.
  destruct (reachable v project W imageList s ls Hrun) as ([Hq Hm] & Hset & Hacc).
  pose proof Hset as (Hcl & Hst & Hret). destruct (Hret e He) as [Hall Hh].
  rewrite He in Hm.
  assert (queue s = []) as Eq.
  { destruct W as [|n].
    - destruct (queue s); [reflexivity|cbn in Hq; lia].
    - assert (is_Some (workers s !! 0)) as [x Hw] by (apply lookup_lt_is_Some; lia).
      pose proof (allStopped_lookup _ _ _ Hall Hw) as ->.
      apply (Hst 0 Hw). }
  split; [|split; [exact Eq|split; [apply Hcl; right; eauto|]]].
  - destruct Hacc as (received & Hc & Hl). unfold pending in Hc.
    rewrite He, Eq in Hc. change (callsOf v project []) with (@nil call) in Hc.
    cbn [app] in Hc. rewrite app_nil_r in Hc.
    unfold inflight in Hl. rewrite (allStopped_not_busy _ Hall) in Hl.
    rewrite <- (length_callsOf v project imageList). rewrite Hc. lia.
  - split; [exact Hall|]. split; [exact Hm|]. split; [exact Hh|].
    intros l. eapply returned_is_final; eassumption.
Qed.

Lemma pool_returns_after_every_deletion_witness :
  exists s,
    run JImages "p" 1 [Sample.web1] (init 1 [Sample.web1])
        [Spawn; Send; Close; Receive 0; Issue 0 (Ok (Sample.operation "PENDING"));
         Poll 0 (Ok (Sample.operation "RUNNING")); Poll 0 (Ok (Sample.operation "DONE"));
         Receive 0; Wait] = Some s /\
    main s = Returned None /\ deleted s = 1 /\ queue s = [].
Proof.
  let t := eval vm_compute in
            (run JImages "p" 1 [Sample.web1] (init 1 [Sample.web1])
               [Spawn; Send; Close; Receive 0; Issue 0 (Ok (Sample.operation "PENDING"));
                Poll 0 (Ok (Sample.operation "RUNNING"));
                Poll 0 (Ok (Sample.operation "DONE")); Receive 0; Wait]) in
  match t with Some ?x => exists x end.
  match goal with
  | |- run _ _ _ _ _ ?ls = Some ?s /\ _ =>
      destruct (pool_returns_after_every_deletion JImages "p" 1 [Sample.web1] ls s None)
        as (Hd & Hq & _); [vm_compute; reflexivity|reflexivity|]
  end.
  split; [vm_compute; reflexivity|]. split; [reflexivity|]. split; [exact Hd|exact Hq].
Defined.

(** X16. After every schedule every resource is accounted for: the calls
    of the list are, in list order and once each, the calls some worker has
    received, then the calls waiting in the channel, then the calls the
    producer has still to send; and a received call is either held by a
    worker or reported on the log as deleted. *)
Theorem every_call_is_accounted_for :
  forall (v : variant) (project : string) (W : nat) (imageList : list Resource)
         (ls : list label) (s : state),
    run v project W imageList (init W imageList) ls = Some s ->
    (exists received,
       callsOf v project imageList
       = (received ++ queue s ++ callsOf v project (pending imageList s))%list /\
       length received = deleted s + inflight s) /\
    deleted s + inflight s + length (queue s) + length (pending imageList s)
    = length imageList.
Proof.
  intros v project W imageList ls s Hrun.
  destruct (reachable v project W imageList s ls Hrun) as (_ & _ & Hacc).
  split; [exact Hacc|]. destruct Hacc as (received & Hc & Hl).
  apply (f_equal length) in Hc. rewrite !length_app, !length_callsOf in Hc. lia.
Qed.

Lemma every_call_is_accounted_for_witness :
  exists s,
    run RJInstances "p" 2 [Sample.web1; Sample.web2; Sample.api1]
        (init 2 [Sample.web1; Sample.web2; Sample.api1])
        [Spawn; Spawn; Send; Receive 1; Send] = Some s /\
    deleted s + inflight s + length (queue s)
      + length (pending [Sample.web1; Sample.web2; Sample.api1] s) = 3.
Proof.
  eexists. split; [vm_compute; reflexivity|].
  match goal with
  | |- context [inflight ?s] =>
      destruct (every_call_is_accounted_for RJInstances "p" 2
                  [Sample.web1; Sample.web2; Sample.api1]
                  [Spawn; Spawn; Send; Receive 1; Send] s) as [_ H];
        [vm_compute; reflexivity|exact H]
  end.
Defined.

(** X17. With at least one worker the pool never deadlocks: after every
    schedule, unless the process has been stopped or the pool has returned,
    some goroutine can move. *)
Theorem pool_never_deadlocks :
  forall (v : variant) (project : string) (W : nat) (imageList : list Resource)
         (ls : list label) (s : state),
    1 <= W ->
    run v project W imageList (init W imageList) ls = Some s ->
    halted s = None ->
    (forall e, main s <> Returned e) ->
    exists l s', step v project W imageList s l = Some s'.
Proof.
  intros v project W imageList ls s HW Hrun Hh Hnr.
  destruct (reachable v project W imageList s ls Hrun) as (Hshape & Hset & _).
  apply progress; assumption.
Qed.

Lemma pool_never_deadlocks_witness :
  exists s l s',
    run RJImages "p" 1 [Sample.web1; Sample.web2] (init 1 [Sample.web1; Sample.web2])
        [Spawn; Send] = Some s /\
    step RJImages "p" 1 [Sample.web1; Sample.web2] s l = Some s'.
Proof.
  let t := eval vm_compute in
            (run RJImages "p" 1 [Sample.web1; Sample.web2]
               (init 1 [Sample.web1; Sample.web2]) [Spawn; Send]) in
  match t with Some ?x => exists x end.
  match goal with
  | |- exists l s', run _ _ _ _ _ ?ls = Some ?s /\ _ =>
      destruct (pool_never_deadlocks RJImages "p" 1 [Sample.web1; Sample.web2] ls s)
        as (l & s' & Hstep);
        [lia|vm_compute; reflexivity|reflexivity|intros e; discriminate|]
  end.
  exists l, s'. split; [vm_compute; reflexivity|exact Hstep].
Defined.

(** X18. With [workers = 0] no worker is started and the channel has no
    buffer: the first send blocks for ever, so with a resource to delete
    no goroutine of the pool ever moves and the pool does not return; with
    nothing to delete it closes the channel and returns nil. *)
Theorem zero_workers_block_the_pool :
  forall (v : variant) (project : string) (r : Resource) (rest : list Resource),
    (forall l, step v project 0 (r :: rest) (init 0 (r :: rest)) l = None) /\
    (forall ls, run v project 0 (r :: rest) (init 0 (r :: rest)) ls
                = match ls with [] => Some (init 0 (r :: rest)) | _ => None end) /\
    (exists s, run v project 0 [] (init 0 []) [Close; Wait] = Some s /\
               main s = Returned None).
Proof.
  intros v project r rest.
  assert (forall l, step v project 0 (r :: rest) (init 0 (r :: rest)) l = None) as H.
  { intros l. unfold Delete.step, Delete.init, spawned. cbn.
    destruct (callFor_total v project r) as [c Hc].
    destruct l; try reflexivity. rewrite Hc. reflexivity. }
  split; [exact H|]. split.
  - intros [|l ls]; [reflexivity|]. cbn [Delete.run]. rewrite H. reflexivity.
  - eexists. split; reflexivity.
Qed.

End PoolProperties.

(* ===================================================================== *)
(** ** The two goroutines of [main]                                       *)
(* ===================================================================== *)

Module MainProperties.
Import ProcFacts ProcLaws.






End MainProperties.

(* ===================================================================== *)
(** ** The age threshold                                                  *)
(* ===================================================================== *)

Module TooOldProperties.
Import TooOld.

Local Open Scope Z_scope.




(** The subtraction is an [int64] subtraction: outside that range the
    threshold wraps around, and an [older-than] below the range gives a threshold
    in the far past. *)
Example GetTooOldTime_wraps :
  GetTooOldTime 1546300800000000000 (- 2 ^ 63) = (1546300800 - 2 ^ 63) * second.
Proof. reflexivity. Qed.

End TooOldProperties.
